(** * TogetherWe: the scoring pipelines and the score store

    A shallow embedding of the game's JavaScript modules:
    - [Core]  : core.js (clamp, escapeHtml, timeAgo, sanitizeName,
                loadScores, saveScore);
    - [Ui]    : js/ui.js, as the trace of the calls made to it;
    - [Laugh] : the laugh mode of js/laugh.js (calibration, the ring
                buffer, the 4 Hz scoring tick, stopRound);
    - [Shake] : the shake mode, the second module of js/laugh.js
                (onDeviceMotion, the 60 Hz frame loop, stopRound);
    - [Page]  : the start buttons of initLaughPage and initShakePage.

    Numbers.  A finite JavaScript number is a rational, so signal values
    live in [Q]; NaN and the infinities are not modelled.  [Laugh] and
    [Shake] compute on them with exact arithmetic and carry the properties
    of order, of counting and of what is persisted and when.  [Double] is
    the binary64 arithmetic of the engine, every operation rounded to the
    nearest double, and [Laugh64] and [Shake64] are the functions of the
    two modes that compute with numbers, in that arithmetic: the values of
    the meters and of the scores are stated there.  Comparisons are the
    boolean ones so that every definition runs.  Values produced by
    [Math.round] are integers and live in [Z].  The platform functions
    whose results are not rational functions of their arguments
    (Math.sqrt, Math.hypot, Math.PI) are Section variables of the modules
    that call them. *)

From Stdlib Require Import ZArith QArith Qround Qpower Lqa Lia Ascii String.
From stdpp Require Import gmap strings list sorting pretty.

Local Open Scope Z_scope.

(* ===================================================================== *)
(** ** JavaScript primitives used by the three modules                     *)
(* ===================================================================== *)

Module Js.

(** [x < y], [x <= y], [x > y], [x >= y] on numbers. *)
Definition lt (x y : Q) : bool := negb (Qle_bool y x).
Definition le (x y : Q) : bool := Qle_bool x y.
Definition gt (x y : Q) : bool := lt y x.
Definition ge (x y : Q) : bool := le y x.

(** Truthiness of a number: only zero is falsy (NaN is not modelled). *)
Definition truthy (x : Q) : bool := negb (Qeq_bool x 0).

(** [x || d] on numbers. *)
Definition or_else (x d : Q) : Q := if truthy x then x else d.

(** [Math.max], [Math.min]. *)
Definition Math_max (x y : Q) : Q := if le x y then y else x.
Definition Math_min (x y : Q) : Q := if le x y then x else y.

(** [Math.round]: the nearest integer, a tie going towards +infinity. *)
Definition Math_round (x : Q) : Z := Qfloor (x + (1 # 2)).

(** The lower case of an ASCII character. *)
Definition lower_ascii (c : ascii) : ascii :=
  let n := nat_of_ascii c in
  if ((65 <=? n)%nat && (n <=? 90)%nat)%bool then ascii_of_nat (n + 32) else c.

(** [s.toLowerCase()] on UTF-8 text.  The characters whose lower case is
    or holds an ASCII letter are mapped as the engine maps them: A to Z,
    the Kelvin sign U+212A (bytes 226 132 170, to k) and the capital I with
    a dot above U+0130 (bytes 196 176, to i followed by U+0307).  Every
    other character is kept as it is: its lower case lies outside ASCII as
    well, so that a search for an ASCII word finds the same. *)
Fixpoint toLowerCase (s : string) : string :=
  match s with
  | EmptyString => EmptyString
  | String c r =>
      match c, r with
      | "226"%char, String "132"%char (String "170"%char r') =>
          String "k" (toLowerCase r')
      | "196"%char, String "176"%char r' =>
          String "i" (String "204" (String "135" (toLowerCase r')))
      | _, _ => String (lower_ascii c) (toLowerCase r)
      end
  end.

(** [s.startsWith(sub)]. *)
Fixpoint startsWith (s sub : string) {struct sub} : bool :=
  match sub, s with
  | EmptyString, _ => true
  | String a sub', String b s' => Ascii.eqb a b && startsWith s' sub'
  | String _ _, EmptyString => false
  end.

(** [s.includes(sub)]. *)
Fixpoint includes (s sub : string) : bool :=
  if startsWith s sub then true
  else match s with
       | EmptyString => false
       | String _ r => includes r sub
       end.

(** [Array.prototype.sort(compareFn)].  The sort is stable (ECMAScript
    2019); for a comparator that is a consistent order the result is the
    one of a stable insertion sort: an element is placed before the first
    later element it does not compare greater than. *)
Section Sort.
Context {A : Type} (compareFn : A -> A -> Z).

Fixpoint sort_insert (x : A) (l : list A) : list A :=
  match l with
  | [] => [x]
  | y :: r => if compareFn x y <=? 0 then x :: y :: r
              else y :: sort_insert x r
  end.

Definition sort (l : list A) : list A := foldr sort_insert [] l.
End Sort.

End Js.

(* ===================================================================== *)
(** ** Binary64 arithmetic                                                 *)
(* ===================================================================== *)

(** A JavaScript number is an IEEE 754 double.  A finite double is a
    rational number, and the result of [+], [-], [*] and [/] on finite
    doubles is the exact result rounded to the nearest double, a tie going
    to the double with the even significand; a decimal literal denotes the
    double nearest to it.  NaN, the infinities (and so overflow) and the
    sign of zero are left out. *)
Module Double.

Local Open Scope Q_scope.

(** [2^e] for an integer exponent. *)
Definition pow2 (e : Z) : Q := 2 ^ e.

(** The binary exponent of a positive number: [2^e <= q < 2^(e+1)]. *)
Definition ilog2 (q : Q) : Z :=
  let e := (Z.log2 (Qnum q) - Z.log2 (Zpos (Qden q)))%Z in
  if Qle_bool (pow2 e) q then e else (e - 1)%Z.

(** The nearest integer, a tie going to the even one. *)
Definition nearestEven (x : Q) : Z :=
  let f := Qfloor x in
  match Qcompare (x - inject_Z f) (1 # 2) with
  | Lt => f
  | Gt => (f + 1)%Z
  | Eq => if Z.even f then f else (f + 1)%Z
  end.

(** The distance between the doubles around a positive number: 52 binary
    places below its exponent, and [2^-1074] in the subnormal range. *)
Definition ulp (a : Q) : Q := pow2 (Z.max (ilog2 a) (-1022) - 52).

(** The double nearest to a rational. *)
Definition round (q : Q) : Q :=
  match Qnum q with
  | Z0 => 0
  | Zpos _ => Qred (inject_Z (nearestEven (q / ulp q)) * ulp q)
  | Zneg _ => Qred (- (inject_Z (nearestEven (- q / ulp (- q))) * ulp (- q)))
  end.

Definition add (x y : Q) : Q := round (x + y).
Definition sub (x y : Q) : Q := round (x - y).
Definition mul (x y : Q) : Q := round (x * y).
Definition div (x y : Q) : Q := round (x / y).

(** A decimal literal of the source. *)
Definition lit (q : Q) : Q := round q.

(** An accumulator that starts at 0 and adds the elements in order. *)
Definition sum (l : list Q) : Q := fold_left add l 0.

End Double.

Infix "⊕" := Double.add (at level 50, left associativity).
Infix "⊖" := Double.sub (at level 50, left associativity).
Infix "⊗" := Double.mul (at level 40, left associativity).
Infix "⊘" := Double.div (at level 40, left associativity).

(* ===================================================================== *)
(** ** core.js                                                             *)
(* ===================================================================== *)

Module Core.

Definition LAUGH_SCORE_KEY : string := "scores_laugh".
Definition SHAKE_SCORE_KEY : string := "scores_shake".

(** [clamp = (value, min, max) => Math.max(min, Math.min(max, value))] *)
Definition clamp (value min max : Q) : Q :=
  Js.Math_max min (Js.Math_min max value).

(** *** escapeHtml *)

(** The object literal indexed by the matched character. *)
Definition entity (c : ascii) : option string :=
  if Ascii.eqb c "&" then Some "&amp;"
  else if Ascii.eqb c "<" then Some "&lt;"
  else if Ascii.eqb c ">" then Some "&gt;"
  else if Ascii.eqb c "034" then Some "&quot;"
  else if Ascii.eqb c "'" then Some "&#39;"
  else None.

(** [str.replace(re, c => table[c])] with the global character class of
    the five characters of [entity]: every character of the class is
    replaced by its entity, the others are kept.  The source first
    replaces a falsy [str] by the empty string; the only falsy string is
    the empty one.  A string is its sequence of bytes: the five characters
    are ASCII, and no byte of a longer character equals one of them. *)
Fixpoint escapeHtml (str : string) : string :=
  match str with
  | EmptyString => EmptyString
  | String c r =>
      match entity c with
      | Some e => e +:+ escapeHtml r
      | None => String c (escapeHtml r)
      end
  end.

(** *** The score store *)

Record ScoreEntry := mkEntry { name : string; score : Z; ts : Z }.

(** What a localStorage slot holds: the JSON text of an array of entries
    (JSON.stringify and JSON.parse are inverse on such arrays, so the
    array stands for its text), or text that JSON.parse rejects. *)
Inductive Slot :=
| Entries (l : list ScoreEntry)
| Unparsable.

Abbreviation Storage := (gmap string Slot).

Definition score_key (mode : string) : string :=
  if String.eqb mode "laugh" then LAUGH_SCORE_KEY else SHAKE_SCORE_KEY.

(** [loadScores]: a missing key reads as the empty array, a parse error is caught. *)
Definition loadScores (mode : string) (localStorage : Storage)
  : list ScoreEntry :=
  match localStorage !! score_key mode with
  | Some (Entries l) => l
  | Some Unparsable => []
  | None => []
  end.

(** [x || 0] on an integer score. *)
Definition or_zero (x : Z) : Z := if x =? 0 then 0 else x.

(** [(a, b) => (b.score || 0) - (a.score || 0)] *)
Definition by_score_desc (a b : ScoreEntry) : Z :=
  or_zero (score b) - or_zero (score a).

(** [saveScore(mode, name, score)]; [now] is the reading of Date.now().
    Returns the storage after [setItem] and the returned boolean. *)
Definition saveScore (mode name : string) (score_ : Z) (now : Z)
    (localStorage : Storage) : Storage * bool :=
  let scores := loadScores mode localStorage in
  let personalBest :=
    match scores with
    | e :: _ => score e
    | [] => 0
    end in
  let scores := scores ++ [mkEntry name score_ now] in
  let scores := Js.sort by_score_desc scores in
  let top10 := take 10 scores in
  (<[score_key mode := Entries top10]> localStorage, personalBest <? score_).

(** *** sanitizeName *)

(** The characters [String.prototype.trim] strips are the white space and
    line terminator code points of ECMAScript: U+0009 to U+000D, U+0020,
    U+00A0, U+1680, U+2000 to U+200A, U+2028, U+2029, U+202F, U+205F,
    U+3000 and U+FEFF.  A string is its sequence of UTF-8 bytes, so these
    are the byte sequences below, of one, two or three bytes. *)
Definition white1 (a : ascii) : bool :=
  let n := nat_of_ascii a in
  ((9 <=? n)%nat && (n <=? 13)%nat) || (n =? 32)%nat.

Definition white2 (a b : ascii) : bool :=
  Ascii.eqb a "194" && Ascii.eqb b "160".

Definition white3 (a b c : ascii) : bool :=
  let n := nat_of_ascii c in
  (Ascii.eqb a "225" && Ascii.eqb b "154" && Ascii.eqb c "128")
  || (Ascii.eqb a "226" && Ascii.eqb b "128"
      && (((128 <=? n)%nat && (n <=? 138)%nat)
          || (n =? 168)%nat || (n =? 169)%nat || (n =? 175)%nat))
  || (Ascii.eqb a "226" && Ascii.eqb b "129" && Ascii.eqb c "159")
  || (Ascii.eqb a "227" && Ascii.eqb b "128" && Ascii.eqb c "128")
  || (Ascii.eqb a "239" && Ascii.eqb b "187" && Ascii.eqb c "191").

(** Strips the white space at the front of a sequence of bytes; with
    [back], the sequence is read from its end, so the bytes of a character
    come in the opposite order. *)
Fixpoint stripWhite (back : bool) (l : list ascii) : list ascii :=
  match l with
  | [] => []
  | a :: r =>
      if white1 a then stripWhite back r
      else
        match r with
        | [] => l
        | b :: r2 =>
            if (if back then white2 b a else white2 a b)
            then stripWhite back r2
            else
              match r2 with
              | [] => l
              | c :: r3 =>
                  if (if back then white3 c b a else white3 a b c)
                  then stripWhite back r3
                  else l
              end
        end
  end.

(** [s.trim()] *)
Definition trim (s : string) : string :=
  let front := stripWhite false (list_ascii_of_string s) in
  string_of_list_ascii (rev (stripWhite true (rev front))).

(** The character class [A-Za-z0-9_ ]. *)
Definition nameChar (c : ascii) : bool :=
  let n := nat_of_ascii c in
  ((65 <=? n)%nat && (n <=? 90)%nat) || ((97 <=? n)%nat && (n <=? 122)%nat)
  || ((48 <=? n)%nat && (n <=? 57)%nat) || (n =? 95)%nat || (n =? 32)%nat.

(** [/^[A-Za-z0-9_ ]{1,16}$/.test(s)] *)
Definition nameTest (s : string) : bool :=
  (1 <=? String.length s)%nat && (String.length s <=? 16)%nat
  && forallb nameChar (list_ascii_of_string s).

(** [sanitizeName]; a falsy [name] is replaced by the empty string, and
    the only falsy string is the empty one. *)
Definition sanitizeName (name : string) : string :=
  let s := trim name in
  if nameTest s then s else EmptyString.

(** *** timeAgo *)

(** The decimal rendering of an integer in a template string. *)
Definition numberToString (n : Z) : string := pretty n.

(** [timeAgo(ts)]; [now] is the reading of Date.now(). *)
Definition timeAgo (now ts : Z) : string :=
  let seconds := (now - or_zero ts) / 1000 in
  if seconds <? 60 then numberToString seconds +:+ "s ago"
  else
    let minutes := seconds / 60 in
    if minutes <? 60 then numberToString minutes +:+ "m ago"
    else
      let hours := minutes / 60 in
      if hours <? 24 then numberToString hours +:+ "h ago"
      else
        let days := hours / 24 in
        numberToString days +:+ "d ago".

End Core.

(* ===================================================================== *)
(** ** ui.js                                                               *)
(* ===================================================================== *)

(** The UI layer only writes to the page, so a function that calls it is
    modelled as returning, next to its result, the list of its UI calls in
    order. *)
Module Ui.

(** The text shown next to a meter bar: [v.toFixed(digits)] followed by a
    unit, or [n.toString()] of an integer. *)
Inductive Text :=
| toFixed (v : Q) (digits : nat) (unit : string)
| toString (n : Z).

Inductive Call :=
| setStatus (text level : string)
| updateMeter (name : string) (percentage : Q) (text : Text)
| setButtonStates (start stop again : bool)
| displayOriginStatus (isSecure : bool) (permStatus : option string)
| logDebug (message : string)
| triggerConfetti.

(** The texts written to the meter [name] by the calls of a trace, oldest
    first. *)
Fixpoint shown (name : string) (trace : list Call) : list Text :=
  match trace with
  | [] => []
  | updateMeter n _ t :: rest =>
      if String.eqb n name then t :: shown name rest else shown name rest
  | _ :: rest => shown name rest
  end.

(** State passing with a trace of UI calls. *)
Definition andThen {S : Type} (m : S * list Call) (f : S -> S * list Call)
  : S * list Call :=
  let '(s, out) := m in
  let '(s', out') := f s in
  (s', out ++ out').

(** A sequence of handler invocations, each on the state left by the one
    before. *)
Definition runAll {S A : Type} (handler : A -> S -> S * list Call)
    (s : S) (acts : list A) : S * list Call :=
  fold_left (fun m a => andThen m (handler a)) acts (s, []).

End Ui.

(* ===================================================================== *)
(** ** laugh.js                                                            *)
(* ===================================================================== *)

Module Laugh.

Local Open Scope Q_scope.

(** A thrown value, with the two renderings the handlers use:
    [err.message] and the string conversion of [err]. *)
Record JsError := mkError { message : string; asString : string }.

(** [err.message || err] inside a template string. *)
Definition error_text (err : JsError) : string :=
  if String.eqb (message err) EmptyString then asString err else message err.

Record Category := mkCategory { categoryName : string; score : Q }.

(** The outcome of
    [audioClassifier.classify(..)?.[0]?.classifications?.[0]?.categories]:
    the call throws, or the chain yields the categories or undefined. *)
Inductive Classification :=
| Throws (err : JsError)
| Yields (categories : option (list Category)).

Definition EMA_ALPHA : Q := 0.2.
Definition ROUND_DURATION : Z := 10000.
Definition TICK_INTERVAL : Z := 250.

Definition isLaughterCategory (name : string) : bool :=
  let n := Js.toLowerCase name in
  Js.includes n "laugh" || Js.includes n "giggle" || Js.includes n "chuckle"
  || Js.includes n "chortle" || Js.includes n "snicker".

(** The closure variables of one round. *)
Record Vars := mkVars {
  laughProbSum : Q;
  frameCount : Z;
  loudPenalty : Q;
  streak : Z;
  streakBonus : Z;
  elapsedTime : Z
}.

(** The module-level variables, the browser resources a round holds and
    the score slots of localStorage. *)
Record State := mkState {
  audioClassifier : bool;      (* the classifier has been created *)
  audioOpen : bool;            (* audioContext and its nodes exist *)
  gameLoop : bool;             (* the setInterval timer is live *)
  isRoundRunning : bool;
  baselineRMS : Q;
  emaLaughProb : Q;
  vars : Vars;
  localStorage : Core.Storage
}.

(** [cleanupAudio] *)
Definition cleanupAudio (s : State) : State :=
  mkState (audioClassifier s) false (gameLoop s) false
          (baselineRMS s) (emaLaughProb s) (vars s) (localStorage s).

(** [stopRound(name, finalScore)]; [now] is the reading of Date.now(). *)
Definition stopRound (name : string) (finalScore : Z) (now : Z) (s : State)
  : State * list Ui.Call :=
  if negb (isRoundRunning s) then (s, [])
  else
    let s := mkState (audioClassifier s) (audioOpen s) false false
                     (baselineRMS s) (emaLaughProb s) (vars s)
                     (localStorage s) in
    let s := cleanupAudio s in
    let out := [Ui.setStatus "Round finished!" "ok";
                Ui.setButtonStates false false true] in
    let '(store, isNewBest) :=
      Core.saveScore "laugh" name finalScore now (localStorage s) in
    let s := mkState (audioClassifier s) (audioOpen s) (gameLoop s)
                     (isRoundRunning s) (baselineRMS s) (emaLaughProb s)
                     (vars s) store in
    if isNewBest
    then (s, out ++ [Ui.setStatus "New personal best!" "ok";
                     Ui.triggerConfetti])
    else (s, out).

(** The laughter probability of a tick: the reduce over the categories
    (none when the call threw), clamped to [0, 1]. *)
Definition tickProbability (r : Classification) : Q :=
  let classifications :=
    match r with
    | Throws _ => []
    | Yields (Some cats) => cats
    | Yields None => []
    end in
  let p := fold_left
             (fun sum cat =>
                sum + (if isLaughterCategory (categoryName cat)
                       then score cat else 0))
             classifications 0 in
  Core.clamp p 0 1.

(** [Math.round(Math.max(0, baseScore - finalPenalty + finalBonus))] from
    the accumulators as they are after the updates of the tick. *)
Definition joyRank (v : Vars) : Z :=
  let baseScore := 100 * (laughProbSum v / inject_Z (frameCount v)) in
  let finalPenalty := 15 * loudPenalty v in
  let finalBonus := 2 * inject_Z (streakBonus v) in
  Js.Math_round (Js.Math_max 0 (baseScore - finalPenalty + finalBonus)).

Record TickInput := mkTick {
  rmsData : list Q;             (* the analyser frame *)
  outcome : Classification;     (* of the classifier call *)
  tickNow : Z                   (* Date.now(), read if the round ends *)
}.

Record StartInput := mkStart {
  classifierFails : option JsError;  (* ensureClassifier throws *)
  microphoneFails : option JsError;  (* getUserMedia rejects *)
  calibStart : Q;                    (* performance.now() before the loop *)
  calibPolls : list (Q * list Q)
}.

Definition freshVars : Vars := mkVars 0 0%Z 0 0%Z 0%Z 0%Z.

(** A round driven by the page: timer ticks and clicks on stop. *)
Inductive Action :=
| Tick (inp : TickInput)
| StopClick (now : Z).

Section WithPlatform.

(** [Math.sqrt] *)
Variable Math_sqrt : Q -> Q.

(** The RMS of one analyser frame. *)
Definition rms (data : list Q) : Q :=
  let sumSquares := fold_left (fun acc amp => acc + amp * amp) data 0 in
  Math_sqrt (sumSquares / inject_Z (Z.of_nat (length data))).

(** The calibration loop, run on its successive clock readings: [t] is
    the value of performance.now() at a loop test and [calibData] the
    analyser frame read by the iteration that follows. *)
Fixpoint calibrationLoop (calibEndTime : Q) (polls : list (Q * list Q))
    (rmsSum : Q) (rmsCount : Z) : Q * Z :=
  match polls with
  | [] => (rmsSum, rmsCount)
  | (t, calibData) :: rest =>
      if Js.lt t calibEndTime
      then calibrationLoop calibEndTime rest
             (rmsSum + rms calibData) (rmsCount + 1)%Z
      else (rmsSum, rmsCount)
  end.

Definition calibrate (start : Q) (polls : list (Q * list Q)) : Q :=
  let calibEndTime := start + 2000 in
  let '(rmsSum, rmsCount) := calibrationLoop calibEndTime polls 0 0%Z in
  if (0 <? rmsCount)%Z then rmsSum / inject_Z rmsCount else 0.01.

(** The loudness penalty a tick adds. *)
Definition tickPenalty (baseline : Q) (data : list Q) : Q :=
  let currentRMS := rms data in
  let loudThreshold := baseline + 0.10 in
  if Js.gt currentRMS loudThreshold
  then Js.Math_min 0.03 (currentRMS - loudThreshold)
  else 0.

(** The updates of the accumulators in one tick. *)
Definition tickVars (baseline : Q) (inp : TickInput) (v : Vars) : Vars :=
  let currentRMS := rms (rmsData inp) in
  let loudThreshold := baseline + 0.10 in
  let loudPenalty' :=
    if Js.gt currentRMS loudThreshold
    then loudPenalty v + Js.Math_min 0.03 (currentRMS - loudThreshold)
    else loudPenalty v in
  let p := tickProbability (outcome inp) in
  let '(streak', streakBonus') :=
    if Js.ge p 0.6
    then let st := (streak v + 1)%Z in
         (st, if ((0 <? st)%Z && (Z.rem st 4 =? 0)%Z)%bool
              then (streakBonus v + 1)%Z else streakBonus v)
    else (0%Z, streakBonus v) in
  mkVars (laughProbSum v + p) (frameCount v + 1)%Z loudPenalty'
         streak' streakBonus' (elapsedTime v + TICK_INTERVAL)%Z.

(** The body of the setInterval callback. *)
Definition gameLoopTick (playerName : string) (inp : TickInput) (s : State)
  : State * list Ui.Call :=
  if negb (isRoundRunning s) then (s, [])
  else
    let log :=
      match outcome inp with
      | Throws err =>
          [Ui.logDebug ("Classification error: " +:+ error_text err)]
      | Yields _ => []
      end in
    let p := tickProbability (outcome inp) in
    let v := tickVars (baselineRMS s) inp (vars s) in
    let ema := EMA_ALPHA * (p * 100) + (1 - EMA_ALPHA) * emaLaughProb s in
    let s := mkState (audioClassifier s) (audioOpen s) (gameLoop s)
                     (isRoundRunning s) (baselineRMS s) ema v
                     (localStorage s) in
    let out := log ++
               [Ui.updateMeter "laugh" ema (Ui.toFixed ema 1 "%");
                Ui.updateMeter "joy" (inject_Z (joyRank v))
                               (Ui.toString (joyRank v))] in
    if (ROUND_DURATION <=? elapsedTime v)%Z
    then Ui.andThen (s, out) (stopRound playerName (joyRank v) (tickNow inp))
    else (s, out).

(** The click handler of the stop button. *)
Definition stopClick (playerName : string) (now : Z) (s : State)
  : State * list Ui.Call :=
  stopRound playerName 0 now s.

(** [ensureClassifier]; [fails] is the error of the model download, if it
    fails on every mirror.  The debug lines of the download are left out. *)
Definition ensureClassifier (fails : option JsError) (s : State)
  : State * list Ui.Call * option JsError :=
  if audioClassifier s then (s, [], None)
  else
    match fails with
    | Some err =>
        (s, [Ui.setStatus "Loading audio model..." "warn";
             Ui.setStatus "Error loading audio model." "bad"], Some err)
    | None =>
        (mkState true (audioOpen s) (gameLoop s) (isRoundRunning s)
                 (baselineRMS s) (emaLaughProb s) (vars s) (localStorage s),
         [Ui.setStatus "Loading audio model..." "warn";
          Ui.setStatus "Model loaded. Ready." "ok"], None)
    end.

(** [startLaughRound]: the state and the UI calls when the function
    returns or throws, and the thrown error if any.  The debug line of the
    calibration is recorded without the digits of the baseline; the
    animation-frame loop of the RMS meter only draws and is left out. *)
Definition startLaughRound (inp : StartInput) (s : State)
  : State * list Ui.Call * option JsError :=
  let s := cleanupAudio s in
  match ensureClassifier (classifierFails inp) s with
  | (s, out, Some err) => (s, out, Some err)
  | (s, out, None) =>
      let out := out ++ [Ui.setStatus "Requesting microphone..." "warn"] in
      match microphoneFails inp with
      | Some err => (s, out, Some err)
      | None =>
          let baseline := calibrate (calibStart inp) (calibPolls inp) in
          (mkState (audioClassifier s) true true true baseline 0 freshVars
                   (localStorage s),
           out ++ [Ui.setStatus "Calibrating background noise... (2s)" "warn";
                   Ui.logDebug "Calibration complete.";
                   Ui.setStatus "Go! Laugh for 10 seconds!" "ok"],
           None)
      end
  end.

(** One event of the page, delivered to its handler; the timer only fires
    while the interval is live. *)
Definition step (playerName : string) (a : Action) (s : State)
  : State * list Ui.Call :=
  match a with
  | Tick inp => if gameLoop s then gameLoopTick playerName inp s else (s, [])
  | StopClick now => stopClick playerName now s
  end.

Definition run (playerName : string) (s : State) (acts : list Action)
  : State * list Ui.Call :=
  Ui.runAll (step playerName) s acts.

End WithPlatform.

(** *** The ring buffer *)

(** The closure variables [ringBuffer] and [ringBufferIndex]: one second
    of samples at 16 kHz and the position of the next write. *)
Record Ring := mkRing { ringBuffer : list Q; ringBufferIndex : nat }.

Definition RING_SIZE : nat := Z.to_nat 16000.

(** [new Float32Array(16000)] and index 0. *)
Definition newRing : Ring := mkRing (replicate RING_SIZE 0) 0%nat.

(** [ringBuffer[ringBufferIndex++] = x], then the wrap-around.  A write
    past the end of a typed array does nothing. *)
Definition writeSample (ring : Ring) (x : Q) : Ring :=
  let buffer := <[ringBufferIndex ring := x]> (ringBuffer ring) in
  let index := S (ringBufferIndex ring) in
  mkRing buffer
         (if (length (ringBuffer ring) <=? index)%nat then 0%nat else index).

(** The [onaudioprocess] callback on the samples of one input buffer. *)
Definition onaudioprocess (inputData : list Q) (ring : Ring) : Ring :=
  fold_left writeSample inputData ring.

(** The [audioSlice] a tick hands to the classifier: the part of the ring
    from the index on, then the part before it. *)
Definition audioSlice (ring : Ring) : list Q :=
  drop (ringBufferIndex ring) (ringBuffer ring)
  ++ take (ringBufferIndex ring) (ringBuffer ring).

End Laugh.

(* ===================================================================== *)
(** ** laugh.js, the laugh mode in binary64 arithmetic                     *)
(* ===================================================================== *)

(** The functions of [Laugh] that compute with numbers, with every
    operation rounded as the engine rounds it.  The records, the events,
    [cleanupAudio], [stopRound], [stopClick] and [ensureClassifier] do no
    arithmetic and are those of [Laugh]. *)
Module Laugh64.

Import Laugh.
Local Open Scope Q_scope.

Definition EMA_ALPHA : Q := Double.lit 0.2.

(** The laughter probability of a tick: the reduce over the categories
    (none when the call threw), clamped to [0, 1]. *)
Definition tickProbability (r : Classification) : Q :=
  let classifications :=
    match r with
    | Throws _ => []
    | Yields (Some cats) => cats
    | Yields None => []
    end in
  let p := fold_left
             (fun sum cat =>
                sum ⊕ (if isLaughterCategory (categoryName cat)
                       then score cat else 0))
             classifications 0 in
  Core.clamp p 0 1.

(** [Math.round(Math.max(0, baseScore - finalPenalty + finalBonus))] from
    the accumulators as they are after the updates of the tick. *)
Definition joyRank (v : Vars) : Z :=
  let baseScore := 100 ⊗ (laughProbSum v ⊘ inject_Z (frameCount v)) in
  let finalPenalty := 15 ⊗ loudPenalty v in
  let finalBonus := 2 ⊗ inject_Z (streakBonus v) in
  Js.Math_round (Js.Math_max 0 (baseScore ⊖ finalPenalty ⊕ finalBonus)).

Section WithPlatform.

(** [Math.sqrt] *)
Variable Math_sqrt : Q -> Q.

(** The RMS of one analyser frame. *)
Definition rms (data : list Q) : Q :=
  let sumSquares := fold_left (fun acc amp => acc ⊕ amp ⊗ amp) data 0 in
  Math_sqrt (sumSquares ⊘ inject_Z (Z.of_nat (length data))).

(** The calibration loop, run on its successive clock readings. *)
Fixpoint calibrationLoop (calibEndTime : Q) (polls : list (Q * list Q))
    (rmsSum : Q) (rmsCount : Z) : Q * Z :=
  match polls with
  | [] => (rmsSum, rmsCount)
  | (t, calibData) :: rest =>
      if Js.lt t calibEndTime
      then calibrationLoop calibEndTime rest
             (rmsSum ⊕ rms calibData) (rmsCount + 1)%Z
      else (rmsSum, rmsCount)
  end.

Definition calibrate (start : Q) (polls : list (Q * list Q)) : Q :=
  let calibEndTime := start ⊕ 2000 in
  let '(rmsSum, rmsCount) := calibrationLoop calibEndTime polls 0 0%Z in
  if (0 <? rmsCount)%Z then rmsSum ⊘ inject_Z rmsCount else Double.lit 0.01.

(** The update of [loudPenalty] in one tick. *)
Definition tickPenalty (baseline : Q) (data : list Q) (loudPenalty : Q) : Q :=
  let currentRMS := rms data in
  let loudThreshold := baseline ⊕ Double.lit 0.10 in
  if Js.gt currentRMS loudThreshold
  then loudPenalty ⊕ Js.Math_min (Double.lit 0.03) (currentRMS ⊖ loudThreshold)
  else loudPenalty.

(** The updates of the accumulators in one tick. *)
Definition tickVars (baseline : Q) (inp : TickInput) (v : Vars) : Vars :=
  let loudPenalty' := tickPenalty baseline (rmsData inp) (loudPenalty v) in
  let p := tickProbability (outcome inp) in
  let '(streak', streakBonus') :=
    if Js.ge p (Double.lit 0.6)
    then let st := (streak v + 1)%Z in
         (st, if ((0 <? st)%Z && (Z.rem st 4 =? 0)%Z)%bool
              then (streakBonus v + 1)%Z else streakBonus v)
    else (0%Z, streakBonus v) in
  mkVars (laughProbSum v ⊕ p) (frameCount v + 1)%Z loudPenalty'
         streak' streakBonus' (elapsedTime v + TICK_INTERVAL)%Z.

(** The body of the setInterval callback. *)
Definition gameLoopTick (playerName : string) (inp : TickInput) (s : State)
  : State * list Ui.Call :=
  if negb (isRoundRunning s) then (s, [])
  else
    let log :=
      match outcome inp with
      | Throws err =>
          [Ui.logDebug ("Classification error: " +:+ error_text err)]
      | Yields _ => []
      end in
    let p := tickProbability (outcome inp) in
    let v := tickVars (baselineRMS s) inp (vars s) in
    let ema := EMA_ALPHA ⊗ (p ⊗ 100) ⊕ (1 ⊖ EMA_ALPHA) ⊗ emaLaughProb s in
    let s := mkState (audioClassifier s) (audioOpen s) (gameLoop s)
                     (isRoundRunning s) (baselineRMS s) ema v
                     (localStorage s) in
    let out := log ++
               [Ui.updateMeter "laugh" ema (Ui.toFixed ema 1 "%");
                Ui.updateMeter "joy" (inject_Z (joyRank v))
                               (Ui.toString (joyRank v))] in
    if (ROUND_DURATION <=? elapsedTime v)%Z
    then Ui.andThen (s, out) (stopRound playerName (joyRank v) (tickNow inp))
    else (s, out).

(** [startLaughRound], as in [Laugh] with the calibration above. *)
Definition startLaughRound (inp : StartInput) (s : State)
  : State * list Ui.Call * option JsError :=
  let s := cleanupAudio s in
  match ensureClassifier (classifierFails inp) s with
  | (s, out, Some err) => (s, out, Some err)
  | (s, out, None) =>
      let out := out ++ [Ui.setStatus "Requesting microphone..." "warn"] in
      match microphoneFails inp with
      | Some err => (s, out, Some err)
      | None =>
          let baseline := calibrate (calibStart inp) (calibPolls inp) in
          (mkState (audioClassifier s) true true true baseline 0 freshVars
                   (localStorage s),
           out ++ [Ui.setStatus "Calibrating background noise... (2s)" "warn";
                   Ui.logDebug "Calibration complete.";
                   Ui.setStatus "Go! Laugh for 10 seconds!" "ok"],
           None)
      end
  end.

(** One event of the page, delivered to its handler. *)
Definition step (playerName : string) (a : Action) (s : State)
  : State * list Ui.Call :=
  match a with
  | Tick inp => if gameLoop s then gameLoopTick playerName inp s else (s, [])
  | StopClick now => stopClick playerName now s
  end.

Definition run (playerName : string) (s : State) (acts : list Action)
  : State * list Ui.Call :=
  Ui.runAll (step playerName) s acts.

End WithPlatform.

End Laugh64.

(* ===================================================================== *)
(** ** shake.js                                                            *)
(* ===================================================================== *)

Module Shake.

Local Open Scope Q_scope.

(** [DeviceMotionEventAcceleration] and [DeviceMotionEventRotationRate]:
    every component may be null. *)
Record Acceleration := mkAcc { x : option Q; y : option Q; z : option Q }.
Record RotationRate :=
  mkRot { alpha : option Q; beta : option Q; gamma : option Q }.

(** A devicemotion event, with the reading of performance.now() at the
    time it is handled. *)
Record MotionEvent := mkEvent {
  timeStamp : Q;
  performanceNow : Q;
  acceleration : option Acceleration;
  accelerationIncludingGravity : option Acceleration;
  rotationRate : option RotationRate
}.

(** The numeric conversion of a nullable number: null becomes 0. *)
Definition toNumber (v : option Q) : Q :=
  match v with
  | Some q => q
  | None => 0
  end.

(** [v || 0] on a nullable number. *)
Definition orZero (v : option Q) : Q :=
  match v with
  | Some q => Js.or_else q 0
  | None => 0
  end.

Definition ROUND_DURATION : Q := 10000.
Definition FRAME_INTERVAL : Q := 1000 / 60.

(** The module-level variables, the closure variable [elapsedTime], the
    listener and timer registrations and the score slots of localStorage. *)
Record State := mkState {
  isRoundRunning : bool;
  motionDataAvailable : bool;
  lastTimestamp : Q;
  integratedAccEnergy : Q;
  integratedRotEnergy : Q;
  liveAcceleration : Q;
  liveRotation : Q;
  listening : bool;            (* onDeviceMotion is registered *)
  timerPending : bool;         (* the timeout of [gameLoopId] is pending *)
  elapsedTime : Q;
  localStorage : Core.Storage
}.

(** [const now = event.timeStamp || performance.now()] *)
Definition eventNow (event : MotionEvent) : Q :=
  Js.or_else (timeStamp event) (performanceNow event).

(** [lastTimestamp ? (now - lastTimestamp) / 1000 : 0.016] *)
Definition elapsedDt (lastTimestamp now : Q) : Q :=
  if Js.truthy lastTimestamp then (now - lastTimestamp) / 1000 else 0.016.

(** [if (dt <= 0 || dt > 0.25) dt = 0.016] *)
Definition clampDt (dt : Q) : Q :=
  if (Js.le dt 0 || Js.gt dt 0.25)%bool then 0.016 else dt.

(** The three axes read by the handler. *)
Definition axes (event : MotionEvent) : Q * Q * Q :=
  match acceleration event with
  | Some (mkAcc (Some ax) ay az) => (ax, toNumber ay, toNumber az)
  | _ =>
      match accelerationIncludingGravity event with
      | Some (mkAcc (Some gx) gy gz) => (gx, toNumber gy, toNumber gz - 9.81)
      | _ => (0, 0, 0)
      end
  end.

(** [cleanupMotion] *)
Definition cleanupMotion (s : State) : State :=
  mkState false (motionDataAvailable s) (lastTimestamp s)
          (integratedAccEnergy s) (integratedRotEnergy s)
          (liveAcceleration s) (liveRotation s) false false
          (elapsedTime s) (localStorage s).

(** [stopRound(name, finalScore)]; [now] is the reading of Date.now(). *)
Definition stopRound (name : string) (finalScore : Z) (now : Z) (s : State)
  : State * list Ui.Call :=
  if negb (isRoundRunning s) then (s, [])
  else
    let s := cleanupMotion s in
    let out := [Ui.setStatus "Round finished!" "ok";
                Ui.setButtonStates false false true] in
    let '(store, isNewBest) :=
      Core.saveScore "shake" name finalScore now (localStorage s) in
    let s := mkState (isRoundRunning s) (motionDataAvailable s)
                     (lastTimestamp s) (integratedAccEnergy s)
                     (integratedRotEnergy s) (liveAcceleration s)
                     (liveRotation s) (listening s) (timerPending s)
                     (elapsedTime s) store in
    if isNewBest
    then (s, out ++ [Ui.setStatus "New personal best!" "ok";
                     Ui.triggerConfetti])
    else (s, out).

(** [Math.round(6 * integratedAccEnergy + 2 * integratedRotEnergy)] *)
Definition shakeRank (s : State) : Z :=
  Js.Math_round (6 * integratedAccEnergy s + 2 * integratedRotEnergy s).

(** The body of [gameLoop] (the units of the meter texts are written in
    ASCII). *)
Definition gameLoopFrame (playerName : string) (now : Z) (s : State)
  : State * list Ui.Call :=
  if negb (isRoundRunning s) then (s, [])
  else
    let rank := shakeRank s in
    let out :=
      [Ui.updateMeter "acc" (Core.clamp (liveAcceleration s * 6) 0 100)
                      (Ui.toFixed (liveAcceleration s) 2 " m/s2");
       Ui.updateMeter "rot" (Core.clamp (liveRotation s * 0.4) 0 100)
                      (Ui.toFixed (liveRotation s) 1 " deg/s");
       Ui.updateMeter "shake" (Core.clamp (inject_Z rank / 5) 0 100)
                      (Ui.toString rank)] in
    let elapsed := elapsedTime s + FRAME_INTERVAL in
    let s := mkState (isRoundRunning s) (motionDataAvailable s)
                     (lastTimestamp s) (integratedAccEnergy s)
                     (integratedRotEnergy s) (liveAcceleration s)
                     (liveRotation s) (listening s) (timerPending s)
                     elapsed (localStorage s) in
    if Js.ge elapsed ROUND_DURATION
    then Ui.andThen (s, out) (stopRound playerName rank now)
    else (mkState (isRoundRunning s) (motionDataAvailable s)
                  (lastTimestamp s) (integratedAccEnergy s)
                  (integratedRotEnergy s) (liveAcceleration s)
                  (liveRotation s) (listening s) true
                  (elapsedTime s) (localStorage s), out).

(** The click handler of the stop button. *)
Definition stopClick (playerName : string) (now : Z) (s : State)
  : State * list Ui.Call :=
  stopRound playerName 0 now s.

(** The check scheduled 2000 ms after the start. *)
Definition noDataCheck (s : State) : State * list Ui.Call :=
  if (negb (motionDataAvailable s) && isRoundRunning s)%bool
  then (s, [Ui.setStatus "No motion data detected. (Try on a mobile device)."
                         "warn"])
  else (s, []).

(** What DeviceMotionEvent.requestPermission does, where it exists. *)
Inductive Permission :=
| NotRequired
| Answers (permissionState : string)
| Rejects.

Record StartInput := mkStart {
  permission : Permission;
  isSecureContext : bool;
  startNow : Z                 (* Date.now(), read if the round ends *)
}.

(** The events of the page during a round. *)
Inductive Action :=
| Motion (event : MotionEvent)
| FrameTimer (now : Z)
| NoDataTimer
| StopClick (now : Z).

Section WithPlatform.

(** [Math.hypot] and [Math.PI] *)
Variable Math_hypot : Q -> Q -> Q -> Q.
Variable Math_PI : Q.

(** [onDeviceMotion(event)] *)
Definition onDeviceMotion (event : MotionEvent) (s : State) : State :=
  let now := eventNow event in
  let dt := elapsedDt (lastTimestamp s) now in
  let dt := clampDt dt in
  let '(ax, ay, az) := axes event in
  let liveAcceleration' := Math_hypot ax ay az in
  let liveRotation' :=
    match rotationRate event with
    | Some rot => Math_hypot (orZero (alpha rot)) (orZero (beta rot))
                             (orZero (gamma rot))
    | None => Math_hypot 0 0 0
    end in
  let rotRad := liveRotation' * (Math_PI / 180) in
  mkState (isRoundRunning s) true now
          (integratedAccEnergy s + (liveAcceleration' * liveAcceleration') * dt)
          (integratedRotEnergy s + (rotRad * rotRad) * dt)
          liveAcceleration' liveRotation' (listening s) (timerPending s)
          (elapsedTime s) (localStorage s).

(** [startShakeRound]: the state and the UI calls when the function
    returns or throws, and the message of the thrown error if any. *)
Definition startShakeRound (playerName : string) (inp : StartInput)
    (s : State) : State * list Ui.Call * option string :=
  let s := cleanupMotion s in
  let granted :=
    match permission inp with
    | NotRequired =>
        ([Ui.displayOriginStatus (isSecureContext inp) (Some "not required")],
         true)
    | Answers st =>
        ([Ui.setStatus "Requesting motion access..." "warn";
          Ui.displayOriginStatus (isSecureContext inp) (Some st)],
         String.eqb st "granted")
    | Rejects => ([Ui.setStatus "Requesting motion access..." "warn"], false)
    end in
  let '(out, ok) := granted in
  if negb ok then (s, out, Some "Could not get motion permission.")
  else
    let s := mkState true false 0 0 0 0 0 true (timerPending s) 0
                     (localStorage s) in
    let out := out ++ [Ui.setStatus "Go! Shake your device for 10 seconds!"
                                    "ok"] in
    let '(s, out') := gameLoopFrame playerName (startNow inp) s in
    (s, out ++ out', None).

(** One event of the page, delivered to its handler: a motion event only
    while the listener is registered, the frame timer only while pending. *)
Definition step (playerName : string) (a : Action) (s : State)
  : State * list Ui.Call :=
  match a with
  | Motion event =>
      if listening s then (onDeviceMotion event s, []) else (s, [])
  | FrameTimer now =>
      if timerPending s
      then gameLoopFrame playerName now
             (mkState (isRoundRunning s) (motionDataAvailable s)
                      (lastTimestamp s) (integratedAccEnergy s)
                      (integratedRotEnergy s) (liveAcceleration s)
                      (liveRotation s) (listening s) false
                      (elapsedTime s) (localStorage s))
      else (s, [])
  | NoDataTimer => noDataCheck s
  | StopClick now => stopClick playerName now s
  end.

Definition run (playerName : string) (s : State) (acts : list Action)
  : State * list Ui.Call :=
  Ui.runAll (step playerName) s acts.

End WithPlatform.

End Shake.

(* ===================================================================== *)
(** ** laugh.js, the shake mode in binary64 arithmetic                     *)
(* ===================================================================== *)

(** The functions of [Shake] that compute with numbers, with every
    operation rounded as the engine rounds it.  The records, the events,
    [eventNow], [cleanupMotion], [stopRound], [stopClick] and
    [noDataCheck] do no arithmetic and are those of [Shake]. *)
Module Shake64.

Import Shake.
Local Open Scope Q_scope.

Definition ROUND_DURATION : Q := 10000.
Definition FRAME_INTERVAL : Q := 1000 ⊘ 60.

(** [lastTimestamp ? (now - lastTimestamp) / 1000 : 0.016] *)
Definition elapsedDt (lastTimestamp now : Q) : Q :=
  if Js.truthy lastTimestamp then (now ⊖ lastTimestamp) ⊘ 1000
  else Double.lit 0.016.

(** [if (dt <= 0 || dt > 0.25) dt = 0.016] *)
Definition clampDt (dt : Q) : Q :=
  if (Js.le dt 0 || Js.gt dt 0.25)%bool then Double.lit 0.016 else dt.

(** The three axes read by the handler. *)
Definition axes (event : MotionEvent) : Q * Q * Q :=
  match acceleration event with
  | Some (mkAcc (Some ax) ay az) => (ax, toNumber ay, toNumber az)
  | _ =>
      match accelerationIncludingGravity event with
      | Some (mkAcc (Some gx) gy gz) =>
          (gx, toNumber gy, toNumber gz ⊖ Double.lit 9.81)
      | _ => (0, 0, 0)
      end
  end.

(** [Math.round(6 * integratedAccEnergy + 2 * integratedRotEnergy)] *)
Definition shakeRank (s : State) : Z :=
  Js.Math_round (6 ⊗ integratedAccEnergy s ⊕ 2 ⊗ integratedRotEnergy s).

(** The body of [gameLoop] (the units of the meter texts are written in
    ASCII). *)
Definition gameLoopFrame (playerName : string) (now : Z) (s : State)
  : State * list Ui.Call :=
  if negb (isRoundRunning s) then (s, [])
  else
    let rank := shakeRank s in
    let out :=
      [Ui.updateMeter "acc" (Core.clamp (liveAcceleration s ⊗ 6) 0 100)
                      (Ui.toFixed (liveAcceleration s) 2 " m/s2");
       Ui.updateMeter "rot"
                      (Core.clamp (liveRotation s ⊗ Double.lit 0.4) 0 100)
                      (Ui.toFixed (liveRotation s) 1 " deg/s");
       Ui.updateMeter "shake" (Core.clamp (inject_Z rank ⊘ 5) 0 100)
                      (Ui.toString rank)] in
    let elapsed := elapsedTime s ⊕ FRAME_INTERVAL in
    let s := mkState (isRoundRunning s) (motionDataAvailable s)
                     (lastTimestamp s) (integratedAccEnergy s)
                     (integratedRotEnergy s) (liveAcceleration s)
                     (liveRotation s) (listening s) (timerPending s)
                     elapsed (localStorage s) in
    if Js.ge elapsed ROUND_DURATION
    then Ui.andThen (s, out) (stopRound playerName rank now)
    else (mkState (isRoundRunning s) (motionDataAvailable s)
                  (lastTimestamp s) (integratedAccEnergy s)
                  (integratedRotEnergy s) (liveAcceleration s)
                  (liveRotation s) (listening s) true
                  (elapsedTime s) (localStorage s), out).

Section WithPlatform.

(** [Math.hypot] and [Math.PI] *)
Variable Math_hypot : Q -> Q -> Q -> Q.
Variable Math_PI : Q.

(** [onDeviceMotion(event)] *)
Definition onDeviceMotion (event : MotionEvent) (s : State) : State :=
  let now := eventNow event in
  let dt := elapsedDt (lastTimestamp s) now in
  let dt := clampDt dt in
  let '(ax, ay, az) := axes event in
  let liveAcceleration' := Math_hypot ax ay az in
  let liveRotation' :=
    match rotationRate event with
    | Some rot => Math_hypot (orZero (alpha rot)) (orZero (beta rot))
                             (orZero (gamma rot))
    | None => Math_hypot 0 0 0
    end in
  let rotRad := liveRotation' ⊗ (Math_PI ⊘ 180) in
  mkState (isRoundRunning s) true now
          (integratedAccEnergy s
           ⊕ (liveAcceleration' ⊗ liveAcceleration') ⊗ dt)
          (integratedRotEnergy s ⊕ (rotRad ⊗ rotRad) ⊗ dt)
          liveAcceleration' liveRotation' (listening s) (timerPending s)
          (elapsedTime s) (localStorage s).

(** [startShakeRound], as in [Shake] with the frame above. *)
Definition startShakeRound (playerName : string) (inp : StartInput)
    (s : State) : State * list Ui.Call * option string :=
  let s := cleanupMotion s in
  let granted :=
    match permission inp with
    | NotRequired =>
        ([Ui.displayOriginStatus (isSecureContext inp) (Some "not required")],
         true)
    | Answers st =>
        ([Ui.setStatus "Requesting motion access..." "warn";
          Ui.displayOriginStatus (isSecureContext inp) (Some st)],
         String.eqb st "granted")
    | Rejects => ([Ui.setStatus "Requesting motion access..." "warn"], false)
    end in
  let '(out, ok) := granted in
  if negb ok then (s, out, Some "Could not get motion permission.")
  else
    let s := mkState true false 0 0 0 0 0 true (timerPending s) 0
                     (localStorage s) in
    let out := out ++ [Ui.setStatus "Go! Shake your device for 10 seconds!"
                                    "ok"] in
    let '(s, out') := gameLoopFrame playerName (startNow inp) s in
    (s, out ++ out', None).

(** One event of the page, delivered to its handler. *)
Definition step (playerName : string) (a : Action) (s : State)
  : State * list Ui.Call :=
  match a with
  | Motion event =>
      if listening s then (onDeviceMotion event s, []) else (s, [])
  | FrameTimer now =>
      if timerPending s
      then gameLoopFrame playerName now
             (mkState (isRoundRunning s) (motionDataAvailable s)
                      (lastTimestamp s) (integratedAccEnergy s)
                      (integratedRotEnergy s) (liveAcceleration s)
                      (liveRotation s) (listening s) false
                      (elapsedTime s) (localStorage s))
      else (s, [])
  | NoDataTimer => noDataCheck s
  | StopClick now => stopClick playerName now s
  end.

Definition run (playerName : string) (s : State) (acts : list Action)
  : State * list Ui.Call :=
  Ui.runAll (step playerName) s acts.

End WithPlatform.

End Shake64.

(* ===================================================================== *)
(** ** The start buttons of the two pages                                  *)
(* ===================================================================== *)

(** The click handlers that [initLaughPage] and [initShakePage] install on
    the start button.  Besides the UI layer they write to the name status
    line and raise an alert. *)
Module Page.

Inductive Call :=
| ui (call : Ui.Call)
| alert (message : string)
| nameStatus (textContent className : string).

(** [error.message || fallback] *)
Definition messageOr (message fallback : string) : string :=
  if String.eqb message EmptyString then fallback else message.

(** The handler of the shake page; [nameInput] is the value of the name
    field.  The third component is the player name the started round is
    bound to, if a round started. *)
Definition shakeStartClick (nameInput : string) (start : Shake.StartInput)
    (s : Shake.State) : Shake.State * list Call * option string :=
  let playerName := Core.sanitizeName nameInput in
  if String.eqb playerName EmptyString
  then (s, [nameStatus "Please save a valid name first."
                       "text-sm text-red-600"], None)
  else
    match Shake.startShakeRound playerName start s with
    | (s', out, None) =>
        (s', map ui (Ui.setButtonStates false true false :: out),
         Some playerName)
    | (s', out, Some message) =>
        (Shake.cleanupMotion s',
         map ui (Ui.setButtonStates false true false :: out
                 ++ [Ui.setStatus
                       (messageOr message "Could not start motion sensors.")
                       "bad";
                     Ui.setButtonStates true false false]),
         None)
    end.

Section WithPlatform.

(** [Math.sqrt] *)
Variable Math_sqrt : Q -> Q.

(** The handler of the laugh page; [isSecureContext] is the result of
    [core.isSecureContext()]. *)
Definition laughStartClick (isSecureContext : bool) (nameInput : string)
    (start : Laugh.StartInput) (s : Laugh.State)
  : Laugh.State * list Call * option string :=
  if negb isSecureContext
  then (s, [alert "This feature requires a secure connection (HTTPS) or localhost."],
        None)
  else
    let playerName := Core.sanitizeName nameInput in
    if String.eqb playerName EmptyString
    then (s, [nameStatus "Please save a valid name first."
                         "text-sm text-red-600"], None)
    else
      match Laugh.startLaughRound Math_sqrt start s with
      | (s', out, None) =>
          (s', map ui (Ui.setButtonStates false true false :: out),
           Some playerName)
      | (s', out, Some err) =>
          (Laugh.cleanupAudio s',
           map ui (Ui.setButtonStates false true false :: out
                   ++ [Ui.setStatus
                         (messageOr (Laugh.message err)
                            "Could not start microphone.")
                         "bad";
                       Ui.setButtonStates true false false]),
           None)
      end.

End WithPlatform.

End Page.

(* ===================================================================== *)
(** ** Vocabulary of the properties                                        *)
(* ===================================================================== *)

Module Props.

(** *** Escaped HTML *)

Definition entities : list string :=
  ["&amp;"; "&lt;"; "&gt;"; "&quot;"; "&#39;"].

(** The suffix of [s] that starts at index [i]. *)
Fixpoint suffix (i : nat) (s : string) : string :=
  match i, s with
  | O, _ => s
  | S i', String _ r => suffix i' r
  | S _, EmptyString => EmptyString
  end.

(** No character of [out] is a raw tag or attribute delimiter, and an
    ampersand only occurs as the first character of an entity. *)
Definition HtmlInert (out : string) : Prop :=
  forall (i : nat) (c : ascii),
    String.get i out = Some c ->
    c <> "<"%char /\ c <> ">"%char /\ c <> "034"%char /\ c <> "'"%char /\
    (c = "&"%char ->
     exists e, In e entities /\ Js.startsWith (suffix i out) e = true).

(** The same check as a program. *)
Fixpoint inertb (out : string) : bool :=
  match out with
  | EmptyString => true
  | String c r =>
      if (Ascii.eqb c "<" || Ascii.eqb c ">" || Ascii.eqb c "034"
          || Ascii.eqb c "'")%bool then false
      else if Ascii.eqb c "&"
           then existsb (Js.startsWith out) entities && inertb r
           else inertb r
  end.

(** *** Leaderboards *)

(** [a] ranks at least as high as [b]. *)
Definition above (a b : Core.ScoreEntry) : Prop :=
  Core.score b <= Core.score a.

(** Scores do not increase along the indices. *)
Definition NonIncreasing (l : list Core.ScoreEntry) : Prop :=
  forall (i j : nat) (a b : Core.ScoreEntry),
    (i <= j)%nat -> l !! i = Some a -> l !! j = Some b ->
    Core.score b <= Core.score a.

Definition Leaderboard (l : list Core.ScoreEntry) : Prop :=
  (length l <= 10)%nat /\ NonIncreasing l.

(** *** Sums and means of signals *)

Definition Qsum (l : list Q) : Q := fold_right Qplus 0%Q l.



(** The inputs of the timer ticks among the events of a round. *)
Definition ticks (inputs : list Laugh.TickInput) : list Laugh.Action :=
  map Laugh.Tick inputs.

(** The integers written to a meter, oldest first. *)
Fixpoint integers (texts : list Ui.Text) : list Z :=
  match texts with
  | [] => []
  | Ui.toString n :: rest => n :: integers rest
  | Ui.toFixed _ _ _ :: rest => integers rest
  end.

(** Integers do not decrease along the indices. *)
Definition NonDecreasing (l : list Z) : Prop :=
  forall (i j : nat) (a b : Z),
    (i <= j)%nat -> l !! i = Some a -> l !! j = Some b -> a <= b.

(** What a round that started on the storage [before] has persisted: nothing
    while it is running, and the one write of a single [saveScore] once it
    is over. *)
Definition PersistedOnce (mode name : string) (before : Core.Storage)
    (running : bool) (after : Core.Storage) : Prop :=
  if running then after = before
  else exists (finalScore now : Z),
      after = (Core.saveScore mode name finalScore now before).1.

(** The state [s] of a round started in [s0], after the ticks [inputs],
    while the round is still running. *)
Record Running (Math_sqrt : Q -> Q) (s0 s : Laugh.State)
    (inputs : list Laugh.TickInput) : Prop := {
  running_flag : Laugh.isRoundRunning s = true;
  running_timer : Laugh.gameLoop s = true;
  running_baseline : Laugh.baselineRMS s = Laugh.baselineRMS s0;
  running_store : Laugh.localStorage s = Laugh.localStorage s0;
  running_sum :
    (Laugh.laughProbSum (Laugh.vars s)
     == Qsum (map (fun i => Laugh.tickProbability (Laugh.outcome i)) inputs))%Q;
  running_count :
    Laugh.frameCount (Laugh.vars s) = Z.of_nat (length inputs);
  running_penalty :
    (Laugh.loudPenalty (Laugh.vars s)
     == Qsum (map (fun i => Laugh.tickPenalty Math_sqrt
                              (Laugh.baselineRMS s0) (Laugh.rmsData i))
                  inputs))%Q;
  running_elapsed :
    Laugh.elapsedTime (Laugh.vars s) = (250 * Z.of_nat (length inputs))%Z
}.

(** *** A platform to run examples on *)

(** A square root that is exact on the squares of rationals and rounds
    down to six decimals elsewhere, and the Euclidean norm and the
    constant built on it; they stand for Math.sqrt, Math.hypot and Math.PI
    where an example needs to run. *)
Definition sample_sqrt (q : Q) : Q :=
  let n := Qnum q * Zpos (Qden q) in
  Qred (inject_Z (Z.sqrt (n * 10 ^ 12))
        / (inject_Z (Zpos (Qden q)) * inject_Z (10 ^ 6)))%Q.

Definition sample_hypot (x y z : Q) : Q :=
  sample_sqrt (x * x + y * y + z * z)%Q.

Definition sample_PI : Q := 3.141592653589793%Q.

(** *** Names *)

(** A name of 1 to 16 characters of the class [A-Za-z0-9_ ]. *)
Definition ValidName (s : string) : Prop :=
  (1 <= String.length s <= 16)%nat
  /\ forall c : ascii, In c (list_ascii_of_string s) -> Core.nameChar c = true.

(** A sequence of bytes that [Core.stripWhite] leaves alone: it does not
    start with the bytes of a white space character. *)
Definition unstripped (back : bool) (l : list ascii) : bool :=
  match l with
  | [] => true
  | a :: r =>
      negb (Core.white1 a)
      && match r with
         | [] => true
         | b :: r2 =>
             negb (if back then Core.white2 b a else Core.white2 a b)
             && match r2 with
                | [] => true
                | c :: r3 =>
                    negb (if back then Core.white3 c b a
                          else Core.white3 a b c)
                end
         end
  end.

(** *** Ranking *)

(** The entries of [l] that rank at least as high as a new entry of score
    [n], and those that rank below it. *)
Definition atLeast (n : Z) (l : list Core.ScoreEntry) : list Core.ScoreEntry :=
  List.filter (fun e => n <=? Core.score e) l.

Definition below (n : Z) (l : list Core.ScoreEntry) : list Core.ScoreEntry :=
  List.filter (fun e => Core.score e <? n) l.

(** *** Bounds of a laugh round *)

(** What the accumulators of a round satisfy at every moment. *)
Record Bounded (s : Laugh.State) : Prop := {
  bounded_sum :
    (0 <= Laugh.laughProbSum (Laugh.vars s)
     /\ Laugh.laughProbSum (Laugh.vars s)
        <= inject_Z (Laugh.frameCount (Laugh.vars s)))%Q;
  bounded_count : 0 <= Laugh.frameCount (Laugh.vars s) <= 40;
  bounded_running :
    Laugh.isRoundRunning s = true -> Laugh.frameCount (Laugh.vars s) < 40;
  bounded_elapsed :
    Laugh.elapsedTime (Laugh.vars s) = 250 * Laugh.frameCount (Laugh.vars s);
  bounded_penalty :
    (0 <= Laugh.loudPenalty (Laugh.vars s)
     /\ Laugh.loudPenalty (Laugh.vars s)
        <= 0.03 * inject_Z (Laugh.frameCount (Laugh.vars s)))%Q;
  bounded_streak : 0 <= Laugh.streak (Laugh.vars s);
  bounded_bonus :
    0 <= Laugh.streakBonus (Laugh.vars s)
    /\ 4 * Laugh.streakBonus (Laugh.vars s)
         + Z.rem (Laugh.streak (Laugh.vars s)) 4
       <= Laugh.frameCount (Laugh.vars s);
  bounded_ema : (0 <= Laugh.emaLaughProb s /\ Laugh.emaLaughProb s <= 100)%Q
}.

(** *** Binary64 accumulators *)

(** [sum / count] as the tick computes the mean of the numbers added to
    [laughProbSum] so far. *)
Definition mean64 (l : list Q) : Q :=
  Double.sum l ⊘ inject_Z (Z.of_nat (length l)).

(** [loudPenalty] after the ticks [inputs] of a round, from 0. *)
Definition loudPenalties (Math_sqrt : Q -> Q) (baseline : Q)
    (inputs : list Laugh.TickInput) : Q :=
  fold_left (fun pen i =>
               Laugh64.tickPenalty Math_sqrt baseline (Laugh.rmsData i) pen)
            inputs 0%Q.

(** The state [s] of a round started in [s0], after the ticks [inputs],
    while the round is still running. *)
Record Running64 (Math_sqrt : Q -> Q) (s0 s : Laugh.State)
    (inputs : list Laugh.TickInput) : Prop := {
  running64_flag : Laugh.isRoundRunning s = true;
  running64_timer : Laugh.gameLoop s = true;
  running64_baseline : Laugh.baselineRMS s = Laugh.baselineRMS s0;
  running64_store : Laugh.localStorage s = Laugh.localStorage s0;
  running64_sum :
    Laugh.laughProbSum (Laugh.vars s)
    = Double.sum
        (map (fun i => Laugh64.tickProbability (Laugh.outcome i)) inputs);
  running64_count :
    Laugh.frameCount (Laugh.vars s) = Z.of_nat (length inputs);
  running64_penalty :
    Laugh.loudPenalty (Laugh.vars s)
    = loudPenalties Math_sqrt (Laugh.baselineRMS s0) inputs;
  running64_elapsed :
    Laugh.elapsedTime (Laugh.vars s) = (250 * Z.of_nat (length inputs))%Z
}.

(** [loudPenalty] after [n] ticks that each add the cap of 0.03. *)
Definition capped (n : nat) : Q := Double.sum (repeat (Double.lit 0.03) n).

(** What the counters and the penalty of a round satisfy at every
    moment. *)
Record Bounded64 (s : Laugh.State) : Prop := {
  bounded64_count : 0 <= Laugh.frameCount (Laugh.vars s) <= 40;
  bounded64_running :
    Laugh.isRoundRunning s = true -> Laugh.frameCount (Laugh.vars s) < 40;
  bounded64_elapsed :
    Laugh.elapsedTime (Laugh.vars s) = 250 * Laugh.frameCount (Laugh.vars s);
  bounded64_penalty :
    (0 <= Laugh.loudPenalty (Laugh.vars s)
     /\ Laugh.loudPenalty (Laugh.vars s)
        <= capped (Z.to_nat (Laugh.frameCount (Laugh.vars s))))%Q
}.

End Props.

(* ===================================================================== *)
(** ** Sample rounds                                                       *)
(* ===================================================================== *)

Module Samples.

Local Open Scope Q_scope.

(** *** Laugh mode *)

Definition laugh_idle : Laugh.State :=
  Laugh.mkState false false false false 0 0 Laugh.freshVars ∅.

(** Two calibration samples of RMS 0.01, then the clock passes the end. *)
Definition laugh_start : Laugh.StartInput :=
  Laugh.mkStart None None 0
    [(0, [0.01; -0.01]); (50, [0.01; -0.01]); (2000, [])].

Definition laugh_started : Laugh.State :=
  (Laugh.startLaughRound Props.sample_sqrt laugh_start laugh_idle).1.1.

Definition laughing : Laugh.TickInput :=
  Laugh.mkTick [0; 0]
    (Laugh.Yields (Some [Laugh.mkCategory "Speech" 0.2;
                         Laugh.mkCategory "Laughter" 1]))
    1762041600000.

Definition silent : Laugh.TickInput :=
  Laugh.mkTick [0; 0]
    (Laugh.Yields (Some [Laugh.mkCategory "Speech" 0.9]))
    1762041600000.

Definition busy : Laugh.JsError :=
  Laugh.mkError "model busy" "Error: model busy".

(** The first 39 ticks of a round: twenty ticks of laughter in all, twelve
    of them in a row. *)
Definition round39 : list Laugh.TickInput :=
  repeat laughing 12 ++ [silent]
  ++ [laughing; laughing; laughing; silent]
  ++ [laughing; laughing; laughing; silent]
  ++ [laughing; laughing; silent]
  ++ repeat silent 15.

(** *** Shake mode *)

Definition shake_idle : Shake.State :=
  Shake.mkState false false 0 0 0 0 0 false false 0 ∅.

Definition shake_start : Shake.StartInput :=
  Shake.mkStart Shake.NotRequired true 1762041600000.

Definition shake_started : Shake.State :=
  (Shake.startShakeRound "Ann" shake_start shake_idle).1.1.

(** An acceleration of magnitude 5 and no rotation, at time [t] ms. *)
Definition jolt (t : Q) : Shake.MotionEvent :=
  Shake.mkEvent t t
    (Some (Shake.mkAcc (Some 3) (Some 4) (Some 0))) None None.

(** A round whose last event was at 1000 ms. *)
Definition shaking : Shake.State :=
  Shake.onDeviceMotion Props.sample_hypot Props.sample_PI (jolt 1000)
    shake_started.

(** A running round with the energies of the worked example. *)
Definition shaken : Shake.State :=
  Shake.mkState true true 5000 10 5 0 0 true true 5000 ∅.

(** *** The score store *)

Definition two_scores : Core.Storage :=
  {[ "scores_laugh" := Core.Entries [Core.mkEntry "Ann" 56 1762041600000;
                                     Core.mkEntry "Bob" 40 1762041700000] ]}.

(** A full shake leaderboard, with the scores 100, 90, ..., 10. *)
Definition full_board : Core.Storage :=
  {[ "scores_shake" :=
       Core.Entries
         (map (fun k : Z => Core.mkEntry "Ann" (10 * k)%Z 1762041600000)
              [10; 9; 8; 7; 6; 5; 4; 3; 2; 1]%Z) ]}.

(** A laugh slot that JSON.parse rejects. *)
Definition corrupt_board : Core.Storage :=
  {[ "scores_laugh" := Core.Unparsable ]}.

(** *** Rounds in binary64 arithmetic *)

Definition laugh_started64 : Laugh.State :=
  (Laugh64.startLaughRound Props.sample_sqrt laugh_start laugh_idle).1.1.

(** Forty ticks, 23 of them of laughter and never four in a row. *)
Definition round_23_of_40 : list Laugh.TickInput :=
  concat (repeat [laughing; laughing; laughing; silent] 5)
  ++ concat (repeat [laughing; silent] 8)
  ++ repeat silent 4.

(** A tick without laughter whose frame has the RMS 0.5. *)
Definition loud : Laugh.TickInput :=
  Laugh.mkTick [0.5; -0.5] (Laugh.Yields (Some [])) 1762041600000.

(** A running round whose acceleration energy is the double written
    0.08333333333333333. *)
Definition twelfth : Shake.State :=
  Shake.mkState true true 5000 (Double.lit 0.08333333333333333) 0 0 0
                true true 5000 ∅.

Definition shake_started64 : Shake.State :=
  (Shake64.startShakeRound "Ann" shake_start shake_idle).1.1.

End Samples.

(* ===================================================================== *)
(** * Properties                                                           *)
(* ===================================================================== *)

(** ** escapeHtml *)

Example escapeHtml_tag :
  Core.escapeHtml "<a href='x'>Tom & Jerry</a>"
  = "&lt;a href=&#39;x&#39;&gt;Tom &amp; Jerry&lt;/a&gt;".
Proof. reflexivity. Qed.

Lemma inertb_sound (out : string) :
  Props.inertb out = true -> Props.HtmlInert out.
Proof.
  induction out as [|a r IH]; intros Hb i c Hget.
  - destruct i; discriminate.
  - cbn [Props.inertb] in Hb.
    destruct (Ascii.eqb a "<") eqn:E1; [discriminate|].
    destruct (Ascii.eqb a ">") eqn:E2; [discriminate|].
    destruct (Ascii.eqb a "034") eqn:E3; [discriminate|].
    destruct (Ascii.eqb a "'") eqn:E4; [discriminate|].
    cbn [orb] in Hb.
    apply Ascii.eqb_neq in E1, E2, E3, E4.
    destruct i as [|i].
    + simpl in Hget. injection Hget as <-.
      repeat split; try assumption.
      intros ->. rewrite Ascii.eqb_refl in Hb.
      apply andb_true_iff in Hb as [Hex _].
      apply existsb_exists in Hex as (e & He & Hp).
      exists e. split; assumption.
    + simpl in Hget.
      assert (Hr : Props.inertb r = true).
      { destruct (Ascii.eqb a "&"); [|assumption].
        apply andb_true_iff in Hb as [_ Hb]. exact Hb. }
      exact (IH Hr i c Hget).
Qed.

Lemma inertb_entity (e r : string) :
  In e Props.entities ->
  Props.inertb (e +:+ r) = Props.inertb r.
Proof.
  intros He. unfold Props.entities in He. simpl in He.
  destruct He as [<-|[<-|[<-|[<-|[<-|[]]]]]]; reflexivity.
Qed.

Lemma entity_cases (c : ascii) :
  match Core.entity c with
  | Some e => In e Props.entities
  | None => c <> "<"%char /\ c <> ">"%char /\ c <> "034"%char /\ c <> "'"%char /\ c <> "&"%char
  end.
Proof.
  unfold Core.entity, Props.entities.
  destruct (Ascii.eqb c "&") eqn:E0; [simpl; tauto|].
  destruct (Ascii.eqb c "<") eqn:E1; [simpl; tauto|].
  destruct (Ascii.eqb c ">") eqn:E2; [simpl; tauto|].
  destruct (Ascii.eqb c "034") eqn:E3; [simpl; tauto|].
  destruct (Ascii.eqb c "'") eqn:E4; [simpl; tauto|].
  apply Ascii.eqb_neq in E0, E1, E2, E3, E4. tauto.
Qed.

Lemma inertb_escapeHtml (str : string) :
  Props.inertb (Core.escapeHtml str) = true.
Proof.
  induction str as [|c r IH]; [reflexivity|].
  cbn [Core.escapeHtml].
  pose proof (entity_cases c) as Hc.
  destruct (Core.entity c) as [e|].
  - rewrite inertb_entity; assumption.
  - destruct Hc as (H1 & H2 & H3 & H4 & H0).
    apply Ascii.eqb_neq in H0, H1, H2, H3, H4.
    cbn [Props.inertb]. rewrite H0, H1, H2, H3, H4. exact IH.
Qed.

(** C10.  For every input string, the output of [escapeHtml] contains no
    raw [<], [>], double quote or single quote, and every [&] in it is the
    first character of one of the five entities. *)
Theorem escapeHtml_output_inert (str : string) :
  Props.HtmlInert (Core.escapeHtml str).
Proof. apply inertb_sound, inertb_escapeHtml. Qed.

(** ** saveScore *)

Lemma or_zero_id (x : Z) : Core.or_zero x = x.
Proof. unfold Core.or_zero. destruct (Z.eqb_spec x 0); congruence. Qed.

Lemma by_score_desc_le (a b : Core.ScoreEntry) :
  Core.by_score_desc a b <= 0 <-> Props.above a b.
Proof. unfold Core.by_score_desc, Props.above. rewrite !or_zero_id. lia. Qed.

Section InsertionSort.
Context {A : Type} (cmp : A -> A -> Z).

Lemma Forall_sort_insert (P : A -> Prop) (x : A) (l : list A) :
  P x -> Forall P l -> Forall P (Js.sort_insert cmp x l).
Proof.
  intros Hx Hl. induction Hl as [|y r Hy Hr IH]; simpl.
  - constructor; [assumption|constructor].
  - destruct (cmp x y <=? 0); repeat constructor; assumption.
Qed.

Lemma length_sort_insert (x : A) (l : list A) :
  length (Js.sort_insert cmp x l) = S (length l).
Proof.
  induction l as [|y r IH]; simpl; [reflexivity|].
  destruct (cmp x y <=? 0); simpl; congruence.
Qed.

Lemma length_sort (l : list A) : length (Js.sort cmp l) = length l.
Proof.
  unfold Js.sort. induction l as [|y r IH]; [reflexivity|].
  cbn [foldr]. rewrite length_sort_insert. cbn [length]. f_equal. exact IH.
Qed.
End InsertionSort.

Lemma sort_insert_sorted (x : Core.ScoreEntry) (l : list Core.ScoreEntry) :
  StronglySorted Props.above l ->
  StronglySorted Props.above (Js.sort_insert Core.by_score_desc x l).
Proof.
  induction 1 as [|y r Hr IH Hy]; simpl.
  - repeat constructor.
  - destruct (Z.leb_spec (Core.by_score_desc x y) 0) as [Hle|Hgt].
    + apply by_score_desc_le in Hle.
      constructor; [constructor; assumption|].
      constructor; [assumption|].
      eapply Forall_impl; [exact Hy|]. unfold Props.above in *. intros; lia.
    + constructor; [assumption|].
      apply Forall_sort_insert; [|assumption].
      unfold Props.above. unfold Core.by_score_desc in Hgt.
      rewrite !or_zero_id in Hgt. lia.
Qed.

Lemma sort_sorted (l : list Core.ScoreEntry) :
  StronglySorted Props.above (Js.sort Core.by_score_desc l).
Proof.
  induction l as [|x r IH]; simpl; [constructor|].
  apply sort_insert_sorted, IH.
Qed.

Lemma take_sorted (n : nat) (l : list Core.ScoreEntry) :
  StronglySorted Props.above l -> StronglySorted Props.above (take n l).
Proof.
  intros H. revert n. induction H as [|y r Hr IH Hy]; intros [|n]; simpl;
    try constructor.
  - apply IH.
  - apply Forall_take. assumption.
Qed.

Lemma sorted_NonIncreasing (l : list Core.ScoreEntry) :
  StronglySorted Props.above l -> Props.NonIncreasing l.
Proof.
  induction 1 as [|y r Hr IH Hy]; intros i j a b Hij Ha Hb.
  - destruct i; discriminate.
  - destruct i as [|i], j as [|j]; simpl in Ha, Hb.
    + injection Ha as <-. injection Hb as <-. lia.
    + injection Ha as <-.
      rewrite Forall_forall in Hy. apply Hy.
      eapply list_elem_of_lookup_2. exact Hb.
    + lia.
    + eapply IH; [|exact Ha|exact Hb]. lia.
Qed.

Lemma top10_Leaderboard (l : list Core.ScoreEntry) :
  Props.Leaderboard (take 10 (Js.sort Core.by_score_desc l)).
Proof.
  split.
  - rewrite length_take. lia.
  - apply sorted_NonIncreasing, take_sorted, sort_sorted.
Qed.

Lemma loadScores_saveScore_same (mode name : string) (score now : Z) (ls : Core.Storage) :
  Core.loadScores mode (Core.saveScore mode name score now ls).1
  = take 10 (Js.sort Core.by_score_desc
               (Core.loadScores mode ls ++ [Core.mkEntry name score now])).
Proof.
  unfold Core.saveScore. cbn [fst].
  unfold Core.loadScores at 1. rewrite lookup_insert_eq. reflexivity.
Qed.

Lemma loadScores_saveScore (mode mode' name : string) (score now : Z) (ls : Core.Storage) :
  Core.loadScores mode' (Core.saveScore mode name score now ls).1
  = if decide (Core.score_key mode = Core.score_key mode')
    then take 10 (Js.sort Core.by_score_desc
               (Core.loadScores mode ls ++ [Core.mkEntry name score now]))
    else Core.loadScores mode' ls.
Proof.
  destruct (decide _) as [Heq|Hne].
  - rewrite <- loadScores_saveScore_same. unfold Core.loadScores. rewrite Heq. reflexivity.
  - unfold Core.saveScore. cbn [fst]. unfold Core.loadScores at 1.
    rewrite lookup_insert_ne by assumption. reflexivity.
Qed.

(** C3.  When every stored leaderboard has at most 10 entries with
    scores that do not increase along the indices, so does every stored
    leaderboard after a [saveScore] write. *)
Theorem saveScore_keeps_leaderboards (mode name : string) (score now : Z) (ls : Core.Storage) :
  (forall m, Props.Leaderboard (Core.loadScores m ls)) ->
  forall m, Props.Leaderboard (Core.loadScores m (Core.saveScore mode name score now ls).1).
Proof.
  intros Hinv m. rewrite loadScores_saveScore.
  destruct (decide _); [apply top10_Leaderboard|apply Hinv].
Qed.

(** C2 (amended).  [saveScore] reports a new personal best exactly when
    the score is strictly greater than the score of the first entry of the
    leaderboard read before the write, or, when that leaderboard is empty,
    strictly greater than 0; so a score equal to the stored top score does
    not report one. *)
Theorem saveScore_reports_new_best (mode name : string) (score now : Z) (ls : Core.Storage) :
  (Core.saveScore mode name score now ls).2 = true <->
  match Core.loadScores mode ls with
  | top :: _ => Core.score top < score
  | [] => 0 < score
  end.
Proof.
  unfold Core.saveScore. cbn [snd].
  destruct (Core.loadScores mode ls); apply Z.ltb_lt.
Qed.

(** On an empty leaderboard a score of 0 is not reported as a personal
    best. *)
Lemma saveScore_empty_board_zero_score :
  Core.loadScores "laugh" ∅ = []
  /\ (Core.saveScore "laugh" "Ann" 0 1762041600000 ∅).2 = false.
Proof. split; reflexivity. Qed.

Lemma saveScore_keeps_leaderboards_witness :
  Props.Leaderboard
    (Core.loadScores "laugh"
       (Core.saveScore "laugh" "Cy" 70 1762041800000 Samples.two_scores).1).
Proof.
  apply (saveScore_keeps_leaderboards "laugh" "Cy" 70 1762041800000
           Samples.two_scores).
  intros m. unfold Core.loadScores, Core.score_key, Samples.two_scores.
  destruct (String.eqb m "laugh").
  - rewrite lookup_singleton_eq. split; [cbn; lia|].
    apply sorted_NonIncreasing. repeat constructor. unfold Props.above. cbn. lia.
  - rewrite lookup_singleton_ne by discriminate. split; [cbn; lia|].
    apply sorted_NonIncreasing. constructor.
Defined.

Example saveScore_third_entry :
  Core.loadScores "laugh"
    (Core.saveScore "laugh" "Cy" 56 1762041800000 Samples.two_scores).1
  = [Core.mkEntry "Ann" 56 1762041600000;
     Core.mkEntry "Cy" 56 1762041800000;
     Core.mkEntry "Bob" 40 1762041700000]
  /\ (Core.saveScore "laugh" "Cy" 56 1762041800000 Samples.two_scores).2
     = false.
Proof. split; reflexivity. Qed.

(** ** Numbers *)

Lemma Js_le_true (x y : Q) : Js.le x y = true <-> (x <= y)%Q.
Proof. apply Qle_bool_iff. Qed.

Lemma Js_le_false (x y : Q) : Js.le x y = false <-> (y < x)%Q.
Proof.
  unfold Js.le. split; intros H.
  - apply Qnot_le_lt. intros Hle. apply Qle_bool_iff in Hle. congruence.
  - destruct (Qle_bool x y) eqn:E; [|reflexivity].
    apply Qle_bool_iff in E. lra.
Qed.

Lemma Js_gt_true (x y : Q) : Js.gt x y = true <-> (y < x)%Q.
Proof.
  unfold Js.gt, Js.lt. rewrite negb_true_iff. apply Js_le_false.
Qed.

Lemma Js_gt_false (x y : Q) : Js.gt x y = false <-> (x <= y)%Q.
Proof.
  unfold Js.gt, Js.lt. rewrite negb_false_iff. apply Js_le_true.
Qed.

Lemma Math_max_compat (x x' y y' : Q) :
  (x == x')%Q -> (y == y')%Q -> (Js.Math_max x y == Js.Math_max x' y')%Q.
Proof.
  intros Hx Hy. unfold Js.Math_max, Js.le.
  destruct (Qle_bool x y) eqn:E, (Qle_bool x' y') eqn:E'; try assumption.
  - apply Qle_bool_iff in E. rewrite Hx, Hy in E. apply Qle_bool_iff in E. congruence.
  - apply Qle_bool_iff in E'. rewrite <- Hx, <- Hy in E'. apply Qle_bool_iff in E'. congruence.
Qed.

Lemma Math_round_compat (x y : Q) :
  (x == y)%Q -> Js.Math_round x = Js.Math_round y.
Proof. intros H. unfold Js.Math_round. rewrite H. reflexivity. Qed.

Lemma Math_round_spec (x : Q) :
  (inject_Z (Js.Math_round x) - (1 # 2) <= x
   /\ x < inject_Z (Js.Math_round x) + (1 # 2))%Q.
Proof.
  unfold Js.Math_round.
  pose proof (Qfloor_le (x + (1 # 2))) as H1.
  pose proof (Qlt_floor (x + (1 # 2))) as H2.
  rewrite inject_Z_plus in H2. change (inject_Z 1) with 1%Q in H2.
  split; lra.
Qed.

Lemma Math_round_mono (x y : Q) :
  (x <= y)%Q -> Js.Math_round x <= Js.Math_round y.
Proof. intros H. apply Qfloor_resp_le. lra. Qed.

Lemma Qsum_snoc (l : list Q) (x : Q) :
  (Props.Qsum (l ++ [x]) == Props.Qsum l + x)%Q.
Proof.
  unfold Props.Qsum. induction l as [|y r IH]; simpl; [ring|].
  rewrite IH. ring.
Qed.

(** ** Traces of UI calls *)

Section UiRun.
Context {S A : Type} (handler : A -> S -> S * list Ui.Call).

Lemma runAll_nil (s : S) : Ui.runAll handler s [] = (s, []).
Proof. reflexivity. Qed.

Lemma runAll_snoc (s : S) (acts : list A) (a : A) :
  Ui.runAll handler s (acts ++ [a])
  = Ui.andThen (Ui.runAll handler s acts) (handler a).
Proof. unfold Ui.runAll. rewrite fold_left_app. reflexivity. Qed.
End UiRun.

Lemma shown_app (name : string) (t1 t2 : list Ui.Call) :
  Ui.shown name (t1 ++ t2) = Ui.shown name t1 ++ Ui.shown name t2.
Proof.
  induction t1 as [|c r IH]; [reflexivity|].
  destruct c; simpl; try exact IH.
  destruct (String.eqb name0 name); simpl; congruence.
Qed.

Lemma andThen_pair {S : Type} (s : S) (out : list Ui.Call)
    (f : S -> S * list Ui.Call) :
  Ui.andThen (s, out) f = ((f s).1, out ++ (f s).2).
Proof. unfold Ui.andThen. destruct (f s). reflexivity. Qed.

Lemma integers_app (l1 l2 : list Ui.Text) :
  Props.integers (l1 ++ l2) = Props.integers l1 ++ Props.integers l2.
Proof.
  induction l1 as [|t r IH]; [reflexivity|].
  destruct t; simpl; congruence.
Qed.

Lemma sorted_NonDecreasing (l : list Z) :
  StronglySorted Z.le l -> Props.NonDecreasing l.
Proof.
  induction 1 as [|y r Hr IH Hy]; intros i j a b Hij Ha Hb.
  - destruct i; discriminate.
  - destruct i as [|i], j as [|j]; simpl in Ha, Hb.
    + injection Ha as <-. injection Hb as <-. lia.
    + injection Ha as <-.
      rewrite Forall_forall in Hy. apply Hy.
      eapply list_elem_of_lookup_2. exact Hb.
    + lia.
    + eapply IH; [|exact Ha|exact Hb]. lia.
Qed.

(** ** Laugh mode: calibration *)

Section Calibration.
Variable Math_sqrt : Q -> Q.
Local Open Scope Q_scope.


End Calibration.

Example calibrate_two_samples :
  (Laugh.calibrate Props.sample_sqrt 0
     [(0, [0.01; -0.01]); (50, [0.03; -0.03]); (2000, [])] == 0.02)%Q.
Proof. vm_compute. reflexivity. Qed.

Example calibrate_starved :
  Laugh.calibrate Props.sample_sqrt 0 [(2000%Q, [0.5%Q])] = 0.01%Q.
Proof. reflexivity. Qed.

(** ** Laugh mode: the scoring tick *)

Section LaughInvariant.
Variable Math_sqrt : Q -> Q.
Variable playerName : string.
Local Open Scope Q_scope.

Lemma startLaughRound_started (inp : Laugh.StartInput) (s s0 : Laugh.State)
    (out : list Ui.Call) :
  Laugh.startLaughRound Math_sqrt inp s = (s0, out, None) ->
  Laugh.isRoundRunning s0 = true /\ Laugh.gameLoop s0 = true
  /\ Laugh.vars s0 = Laugh.freshVars
  /\ Laugh.localStorage s0 = Laugh.localStorage s.
Proof.
  unfold Laugh.startLaughRound, Laugh.ensureClassifier.
  cbn [Laugh.cleanupAudio Laugh.audioClassifier].
  destruct (Laugh.audioClassifier s);
    destruct (Laugh.classifierFails inp);
    destruct (Laugh.microphoneFails inp); intros H;
    try discriminate; injection H as <- _; cbn; auto.
Qed.

Lemma tickVars_sum b inp v :
  Laugh.laughProbSum (Laugh.tickVars Math_sqrt b inp v)
  = Laugh.laughProbSum v + Laugh.tickProbability (Laugh.outcome inp).
Proof. unfold Laugh.tickVars. destruct (Js.ge _ _); reflexivity. Qed.

Lemma tickVars_count b inp v :
  Laugh.frameCount (Laugh.tickVars Math_sqrt b inp v)
  = (Laugh.frameCount v + 1)%Z.
Proof. unfold Laugh.tickVars. destruct (Js.ge _ _); reflexivity. Qed.

Lemma tickVars_elapsed b inp v :
  Laugh.elapsedTime (Laugh.tickVars Math_sqrt b inp v)
  = (Laugh.elapsedTime v + 250)%Z.
Proof. unfold Laugh.tickVars. destruct (Js.ge _ _); reflexivity. Qed.

Lemma tickVars_penalty b inp v :
  Laugh.loudPenalty (Laugh.tickVars Math_sqrt b inp v)
  == Laugh.loudPenalty v + Laugh.tickPenalty Math_sqrt b (Laugh.rmsData inp).
Proof.
  unfold Laugh.tickVars, Laugh.tickPenalty.
  destruct (Js.ge _ _); cbn [Laugh.loudPenalty];
    destruct (Js.gt _ _); ring.
Qed.

Lemma tick_of_running (s : Laugh.State) (inp : Laugh.TickInput) :
  Laugh.isRoundRunning s = true ->
  let v := Laugh.tickVars Math_sqrt (Laugh.baselineRMS s) inp (Laugh.vars s) in
  exists s1 log,
    Laugh.isRoundRunning s1 = true /\ Laugh.gameLoop s1 = Laugh.gameLoop s
    /\ Laugh.baselineRMS s1 = Laugh.baselineRMS s
    /\ Laugh.localStorage s1 = Laugh.localStorage s
    /\ Laugh.vars s1 = v
    /\ Ui.shown "joy" log = [Ui.toString (Laugh.joyRank v)]
    /\ Laugh.gameLoopTick Math_sqrt playerName inp s
       = if (Laugh.ROUND_DURATION <=? Laugh.elapsedTime v)%Z
         then Ui.andThen (s1, log)
                (Laugh.stopRound playerName (Laugh.joyRank v) (Laugh.tickNow inp))
         else (s1, log).
Proof.
  intros Hrun v. unfold Laugh.gameLoopTick. rewrite Hrun. cbn [negb].
  fold v.
  match goal with
  | |- context [if _ then Ui.andThen (?st, ?out) _ else _] =>
      exists st, out
  end.
  cbn [Laugh.isRoundRunning Laugh.gameLoop Laugh.baselineRMS
       Laugh.localStorage Laugh.vars].
  repeat split; try assumption.
  rewrite shown_app. destruct (Laugh.outcome inp); reflexivity.
Qed.

Lemma run_ticks_running (s0 : Laugh.State) (inputs : list Laugh.TickInput) :
  Laugh.isRoundRunning s0 = true -> Laugh.gameLoop s0 = true ->
  Laugh.vars s0 = Laugh.freshVars ->
  (length inputs < 40)%nat ->
  Props.Running Math_sqrt s0 (Laugh.run Math_sqrt playerName s0 (Props.ticks inputs)).1 inputs.
Proof.
  intros Hrun Hloop Hvars.
  induction inputs as [|inp inputs IH] using rev_ind; intros Hlen.
  - cbn. split; try assumption; try reflexivity; rewrite Hvars; reflexivity.
  - rewrite length_app in Hlen. cbn [length] in Hlen.
    specialize (IH ltac:(lia)).
    unfold Laugh.run, Props.ticks in *. rewrite map_app. cbn [map].
    rewrite runAll_snoc.
    destruct (Ui.runAll _ s0 (map Laugh.Tick inputs)) as [s out].
    cbn [fst] in IH. destruct IH as [H1 H2 H3 H4 H5 H6 H7 H8].
    cbn [Ui.andThen Laugh.step]. rewrite H2.
    destruct (tick_of_running s inp H1) as (s1 & log & G1 & G2 & G3 & G4 & G5 & G6 & G7).
    rewrite G7.
    replace (Laugh.ROUND_DURATION <=? _)%Z with false.
    2:{ symmetry. apply Z.leb_gt. rewrite tickVars_elapsed, H8.
        unfold Laugh.ROUND_DURATION. lia. }
    cbn [fst]. split.
    + assumption.
    + congruence.
    + congruence.
    + congruence.
    + rewrite G5, tickVars_sum, map_app. cbn [map].
      rewrite Qsum_snoc, H5. reflexivity.
    + rewrite G5, tickVars_count, H6, length_app. cbn [length]. lia.
    + rewrite G5, tickVars_penalty, map_app. cbn [map].
      rewrite Qsum_snoc, H7, H3. reflexivity.
    + rewrite G5, tickVars_elapsed, H8, length_app. cbn [length]. lia.
Qed.

End LaughInvariant.

Lemma laugh_stopRound_running (name : string) (finalScore now : Z)
    (s : Laugh.State) :
  Laugh.isRoundRunning s = true ->
  let r := Laugh.stopRound name finalScore now s in
  Laugh.isRoundRunning r.1 = false /\ Laugh.gameLoop r.1 = false
  /\ Laugh.audioOpen r.1 = false
  /\ Laugh.vars r.1 = Laugh.vars s
  /\ Laugh.localStorage r.1
     = (Core.saveScore "laugh" name finalScore now (Laugh.localStorage s)).1
  /\ forall m, Ui.shown m r.2 = [].
Proof.
  intros Hrun. unfold Laugh.stopRound. rewrite Hrun.
  cbn [negb Laugh.cleanupAudio Laugh.localStorage].
  destruct (Core.saveScore "laugh" name finalScore now (Laugh.localStorage s))
    as [store best].
  destruct best; cbn; auto 10.
Qed.

Lemma laugh_stopRound_stopped (name : string) (finalScore now : Z)
    (s : Laugh.State) :
  Laugh.isRoundRunning s = false ->
  Laugh.stopRound name finalScore now s = (s, []).
Proof. intros H. unfold Laugh.stopRound. rewrite H. reflexivity. Qed.

Section LaughScore.
Variable Math_sqrt : Q -> Q.
Variable playerName : string.
Local Open Scope Q_scope.

(** C7.  In a tick whose classifier call throws, the laughter
    probability is 0, the tick adds 0 to the sum of the cumulative mean
    (and one to its count), the error is logged, the state is the one a
    tick with an empty classification leaves, and the round is still
    running afterwards unless this tick reaches the round duration. *)
Theorem classifier_error_tick (s : Laugh.State) (data : list Q) (err : Laugh.JsError)
    (now : Z) :
  Laugh.isRoundRunning s = true ->
  let r := Laugh.gameLoopTick Math_sqrt playerName
             (Laugh.mkTick data (Laugh.Throws err) now) s in
  Laugh.tickProbability (Laugh.Throws err) = 0
  /\ Laugh.laughProbSum (Laugh.vars r.1) == Laugh.laughProbSum (Laugh.vars s)
  /\ Laugh.frameCount (Laugh.vars r.1) = (Laugh.frameCount (Laugh.vars s) + 1)%Z
  /\ In (Ui.logDebug ("Classification error: " +:+ Laugh.error_text err)) r.2
  /\ r.1 = (Laugh.gameLoopTick Math_sqrt playerName
              (Laugh.mkTick data (Laugh.Yields (Some [])) now) s).1
  /\ ((Laugh.elapsedTime (Laugh.vars s) + Laugh.TICK_INTERVAL
       < Laugh.ROUND_DURATION)%Z ->
      Laugh.isRoundRunning r.1 = true).
Proof.
  intros Hrun r.
  set (inp := Laugh.mkTick data (Laugh.Throws err) now) in *.
  destruct (tick_of_running Math_sqrt playerName s inp Hrun)
    as (s1 & log & G1 & G2 & G3 & G4 & G5 & G6 & G7).
  fold r in G7.
  set (v := Laugh.tickVars Math_sqrt (Laugh.baselineRMS s) inp (Laugh.vars s))
    in *.
  assert (Hvars : Laugh.vars r.1 = v).
  { rewrite G7. destruct (Laugh.ROUND_DURATION <=? Laugh.elapsedTime v)%Z;
      [|assumption].
    pose proof (laugh_stopRound_running playerName (Laugh.joyRank v)
                  (Laugh.tickNow inp) s1 G1) as (_ & _ & _ & K4 & _).
    cbn zeta in K4. rewrite andThen_pair. cbn [fst]. congruence. }
  split; [reflexivity|]. split.
  { rewrite Hvars. unfold v. rewrite tickVars_sum.
    change (Laugh.tickProbability (Laugh.outcome inp)) with 0. ring. }
  split.
  { rewrite Hvars. unfold v. apply tickVars_count. }
  split.
  { unfold r, Laugh.gameLoopTick. rewrite Hrun. cbn [negb inp Laugh.outcome].
    destruct (_ <=? _)%Z.
    - rewrite andThen_pair. cbn [snd].
      apply in_or_app. left. left. reflexivity.
    - left. reflexivity. }
  split.
  { unfold r, Laugh.gameLoopTick. rewrite Hrun. cbn [negb].
    change (Laugh.tickVars Math_sqrt (Laugh.baselineRMS s)
              (Laugh.mkTick data (Laugh.Yields (Some [])) now) (Laugh.vars s))
      with v.
    fold v. cbn [Laugh.outcome Laugh.tickNow inp].
    destruct (_ <=? _)%Z; [|reflexivity].
    rewrite !andThen_pair. reflexivity. }
  intros Hel. rewrite G7.
  replace (_ <=? _)%Z with false; [assumption|].
  symmetry. apply Z.leb_gt. unfold v. rewrite tickVars_elapsed.
  unfold Laugh.TICK_INTERVAL in Hel. lia.
Qed.

End LaughScore.

Lemma classifier_error_tick_witness :
  Laugh.tickProbability (Laugh.Throws Samples.busy) = 0%Q
  /\ Laugh.frameCount
       (Laugh.vars
          (Laugh.gameLoopTick Props.sample_sqrt "Ann"
             (Laugh.mkTick [0%Q; 0%Q] (Laugh.Throws Samples.busy) 1762041600000)
             Samples.laugh_started).1)
     = 1
  /\ Laugh.isRoundRunning
       (Laugh.gameLoopTick Props.sample_sqrt "Ann"
          (Laugh.mkTick [0%Q; 0%Q] (Laugh.Throws Samples.busy) 1762041600000)
          Samples.laugh_started).1
     = true.
Proof.
  destruct (classifier_error_tick Props.sample_sqrt "Ann" Samples.laugh_started
              [0%Q; 0%Q] Samples.busy 1762041600000 eq_refl)
    as (H1 & _ & H3 & _ & _ & H6).
  split; [exact H1|]. split; [exact H3|]. apply H6. reflexivity.
Defined.

(** ** Shake mode *)

Section ShakeSteps.
Local Open Scope Q_scope.

Lemma clampDt_stale (dt : Q) :
  dt <= 0 \/ 0.25 < dt -> Shake.clampDt dt = 0.016.
Proof.
  intros H. unfold Shake.clampDt.
  destruct (Js.le dt 0) eqn:E1; [reflexivity|].
  destruct (Js.gt dt 0.25) eqn:E2; [reflexivity|].
  apply Js_le_false in E1. apply Js_gt_false in E2. lra.
Qed.

Lemma clampDt_fresh (dt : Q) :
  0 < dt -> dt <= 0.25 -> Shake.clampDt dt = dt.
Proof.
  intros H1 H2. unfold Shake.clampDt.
  destruct (Js.le dt 0) eqn:E1.
  - apply Js_le_true in E1. lra.
  - destruct (Js.gt dt 0.25) eqn:E2; [|reflexivity].
    apply Js_gt_true in E2. lra.
Qed.

Lemma clampDt_pos (dt : Q) : 0 < Shake.clampDt dt.
Proof.
  unfold Shake.clampDt.
  destruct (Js.le dt 0) eqn:E1; [reflexivity|].
  destruct (Js.gt dt 0.25) eqn:E2; [reflexivity|].
  apply Js_le_false in E1. exact E1.
Qed.

Lemma square_step_nonneg (m dt : Q) : 0 < dt -> 0 <= (m * m) * dt.
Proof. intros H. nra. Qed.

Lemma shake_stopRound_running (name : string) (finalScore now : Z)
    (s : Shake.State) :
  Shake.isRoundRunning s = true ->
  let r := Shake.stopRound name finalScore now s in
  Shake.isRoundRunning r.1 = false /\ Shake.listening r.1 = false
  /\ Shake.timerPending r.1 = false
  /\ Shake.integratedAccEnergy r.1 = Shake.integratedAccEnergy s
  /\ Shake.integratedRotEnergy r.1 = Shake.integratedRotEnergy s
  /\ Shake.localStorage r.1
     = (Core.saveScore "shake" name finalScore now (Shake.localStorage s)).1
  /\ forall m, Ui.shown m r.2 = [].
Proof.
  intros Hrun. unfold Shake.stopRound. rewrite Hrun.
  cbn [negb Shake.cleanupMotion Shake.localStorage].
  destruct (Core.saveScore "shake" name finalScore now (Shake.localStorage s))
    as [store best].
  destruct best; cbn; auto 10.
Qed.

Lemma shake_stopRound_stopped (name : string) (finalScore now : Z)
    (s : Shake.State) :
  Shake.isRoundRunning s = false ->
  Shake.stopRound name finalScore now s = (s, []).
Proof. intros H. unfold Shake.stopRound. rewrite H. reflexivity. Qed.

Lemma shakeRank_mono (s s' : Shake.State) :
  Shake.integratedAccEnergy s <= Shake.integratedAccEnergy s' ->
  Shake.integratedRotEnergy s <= Shake.integratedRotEnergy s' ->
  (Shake.shakeRank s <= Shake.shakeRank s')%Z.
Proof. intros Ha Hr. apply Math_round_mono. lra. Qed.

(** What a frame does to a running round. *)
Lemma frame_of_running (playerName : string) (now : Z) (s : Shake.State) :
  Shake.isRoundRunning s = true ->
  let r := Shake.gameLoopFrame playerName now s in
  Ui.shown "shake" r.2 = [Ui.toString (Shake.shakeRank s)]
  /\ Shake.integratedAccEnergy r.1 = Shake.integratedAccEnergy s
  /\ Shake.integratedRotEnergy r.1 = Shake.integratedRotEnergy s
  /\ (if Js.ge (Shake.elapsedTime s + Shake.FRAME_INTERVAL) Shake.ROUND_DURATION
      then Shake.isRoundRunning r.1 = false
           /\ Shake.localStorage r.1
              = (Core.saveScore "shake" playerName (Shake.shakeRank s) now
                   (Shake.localStorage s)).1
      else Shake.isRoundRunning r.1 = true
           /\ Shake.localStorage r.1 = Shake.localStorage s).
Proof.
  intros Hrun. unfold Shake.gameLoopFrame. rewrite Hrun.
  cbn [negb Shake.elapsedTime Shake.isRoundRunning Shake.localStorage].
  destruct (Js.ge _ _).
  - rewrite andThen_pair.
    match goal with
    | |- context [Shake.stopRound ?n ?f ?t ?st] =>
        pose proof (shake_stopRound_running n f t st eq_refl)
          as (K1 & K2 & K3 & K4 & K5 & K6 & K7)
    end.
    cbn zeta in *. cbn [fst snd]. rewrite shown_app, K7.
    repeat split; try assumption.
  - cbn. repeat split; reflexivity.
Qed.

Section ShakeRound.
Variable Math_hypot : Q -> Q -> Q -> Q.
Variable Math_PI : Q.
Variable playerName : string.

Lemma onDeviceMotion_energy (event : Shake.MotionEvent) (s : Shake.State) :
  let s' := Shake.onDeviceMotion Math_hypot Math_PI event s in
  let dt := Shake.clampDt
              (Shake.elapsedDt (Shake.lastTimestamp s) (Shake.eventNow event)) in
  let rotRad := Shake.liveRotation s' * (Math_PI / 180) in
  Shake.integratedAccEnergy s'
  = Shake.integratedAccEnergy s
    + (Shake.liveAcceleration s' * Shake.liveAcceleration s') * dt
  /\ Shake.integratedRotEnergy s'
     = Shake.integratedRotEnergy s + (rotRad * rotRad) * dt
  /\ Shake.isRoundRunning s' = Shake.isRoundRunning s
  /\ Shake.localStorage s' = Shake.localStorage s.
Proof.
  unfold Shake.onDeviceMotion. destruct (Shake.axes event) as [[ax ay] az].
  cbn. auto.
Qed.

Lemma onDeviceMotion_grows (event : Shake.MotionEvent) (s : Shake.State) :
  let s' := Shake.onDeviceMotion Math_hypot Math_PI event s in
  Shake.integratedAccEnergy s <= Shake.integratedAccEnergy s'
  /\ Shake.integratedRotEnergy s <= Shake.integratedRotEnergy s'.
Proof.
  destruct (onDeviceMotion_energy event s) as (Ha & Hr & _).
  cbn zeta in *. rewrite Ha, Hr.
  split.
  - pose proof (square_step_nonneg
      (Shake.liveAcceleration (Shake.onDeviceMotion Math_hypot Math_PI event s))
      _ (clampDt_pos (Shake.elapsedDt (Shake.lastTimestamp s) (Shake.eventNow event)))).
    lra.
  - pose proof (square_step_nonneg
      (Shake.liveRotation (Shake.onDeviceMotion Math_hypot Math_PI event s)
       * (Math_PI / 180))
      _ (clampDt_pos (Shake.elapsedDt (Shake.lastTimestamp s) (Shake.eventNow event)))).
    lra.
Qed.

(** One event of the page: the energies do not decrease, and the shake
    meter is written at most once, with the rank of the state before. *)
Lemma step_scores (a : Shake.Action) (s : Shake.State) :
  let r := Shake.step Math_hypot Math_PI playerName a s in
  Shake.integratedAccEnergy s <= Shake.integratedAccEnergy r.1
  /\ Shake.integratedRotEnergy s <= Shake.integratedRotEnergy r.1
  /\ (Props.integers (Ui.shown "shake" r.2) = []
      \/ Props.integers (Ui.shown "shake" r.2) = [Shake.shakeRank s]).
Proof.
  destruct a as [event|now| |now]; cbn [Shake.step].
  - destruct (Shake.listening s); cbn [fst snd].
    + pose proof (onDeviceMotion_grows event s) as [H1 H2]. auto.
    + split; [lra|]. split; [lra|]. auto.
  - destruct (Shake.timerPending s); cbn [fst snd].
    2:{ split; [lra|]. split; [lra|]. auto. }
    match goal with
    | |- context [Shake.gameLoopFrame _ _ ?st] => set (s1 := st)
    end.
    destruct (Shake.isRoundRunning s) eqn:Hrun.
    + pose proof (frame_of_running playerName now s1 eq_refl) as (F1 & F2 & F3 & _).
      cbn zeta in *. rewrite F1, F2, F3. cbn.
      split; [lra|]. split; [lra|]. right. reflexivity.
    + unfold Shake.gameLoopFrame. subst s1. cbn.
      split; [lra|]. split; [lra|]. auto.
  - unfold Shake.noDataCheck. destruct (_ && _)%bool; cbn;
      (split; [lra|]; split; [lra|]; auto).
  - unfold Shake.stopClick. destruct (Shake.isRoundRunning s) eqn:Hrun.
    + pose proof (shake_stopRound_running playerName 0 now s Hrun)
        as (_ & _ & _ & K4 & K5 & _ & K7).
      cbn zeta in *. rewrite K4, K5, K7. cbn.
      split; [lra|]. split; [lra|]. auto.
    + rewrite shake_stopRound_stopped by assumption. cbn.
      split; [lra|]. split; [lra|]. auto.
Qed.

Lemma run_scores (s : Shake.State) (acts : list Shake.Action) :
  let r := Shake.run Math_hypot Math_PI playerName s acts in
  let scores := Props.integers (Ui.shown "shake" r.2) in
  Shake.integratedAccEnergy s <= Shake.integratedAccEnergy r.1
  /\ Shake.integratedRotEnergy s <= Shake.integratedRotEnergy r.1
  /\ StronglySorted Z.le scores
  /\ Forall (fun n => (n <= Shake.shakeRank r.1)%Z) scores.
Proof.
  induction acts as [|a acts IH] using rev_ind.
  - cbn. split; [lra|]. split; [lra|]. split; constructor.
  - unfold Shake.run in *. rewrite runAll_snoc.
    destruct (Ui.runAll _ s acts) as [s1 out1].
    cbn zeta in IH. cbn [fst snd] in IH.
    destruct IH as (Ha & Hr & Hsorted & Hbound).
    cbn [Ui.andThen].
    pose proof (step_scores a s1) as (Sa & Sr & Sout).
    cbn zeta in Sa, Sr, Sout.
    destruct (Shake.step Math_hypot Math_PI playerName a s1) as [s2 out2].
    cbn [fst snd] in *.
    pose proof (shakeRank_mono s1 s2 Sa Sr) as Hmono.
    rewrite shown_app, integers_app.
    split; [lra|]. split; [lra|].
    assert (Hb' : Forall (fun n => (n <= Shake.shakeRank s2)%Z)
                    (Props.integers (Ui.shown "shake" out1))).
    { eapply Forall_impl; [exact Hbound|]. cbv beta. intros n Hn. lia. }
    destruct Sout as [-> | ->].
    + rewrite app_nil_r. split; assumption.
    + split.
      * apply StronglySorted_app. repeat split.
        -- intros x1 x2 H1 H2. apply list_elem_of_singleton in H2. subst x2.
           rewrite Forall_forall in Hbound. apply Hbound. exact H1.
        -- assumption.
        -- repeat constructor.
      * apply Forall_app. split; [assumption|].
        constructor; [assumption|constructor].
Qed.

(** C1 (amended).  Whenever the delta-time computed by the handler is at
    most 0 or above 0.25 s, the step used for the energy integration of
    that event is exactly 0.016 s: both energies grow by the squared
    magnitude times 0.016. *)
Theorem stale_dt_uses_nominal_step (event : Shake.MotionEvent)
    (s : Shake.State) :
  let dt := Shake.elapsedDt (Shake.lastTimestamp s) (Shake.eventNow event) in
  dt <= 0 \/ 0.25 < dt ->
  let s' := Shake.onDeviceMotion Math_hypot Math_PI event s in
  let rotRad := Shake.liveRotation s' * (Math_PI / 180) in
  Shake.clampDt dt = 0.016
  /\ Shake.integratedAccEnergy s'
     = Shake.integratedAccEnergy s
       + (Shake.liveAcceleration s' * Shake.liveAcceleration s') * 0.016
  /\ Shake.integratedRotEnergy s'
     = Shake.integratedRotEnergy s + (rotRad * rotRad) * 0.016.
Proof.
  intros dt Hdt s' rotRad.
  pose proof (clampDt_stale dt Hdt) as Hc.
  destruct (onDeviceMotion_energy event s) as (Ha & Hr & _).
  cbn zeta in Ha, Hr. fold dt in Ha, Hr. rewrite Hc in Ha, Hr.
  split; [exact Hc|]. split; [exact Ha|exact Hr].
Qed.

(** C8.  Over any sequence of motion events, frames, clicks on stop and
    the no-data check, the scores written to the shake meter never
    decrease from one frame to any later one, because neither energy
    accumulator decreases: every motion event adds a square times a
    positive step. *)
Theorem shake_score_nondecreasing (s : Shake.State)
    (acts : list Shake.Action) :
  let r := Shake.run Math_hypot Math_PI playerName s acts in
  Props.NonDecreasing (Props.integers (Ui.shown "shake" r.2))
  /\ Shake.integratedAccEnergy s <= Shake.integratedAccEnergy r.1
  /\ Shake.integratedRotEnergy s <= Shake.integratedRotEnergy r.1
  /\ (forall dt : Q, 0 < Shake.clampDt dt).
Proof.
  destruct (run_scores s acts) as (Ha & Hr & Hsorted & _).
  cbn zeta in *. split; [apply sorted_NonDecreasing, Hsorted|].
  split; [exact Ha|]. split; [exact Hr|]. exact clampDt_pos.
Qed.

End ShakeRound.

End ShakeSteps.

Lemma stale_dt_uses_nominal_step_witness :
  (0.25 < Shake.elapsedDt (Shake.lastTimestamp Samples.shaking)
            (Shake.eventNow (Samples.jolt 3000)))%Q
  /\ Shake.clampDt
       (Shake.elapsedDt (Shake.lastTimestamp Samples.shaking)
          (Shake.eventNow (Samples.jolt 3000)))
     = 0.016%Q
  /\ (Shake.integratedAccEnergy
        (Shake.onDeviceMotion Props.sample_hypot Props.sample_PI
           (Samples.jolt 3000) Samples.shaking)
      == 0.8)%Q.
Proof.
  assert (Hgap : (0.25 < Shake.elapsedDt (Shake.lastTimestamp Samples.shaking)
                          (Shake.eventNow (Samples.jolt 3000)))%Q)
    by reflexivity.
  destruct (stale_dt_uses_nominal_step Props.sample_hypot Props.sample_PI
              (Samples.jolt 3000) Samples.shaking (or_intror Hgap))
    as (H1 & H2 & _).
  split; [exact Hgap|]. split; [exact H1|].
  rewrite H2. vm_compute. reflexivity.
Defined.

(** The gap of 2 s is replaced by 0.016 s, which is not 1/60 s: the energy
    grows by 25 * 0.016 = 0.4, not by 25 / 60. *)
Lemma stale_dt_is_not_one_sixtieth :
  (Shake.elapsedDt (Shake.lastTimestamp Samples.shaking)
     (Shake.eventNow (Samples.jolt 3000)) == 2)%Q
  /\ ~ (Shake.clampDt
          (Shake.elapsedDt (Shake.lastTimestamp Samples.shaking)
             (Shake.eventNow (Samples.jolt 3000)))
        == 1 # 60)%Q
  /\ (Shake.integratedAccEnergy
        (Shake.onDeviceMotion Props.sample_hypot Props.sample_PI
           (Samples.jolt 3000) Samples.shaking)
      - Shake.integratedAccEnergy Samples.shaking == 25 * 0.016)%Q
  /\ ~ (Shake.integratedAccEnergy
          (Shake.onDeviceMotion Props.sample_hypot Props.sample_PI
             (Samples.jolt 3000) Samples.shaking)
        - Shake.integratedAccEnergy Samples.shaking == 25 * (1 # 60))%Q.
Proof.
  split; [vm_compute; reflexivity|].
  split; [vm_compute; discriminate|].
  split; [vm_compute; reflexivity|].
  vm_compute; discriminate.
Qed.

Example shake_round_scores :
  Props.integers
    (Ui.shown "shake"
       (Shake.run Props.sample_hypot Props.sample_PI "Ann"
          Samples.shake_started
          [Shake.Motion (Samples.jolt 1000); Shake.FrameTimer 0;
           Shake.Motion (Samples.jolt 1100); Shake.FrameTimer 0;
           Shake.Motion (Samples.jolt 3100); Shake.FrameTimer 0;
           Shake.StopClick 5; Shake.FrameTimer 0]).2)
  = [2; 17; 20].
Proof. vm_compute. reflexivity. Qed.

(** ** Finalization *)

Section Persist.
Variable Math_sqrt : Q -> Q.
Variable Math_hypot : Q -> Q -> Q -> Q.
Variable Math_PI : Q.
Variable playerName : string.

Lemma laugh_step_stopped (a : Laugh.Action) (s : Laugh.State) :
  Laugh.isRoundRunning s = false ->
  Laugh.step Math_sqrt playerName a s = (s, []).
Proof.
  intros H. destruct a as [inp|now]; cbn [Laugh.step].
  - destruct (Laugh.gameLoop s); [|reflexivity].
    unfold Laugh.gameLoopTick. rewrite H. reflexivity.
  - apply laugh_stopRound_stopped, H.
Qed.

Lemma laugh_step_running (a : Laugh.Action) (s : Laugh.State) :
  Laugh.isRoundRunning s = true ->
  let s' := (Laugh.step Math_sqrt playerName a s).1 in
  Props.PersistedOnce "laugh" playerName (Laugh.localStorage s)
    (Laugh.isRoundRunning s') (Laugh.localStorage s').
Proof.
  intros Hrun. destruct a as [inp|now]; cbn [Laugh.step].
  - destruct (Laugh.gameLoop s); cbn [fst].
    2:{ rewrite Hrun. reflexivity. }
    destruct (tick_of_running Math_sqrt playerName s inp Hrun)
      as (s1 & log & G1 & G2 & G3 & G4 & G5 & G6 & G7).
    rewrite G7. destruct (_ <=? _).
    + rewrite andThen_pair. cbn [fst].
      match goal with
      | |- context [Laugh.stopRound ?n ?f ?t ?st] =>
          pose proof (laugh_stopRound_running n f t st G1)
            as (K1 & _ & _ & _ & K5 & _)
      end.
      cbn zeta in *. rewrite K1, K5, G4. cbn. eauto.
    + cbn [fst]. rewrite G1. exact G4.
  - unfold Laugh.stopClick.
    pose proof (laugh_stopRound_running playerName 0 now s Hrun)
      as (K1 & _ & _ & _ & K5 & _).
    cbn zeta in *. rewrite K1, K5. cbn. eauto.
Qed.

Lemma laugh_round_persists_once (s0 : Laugh.State) (acts : list Laugh.Action) :
  Laugh.isRoundRunning s0 = true ->
  let s := (Laugh.run Math_sqrt playerName s0 acts).1 in
  Props.PersistedOnce "laugh" playerName (Laugh.localStorage s0)
    (Laugh.isRoundRunning s) (Laugh.localStorage s).
Proof.
  intros Hrun. induction acts as [|a acts IH] using rev_ind.
  - cbn. rewrite Hrun. reflexivity.
  - unfold Laugh.run in *. rewrite runAll_snoc.
    destruct (Ui.runAll _ s0 acts) as [s1 out1]. cbn [fst] in IH.
    cbn zeta in IH. rewrite andThen_pair. cbn [fst].
    destruct (Laugh.isRoundRunning s1) eqn:H1.
    + cbn in IH. rewrite <- IH. apply laugh_step_running, H1.
    + rewrite laugh_step_stopped by assumption. cbn [fst].
      rewrite H1. exact IH.
Qed.

Lemma shake_step_stopped (a : Shake.Action) (s : Shake.State) :
  Shake.isRoundRunning s = false ->
  let s' := (Shake.step Math_hypot Math_PI playerName a s).1 in
  Shake.isRoundRunning s' = false
  /\ Shake.localStorage s' = Shake.localStorage s.
Proof.
  intros H. destruct a as [event|now| |now]; cbn [Shake.step].
  - destruct (Shake.listening s); cbn [fst]; [|auto].
    destruct (onDeviceMotion_energy Math_hypot Math_PI event s)
      as (_ & _ & F1 & F2).
    cbn zeta in *. rewrite F1, F2. auto.
  - destruct (Shake.timerPending s); cbn [fst]; [|auto].
    unfold Shake.gameLoopFrame. cbn [Shake.isRoundRunning]. rewrite H.
    cbn. auto.
  - unfold Shake.noDataCheck. destruct (_ && _)%bool; cbn; auto.
  - unfold Shake.stopClick. rewrite shake_stopRound_stopped by assumption.
    cbn. auto.
Qed.

Lemma shake_step_running (a : Shake.Action) (s : Shake.State) :
  Shake.isRoundRunning s = true ->
  let s' := (Shake.step Math_hypot Math_PI playerName a s).1 in
  Props.PersistedOnce "shake" playerName (Shake.localStorage s)
    (Shake.isRoundRunning s') (Shake.localStorage s').
Proof.
  intros Hrun. destruct a as [event|now| |now]; cbn [Shake.step].
  - destruct (Shake.listening s); cbn [fst].
    2:{ rewrite Hrun. reflexivity. }
    destruct (onDeviceMotion_energy Math_hypot Math_PI event s)
      as (_ & _ & F1 & F2).
    cbn zeta in *. rewrite F1, F2, Hrun. reflexivity.
  - destruct (Shake.timerPending s); cbn [fst].
    2:{ rewrite Hrun. reflexivity. }
    match goal with
    | |- context [Shake.gameLoopFrame _ _ ?st] => set (s1 := st)
    end.
    assert (Hrun1 : Shake.isRoundRunning s1 = true) by exact Hrun.
    pose proof (frame_of_running playerName now s1 Hrun1) as (_ & _ & _ & F).
    cbn zeta in F.
    destruct (Js.ge _ _); destruct F as [F1 F2]; rewrite F1, F2; cbn; eauto.
  - unfold Shake.noDataCheck. destruct (_ && _)%bool; cbn [fst];
      rewrite Hrun; reflexivity.
  - unfold Shake.stopClick.
    pose proof (shake_stopRound_running playerName 0 now s Hrun)
      as (K1 & _ & _ & _ & _ & K6 & _).
    cbn zeta in *. rewrite K1, K6. cbn. eauto.
Qed.

Lemma shake_round_persists_once (s0 : Shake.State) (acts : list Shake.Action) :
  Shake.isRoundRunning s0 = true ->
  let s := (Shake.run Math_hypot Math_PI playerName s0 acts).1 in
  Props.PersistedOnce "shake" playerName (Shake.localStorage s0)
    (Shake.isRoundRunning s) (Shake.localStorage s).
Proof.
  intros Hrun. induction acts as [|a acts IH] using rev_ind.
  - cbn. rewrite Hrun. reflexivity.
  - unfold Shake.run in *. rewrite runAll_snoc.
    destruct (Ui.runAll _ s0 acts) as [s1 out1]. cbn [fst] in IH.
    cbn zeta in IH. rewrite andThen_pair. cbn [fst].
    destruct (Shake.isRoundRunning s1) eqn:H1.
    + cbn in IH. rewrite <- IH. apply shake_step_running, H1.
    + destruct (shake_step_stopped a s1 H1) as [F1 F2].
      cbn zeta in *. rewrite F1, F2. exact IH.
Qed.

(** C9.  Finalization happens once per round, in both modes.  The first
    [stopRound] of a running round persists the one write of [saveScore];
    a second [stopRound], whatever its arguments, finds the running flag
    cleared and is a no-op: same state, same storage, no UI call.  Over
    any sequence of page events a round has persisted nothing while it
    runs and exactly that one write once it is over. *)
Theorem finalize_once (ls : Laugh.State) (ss : Shake.State)
    (finalScore now finalScore' now' : Z)
    (lacts : list Laugh.Action) (sacts : list Shake.Action) :
  Laugh.isRoundRunning ls = true ->
  Shake.isRoundRunning ss = true ->
  let l1 := (Laugh.stopRound playerName finalScore now ls).1 in
  let s1 := (Shake.stopRound playerName finalScore now ss).1 in
  let lN := (Laugh.run Math_sqrt playerName ls lacts).1 in
  let sN := (Shake.run Math_hypot Math_PI playerName ss sacts).1 in
  (Laugh.localStorage l1
   = (Core.saveScore "laugh" playerName finalScore now
        (Laugh.localStorage ls)).1
   /\ Laugh.stopRound playerName finalScore' now' l1 = (l1, []))
  /\ (Shake.localStorage s1
      = (Core.saveScore "shake" playerName finalScore now
           (Shake.localStorage ss)).1
      /\ Shake.stopRound playerName finalScore' now' s1 = (s1, []))
  /\ Props.PersistedOnce "laugh" playerName (Laugh.localStorage ls)
       (Laugh.isRoundRunning lN) (Laugh.localStorage lN)
  /\ Props.PersistedOnce "shake" playerName (Shake.localStorage ss)
       (Shake.isRoundRunning sN) (Shake.localStorage sN).
Proof.
  intros Hl Hs l1 s1 lN sN.
  pose proof (laugh_stopRound_running playerName finalScore now ls Hl)
    as (L1 & _ & _ & _ & L5 & _).
  pose proof (shake_stopRound_running playerName finalScore now ss Hs)
    as (S1 & _ & _ & _ & _ & S6 & _).
  cbn zeta in L1, L5, S1, S6.
  repeat split.
  - exact L5.
  - apply laugh_stopRound_stopped, L1.
  - exact S6.
  - apply shake_stopRound_stopped, S1.
  - apply laugh_round_persists_once, Hl.
  - apply shake_round_persists_once, Hs.
Qed.

End Persist.

Lemma finalize_once_witness :
  Core.loadScores "laugh"
    (Laugh.localStorage
       (Laugh.run Props.sample_sqrt "Ann" Samples.laugh_started
          [Laugh.Tick Samples.laughing; Laugh.StopClick 1762041600000;
           Laugh.Tick Samples.laughing; Laugh.StopClick 1762041700000]).1)
  = [Core.mkEntry "Ann" 0 1762041600000]
  /\ Shake.stopRound "Ann" 9 1762041700000
       (Shake.stopRound "Ann" 20 1762041600000 Samples.shaking).1
     = ((Shake.stopRound "Ann" 20 1762041600000 Samples.shaking).1, []).
Proof.
  destruct (finalize_once Props.sample_sqrt Props.sample_hypot Props.sample_PI
              "Ann" Samples.laugh_started Samples.shaking
              20 1762041600000 9 1762041700000
              [Laugh.Tick Samples.laughing; Laugh.StopClick 1762041600000;
               Laugh.Tick Samples.laughing; Laugh.StopClick 1762041700000]
              [] eq_refl eq_refl)
    as (_ & (_ & H2) & _ & _).
  split; [reflexivity|exact H2].
Defined.

(** ** clamp *)

Lemma Math_min_bounds (x y : Q) :
  (Js.Math_min x y <= x /\ Js.Math_min x y <= y
   /\ (Js.Math_min x y == x \/ Js.Math_min x y == y))%Q.
Proof.
  unfold Js.Math_min. destruct (Js.le x y) eqn:E.
  - apply Js_le_true in E. repeat split; try lra; try (left; reflexivity).
  - apply Js_le_false in E. repeat split; try lra; try (right; reflexivity).
Qed.

Lemma Math_max_bounds (x y : Q) :
  (x <= Js.Math_max x y /\ y <= Js.Math_max x y
   /\ (Js.Math_max x y == x \/ Js.Math_max x y == y))%Q.
Proof.
  unfold Js.Math_max. destruct (Js.le x y) eqn:E.
  - apply Js_le_true in E. repeat split; try lra; try (right; reflexivity).
  - apply Js_le_false in E. repeat split; try lra; try (left; reflexivity).
Qed.

Lemma clamp_bounds (value min max : Q) :
  (min <= max ->
   min <= Core.clamp value min max /\ Core.clamp value min max <= max)%Q.
Proof.
  intros Hmm. unfold Core.clamp.
  destruct (Math_min_bounds max value) as (H1 & H2 & H3).
  destruct (Math_max_bounds min (Js.Math_min max value)) as (H4 & H5 & H6).
  destruct H3, H6; lra.
Qed.

(** X1.  [clamp] with ordered bounds returns a number between the bounds: the
    value itself when it lies between them, the bound it passed otherwise. *)
Theorem clamp_within_bounds (value min max : Q) :
  (min <= max ->
   (min <= Core.clamp value min max /\ Core.clamp value min max <= max)
   /\ (min <= value -> value <= max -> Core.clamp value min max == value)
   /\ (value <= min -> Core.clamp value min max == min)
   /\ (max <= value -> Core.clamp value min max == max))%Q.
Proof.
  intros Hmm. unfold Core.clamp.
  destruct (Math_min_bounds max value) as (H1 & H2 & H3).
  destruct (Math_max_bounds min (Js.Math_min max value)) as (H4 & H5 & H6).
  repeat split; intros; destruct H3, H6; lra.
Qed.

(** ** sanitizeName *)

Lemma length_list_ascii_of_string (s : string) :
  length (list_ascii_of_string s) = String.length s.
Proof. induction s as [|a r IH]; simpl; congruence. Qed.

Lemma stripWhite_unstripped (back : bool) (l : list ascii) :
  Props.unstripped back l = true -> Core.stripWhite back l = l.
Proof.
  destruct l as [|a [|b [|c r]]]; simpl; try reflexivity.
  - destruct (Core.white1 a); [discriminate|reflexivity].
  - destruct (Core.white1 a); [discriminate|]. simpl.
    destruct (if back then _ else _); [discriminate|reflexivity].
  - destruct (Core.white1 a); [discriminate|]. simpl.
    destruct (if back then Core.white2 b a else _); [discriminate|]. simpl.
    destruct (if back then Core.white3 c b a else _); [discriminate|reflexivity].
Qed.

(** The bytes [stripWhite] drops are white space bytes or bytes of longer
    characters; what it returns is left alone by a second pass. *)
Lemma stripWhite_spec (back : bool) (n : nat) (l : list ascii) :
  (length l <= n)%nat ->
  exists p,
    l = p ++ Core.stripWhite back l
    /\ Forall (fun c => Core.white1 c = true \/ (128 <= nat_of_ascii c)%nat) p
    /\ Props.unstripped back (Core.stripWhite back l) = true.
Proof.
  revert l. induction n as [|n IH]; intros l Hlen.
  { destruct l; [|simpl in Hlen; lia]. exists []. repeat split; constructor. }
  destruct l as [|a r]; [exists []; repeat split; constructor|].
  cbn [Core.stripWhite]. cbn [length] in Hlen.
  destruct (Core.white1 a) eqn:E1.
  { destruct (IH r ltac:(lia)) as (p & Hp & Hall & Hun).
    exists (a :: p). split; [simpl; congruence|]. split; [|exact Hun].
    constructor; [left; exact E1|exact Hall]. }
  destruct r as [|b r2].
  { exists []. split; [reflexivity|]. split; [constructor|].
    simpl. rewrite E1. reflexivity. }
  cbn [length] in Hlen.
  destruct (if back then Core.white2 b a else Core.white2 a b) eqn:E2.
  { destruct (IH r2 ltac:(lia)) as (p & Hp & Hall & Hun).
    exists (a :: b :: p). split; [simpl; congruence|]. split; [|exact Hun].
    assert (Hab : (128 <= nat_of_ascii a)%nat /\ (128 <= nat_of_ascii b)%nat).
    { unfold Core.white2 in E2. destruct back;
        apply andb_true_iff in E2 as [Ea Eb];
        apply Ascii.eqb_eq in Ea, Eb; subst;
        split; apply Nat.leb_le; vm_compute; reflexivity. }
    constructor; [right; apply Hab|]. constructor; [right; apply Hab|exact Hall]. }
  destruct r2 as [|c r3].
  { exists []. split; [reflexivity|]. split; [constructor|].
    simpl. rewrite E1, E2. reflexivity. }
  cbn [length] in Hlen.
  destruct (if back then Core.white3 c b a else Core.white3 a b c) eqn:E3.
  { destruct (IH r3 ltac:(lia)) as (p & Hp & Hall & Hun).
    exists (a :: b :: c :: p). split; [simpl; congruence|]. split; [|exact Hun].
    assert (Habc : (128 <= nat_of_ascii a)%nat /\ (128 <= nat_of_ascii b)%nat
                   /\ (128 <= nat_of_ascii c)%nat).
    { unfold Core.white3 in E3.
      destruct back;
        repeat (apply orb_true_iff in E3 as [E3|E3]);
        repeat (apply andb_true_iff in E3 as [E3 ?]);
        repeat match goal with
          | H : Ascii.eqb _ _ = true |- _ => apply Ascii.eqb_eq in H; subst
          | H : (_ <=? _)%nat = true |- _ => apply Nat.leb_le in H
          | H : (_ =? _)%nat = true |- _ => apply Nat.eqb_eq in H
          | H : orb _ _ = true |- _ => apply orb_true_iff in H as [H|H]
          | H : andb _ _ = true |- _ => apply andb_true_iff in H as [H ?]
          end;
        repeat split;
        first [lia | apply Nat.leb_le; vm_compute; reflexivity]. }
    constructor; [right; apply Habc|]. constructor; [right; apply Habc|].
    constructor; [right; apply Habc|exact Hall]. }
  exists []. split; [reflexivity|]. split; [constructor|].
  simpl. rewrite E1, E2, E3. reflexivity.
Qed.

Lemma unstripped_prefix (back : bool) (p q : list ascii) :
  Props.unstripped back (p ++ q) = true -> Props.unstripped back p = true.
Proof.
  destruct p as [|a [|b [|c r]]]; simpl; try reflexivity; intros H.
  - apply andb_true_iff in H as [H _]. rewrite H. reflexivity.
  - apply andb_true_iff in H as [H1 H]. rewrite H1.
    apply andb_true_iff in H as [H2 _]. rewrite H2. reflexivity.
  - exact H.
Qed.

Lemma trim_list (s : string) :
  list_ascii_of_string (Core.trim s)
  = rev (Core.stripWhite true
           (rev (Core.stripWhite false (list_ascii_of_string s)))).
Proof. unfold Core.trim. apply list_ascii_of_string_of_list_ascii. Qed.

Lemma trim_idempotent (s : string) : Core.trim (Core.trim s) = Core.trim s.
Proof.
  unfold Core.trim at 1. rewrite trim_list.
  set (t := Core.stripWhite false (list_ascii_of_string s)).
  destruct (stripWhite_spec false _ (list_ascii_of_string s) (Nat.le_refl _))
    as (p0 & _ & _ & Ht). fold t in Ht.
  destruct (stripWhite_spec true _ (rev t) (Nat.le_refl _))
    as (p & Hp & _ & Hu).
  set (u := Core.stripWhite true (rev t)) in *.
  assert (Hr : Props.unstripped false (rev u) = true).
  { apply (unstripped_prefix false (rev u) (rev p)).
    rewrite <- rev_app_distr, <- Hp, rev_involutive. exact Ht. }
  rewrite (stripWhite_unstripped false _ Hr), rev_involutive.
  rewrite (stripWhite_unstripped true _ Hu).
  unfold Core.trim. fold t. fold u. reflexivity.
Qed.

Lemma trim_keeps (s : string) (c : ascii) :
  In c (list_ascii_of_string s) ->
  Core.white1 c = false -> (nat_of_ascii c < 128)%nat ->
  In c (list_ascii_of_string (Core.trim s)).
Proof.
  intros Hin Hw Hc. rewrite trim_list.
  set (t := Core.stripWhite false (list_ascii_of_string s)).
  destruct (stripWhite_spec false _ (list_ascii_of_string s) (Nat.le_refl _))
    as (p0 & Hp0 & Hall0 & _). fold t in Hp0.
  destruct (stripWhite_spec true _ (rev t) (Nat.le_refl _))
    as (p & Hp & Hall & _).
  set (u := Core.stripWhite true (rev t)) in *.
  assert (Hnot : forall q, Forall (fun c => Core.white1 c = true
                     \/ (128 <= nat_of_ascii c)%nat) q -> ~ In c q).
  { intros q Hq Hcq. rewrite Forall_forall in Hq.
    apply list_elem_of_In in Hcq.
    destruct (Hq c Hcq) as [H|H]; [congruence|lia]. }
  rewrite Hp0 in Hin. apply in_app_or in Hin as [Hin|Hin];
    [exfalso; exact (Hnot _ Hall0 Hin)|].
  apply in_rev in Hin. rewrite Hp in Hin.
  apply in_app_or in Hin as [Hin|Hin];
    [exfalso; exact (Hnot _ Hall Hin)|].
  apply in_rev. rewrite rev_involutive. exact Hin.
Qed.

Lemma nameTest_valid (s : string) :
  Core.nameTest s = true <-> Props.ValidName s.
Proof.
  unfold Core.nameTest, Props.ValidName.
  rewrite !andb_true_iff, !Nat.leb_le, forallb_forall. tauto.
Qed.

(** [sanitizeName] returns the empty string or the trimmed name, which is
    then valid. *)
Lemma sanitizeName_empty_or_valid (name : string) :
  Core.sanitizeName name = EmptyString
  \/ (Core.sanitizeName name = Core.trim name
      /\ Props.ValidName (Core.sanitizeName name)).
Proof.
  unfold Core.sanitizeName. destruct (Core.nameTest (Core.trim name)) eqn:E.
  - right. split; [reflexivity|]. apply nameTest_valid, E.
  - left. reflexivity.
Qed.

(** X2.  Sanitizing a sanitized name changes nothing: what the save button
    stores under the player name is accepted again, as it is, by the start
    button. *)
Theorem sanitizeName_idempotent (name : string) :
  Core.sanitizeName (Core.sanitizeName name) = Core.sanitizeName name.
Proof.
  unfold Core.sanitizeName. cbn zeta.
  destruct (Core.nameTest (Core.trim name)) eqn:E; [|reflexivity].
  rewrite trim_idempotent, E. reflexivity.
Qed.

(** X3.  A name holding an ASCII character that is neither white space nor
    one of A-Z, a-z, 0-9, underscore and space is rejected as a whole,
    wherever the character stands: nothing is removed to make the name
    valid. *)
Theorem sanitizeName_rejects (name : string) (c : ascii) :
  In c (list_ascii_of_string name) ->
  Core.nameChar c = false -> Core.white1 c = false ->
  (nat_of_ascii c < 128)%nat ->
  Core.sanitizeName name = EmptyString.
Proof.
  intros Hin Hn Hw Hc. unfold Core.sanitizeName.
  destruct (Core.nameTest (Core.trim name)) eqn:E; [|reflexivity].
  apply nameTest_valid in E as [_ Hall].
  pose proof (Hall c (trim_keeps name c Hin Hw Hc)). congruence.
Qed.

Lemma sanitizeName_rejects_witness :
  Core.sanitizeName "Ann <b>" = EmptyString.
Proof.
  apply (sanitizeName_rejects "Ann <b>" "<").
  - simpl. tauto.
  - reflexivity.
  - reflexivity.
  - vm_compute. lia.
Defined.

(** ** Names need no escaping *)

Lemma nameChar_plain (c : ascii) :
  Core.nameChar c = true -> Core.entity c = None.
Proof.
  destruct c as [b0 b1 b2 b3 b4 b5 b6 b7].
  destruct b0, b1, b2, b3, b4, b5, b6, b7; vm_compute;
    first [reflexivity | discriminate].
Qed.

Lemma escapeHtml_plain (s : string) :
  (forall c, In c (list_ascii_of_string s) -> Core.entity c = None) ->
  Core.escapeHtml s = s.
Proof.
  induction s as [|a r IH]; intros H; [reflexivity|].
  cbn [Core.escapeHtml]. rewrite (H a (or_introl eq_refl)).
  f_equal. apply IH. intros c Hc. apply H. right. exact Hc.
Qed.

(** X4.  [escapeHtml] leaves every result of [sanitizeName] as it is: a
    sanitized name holds none of the five characters the scoreboard
    escapes. *)
Theorem sanitized_name_needs_no_escaping (name : string) :
  Core.escapeHtml (Core.sanitizeName name) = Core.sanitizeName name.
Proof.
  unfold Core.sanitizeName.
  destruct (Core.nameTest (Core.trim name)) eqn:E; [|reflexivity].
  apply nameTest_valid in E as [_ Hall].
  apply escapeHtml_plain. intros c Hc. apply nameChar_plain, Hall, Hc.
Qed.

(** ** escapeHtml loses nothing *)

Lemma entity_inv (c : ascii) (e : string) :
  Core.entity c = Some e ->
  (c = "&"%char /\ e = "&amp;") \/ (c = "<"%char /\ e = "&lt;")
  \/ (c = ">"%char /\ e = "&gt;") \/ (c = "034"%char /\ e = "&quot;")
  \/ (c = "'"%char /\ e = "&#39;").
Proof.
  unfold Core.entity.
  destruct (Ascii.eqb_spec c "&"); [intros [= <-]; auto|].
  destruct (Ascii.eqb_spec c "<"); [intros [= <-]; auto|].
  destruct (Ascii.eqb_spec c ">"); [intros [= <-]; auto 6|].
  destruct (Ascii.eqb_spec c "034"); [intros [= <-]; auto 7|].
  destruct (Ascii.eqb_spec c "'"); [intros [= <-]; auto 8|].
  discriminate.
Qed.

Lemma entity_none_not_amp (c : ascii) :
  Core.entity c = None -> c <> "&"%char.
Proof. intros H ->. discriminate. Qed.

(** X5.  [escapeHtml] loses nothing: two strings with the same escaped text
    are the same string. *)
Theorem escapeHtml_injective (s1 s2 : string) :
  Core.escapeHtml s1 = Core.escapeHtml s2 -> s1 = s2.
Proof.
  revert s2. induction s1 as [|c1 r1 IH]; intros [|c2 r2] H.
  - reflexivity.
  - exfalso. cbn [Core.escapeHtml] in H.
    destruct (Core.entity c2) as [e|] eqn:E; [|discriminate].
    apply entity_inv in E.
    destruct E as [[_ ->]|[[_ ->]|[[_ ->]|[[_ ->]|[_ ->]]]]]; discriminate.
  - exfalso. cbn [Core.escapeHtml] in H.
    destruct (Core.entity c1) as [e|] eqn:E; [|discriminate].
    apply entity_inv in E.
    destruct E as [[_ ->]|[[_ ->]|[[_ ->]|[[_ ->]|[_ ->]]]]]; discriminate.
  - cbn [Core.escapeHtml] in H.
    destruct (Core.entity c1) as [e1|] eqn:E1;
      destruct (Core.entity c2) as [e2|] eqn:E2.
    + apply entity_inv in E1, E2.
      destruct E1 as [[-> ->]|[[-> ->]|[[-> ->]|[[-> ->]|[-> ->]]]]];
        destruct E2 as [[-> ->]|[[-> ->]|[[-> ->]|[[-> ->]|[-> ->]]]]];
        try discriminate;
        (f_equal; apply IH; apply (String.app_inj _ _ _ H)).
    + exfalso. apply entity_none_not_amp in E2. apply entity_inv in E1.
      destruct E1 as [[_ ->]|[[_ ->]|[[_ ->]|[[_ ->]|[_ ->]]]]];
        injection H as H1 _; congruence.
    + exfalso. apply entity_none_not_amp in E1. apply entity_inv in E2.
      destruct E2 as [[_ ->]|[[_ ->]|[[_ ->]|[[_ ->]|[_ ->]]]]];
        injection H as H1 _; congruence.
    + injection H as -> H. f_equal. apply IH, H.
Qed.

(** ** timeAgo *)

(** X6.  [timeAgo] in terms of the age in milliseconds, which is the
    reading of the clock minus the timestamp: whole seconds below one
    minute, whole minutes below one hour, whole hours below one day, whole
    days from there on, each rounded down. *)
Theorem timeAgo_units (now ts : Z) :
  let age := now - ts in
  Core.timeAgo now ts
  = if age <? 60000 then pretty (age / 1000) +:+ "s ago"
    else if age <? 3600000 then pretty (age / 60000) +:+ "m ago"
    else if age <? 86400000 then pretty (age / 3600000) +:+ "h ago"
    else pretty (age / 86400000) +:+ "d ago".
Proof.
  intros age. unfold Core.timeAgo, Core.numberToString.
  rewrite or_zero_id. fold age.
  rewrite !Z.div_div by lia. cbn [Z.mul Pos.mul].
  change (1000 * 60) with 60000. 
  assert (H1 : (age / 1000 <? 60) = (age <? 60000)).
  { apply eq_true_iff_eq. rewrite !Z.ltb_lt.
    split; intros H.
    - apply Z.nle_gt. intros Hge. apply (Z.div_le_mono _ _ 1000) in Hge; [|lia].
      change (60000 / 1000) with 60 in Hge. lia.
    - apply Z.div_lt_upper_bound; lia. }
  assert (H2 : (age / 60000 <? 60) = (age <? 3600000)).
  { apply eq_true_iff_eq. rewrite !Z.ltb_lt.
    split; intros H.
    - apply Z.nle_gt. intros Hge. apply (Z.div_le_mono _ _ 60000) in Hge; [|lia].
      change (3600000 / 60000) with 60 in Hge. lia.
    - apply Z.div_lt_upper_bound; lia. }
  assert (H3 : (age / 3600000 <? 24) = (age <? 86400000)).
  { apply eq_true_iff_eq. rewrite !Z.ltb_lt.
    split; intros H.
    - apply Z.nle_gt. intros Hge. apply (Z.div_le_mono _ _ 3600000) in Hge; [|lia].
      change (86400000 / 3600000) with 24 in Hge. lia.
    - apply Z.div_lt_upper_bound; lia. }
  change (60000 * 60) with 3600000. change (3600000 * 24) with 86400000.
  rewrite H1, H2, H3. reflexivity.
Qed.

(** ** saveScore: what the write keeps *)

Section SortPerm.
Context {A : Type} (cmp : A -> A -> Z).

Lemma sort_insert_perm (x : A) (l : list A) :
  Js.sort_insert cmp x l ≡ₚ x :: l.
Proof.
  induction l as [|y r IH]; simpl; [reflexivity|].
  destruct (cmp x y <=? 0); [reflexivity|].
  rewrite IH. apply Permutation_swap.
Qed.

Lemma sort_perm (l : list A) : Js.sort cmp l ≡ₚ l.
Proof.
  unfold Js.sort. induction l as [|x r IH]; simpl; [reflexivity|].
  rewrite sort_insert_perm, IH. reflexivity.
Qed.
End SortPerm.

(** X7.  The board [saveScore] writes holds ten entries, or all of them when
    the old board and the new entry are fewer; together with the entries it
    drops it is a rearrangement of the old board and the new entry, and no
    dropped entry has a higher score than a kept one. *)
Theorem saveScore_keeps_ten_best (mode name : string) (score now : Z)
    (ls : Core.Storage) :
  let old := Core.loadScores mode ls in
  let board :=
    Core.loadScores mode (Core.saveScore mode name score now ls).1 in
  length board = Nat.min 10 (length old + 1)
  /\ exists dropped,
      old ++ [Core.mkEntry name score now] ≡ₚ board ++ dropped
      /\ forall kept gone, kept ∈ board -> gone ∈ dropped ->
                           Core.score gone <= Core.score kept.
Proof.
  intros old board. unfold board. rewrite loadScores_saveScore_same. fold old.
  set (sorted := Js.sort Core.by_score_desc (old ++ [Core.mkEntry name score now])).
  split.
  - rewrite length_take. unfold sorted. rewrite length_sort, length_app.
    cbn [length]. lia.
  - exists (drop 10 sorted). split.
    + rewrite take_drop. unfold sorted. symmetry. apply sort_perm.
    + intros kept gone Hk Hg.
      pose proof (sort_sorted (old ++ [Core.mkEntry name score now])) as Hs.
      fold sorted in Hs. rewrite <- (take_drop 10 sorted) in Hs.
      exact (StronglySorted_app_1_elem_of _ _ _ _ _ Hs Hk Hg).
Qed.

Lemma atLeast_none (n : Z) (r : list Core.ScoreEntry) :
  Forall (fun y => Core.score y < n) r -> Props.atLeast n r = [].
Proof.
  induction 1 as [|y r Hy Hr IH]; [reflexivity|].
  unfold Props.atLeast in *. cbn [List.filter].
  replace (n <=? Core.score y) with false by (symmetry; apply Z.leb_gt; lia).
  exact IH.
Qed.

Lemma below_all (n : Z) (r : list Core.ScoreEntry) :
  Forall (fun y => Core.score y < n) r -> Props.below n r = r.
Proof.
  induction 1 as [|y r Hy Hr IH]; [reflexivity|].
  unfold Props.below in *. cbn [List.filter].
  replace (Core.score y <? n) with true by (symmetry; apply Z.ltb_lt; lia).
  f_equal. exact IH.
Qed.

Lemma atLeast_all (n : Z) (r : list Core.ScoreEntry) :
  Forall (fun y => n <= Core.score y) r -> Props.atLeast n r = r.
Proof.
  induction 1 as [|y r Hy Hr IH]; [reflexivity|].
  unfold Props.atLeast in *. cbn [List.filter].
  replace (n <=? Core.score y) with true by (symmetry; apply Z.leb_le; lia).
  f_equal. exact IH.
Qed.

(** Where the new entry lands in a sorted leaderboard. *)
Lemma sort_snoc_sorted (l : list Core.ScoreEntry) (e : Core.ScoreEntry) :
  StronglySorted Props.above l ->
  Js.sort Core.by_score_desc (l ++ [e])
  = Props.atLeast (Core.score e) l ++ e :: Props.below (Core.score e) l.
Proof.
  unfold Js.sort. rewrite foldr_app. cbn [foldr Js.sort_insert].
  induction 1 as [|x r Hr IH Hx]; [reflexivity|].
  cbn [foldr]. rewrite IH. unfold Props.atLeast, Props.below.
  cbn [List.filter].
  destruct (Z.leb_spec (Core.score e) (Core.score x)) as [Hle|Hlt].
  - replace (Core.score x <? Core.score e) with false
      by (symmetry; apply Z.ltb_ge; lia).
    destruct (List.filter _ r) as [|y hi] eqn:Ehi; cbn [app Js.sort_insert].
    + replace (Core.by_score_desc x e <=? 0) with true; [reflexivity|].
      symmetry. apply Z.leb_le, by_score_desc_le. exact Hle.
    + replace (Core.by_score_desc x y <=? 0) with true; [reflexivity|].
      symmetry. apply Z.leb_le, by_score_desc_le.
      rewrite Forall_forall in Hx. apply Hx.
      assert (Hy : In y (List.filter (fun e0 => Core.score e <=? Core.score e0) r))
        by (rewrite Ehi; left; reflexivity).
      apply filter_In in Hy as [Hy _]. apply list_elem_of_In. exact Hy.
  - replace (Core.score x <? Core.score e) with true
      by (symmetry; apply Z.ltb_lt; lia).
    assert (Hall : Forall (fun y => Core.score y < Core.score e) r).
    { eapply Forall_impl; [exact Hx|]. unfold Props.above. intros y Hy. lia. }
    pose proof (atLeast_none _ _ Hall) as Hhi.
    pose proof (below_all _ _ Hall) as Hlo.
    unfold Props.atLeast, Props.below in Hhi, Hlo.
    rewrite Hhi, Hlo. cbn [app Js.sort_insert].
    replace (Core.by_score_desc x e <=? 0) with false.
    2:{ symmetry. apply Z.leb_gt. unfold Core.by_score_desc.
        rewrite !or_zero_id. lia. }
    f_equal. destruct r as [|y r']; [reflexivity|]. cbn [Js.sort_insert].
    replace (Core.by_score_desc x y <=? 0) with true; [reflexivity|].
    symmetry. apply Z.leb_le, by_score_desc_le.
    apply Forall_cons in Hx as [Hy _]. exact Hy.
Qed.

Lemma NonIncreasing_sorted (l : list Core.ScoreEntry) :
  Props.NonIncreasing l -> StronglySorted Props.above l.
Proof.
  induction l as [|x r IH]; intros H; constructor.
  - apply IH. intros i j a b Hij Ha Hb.
    apply (H (S i) (S j) a b); [lia|exact Ha|exact Hb].
  - apply Forall_forall. intros y Hy.
    apply list_elem_of_lookup in Hy as [j Hj].
    apply (H 0%nat (S j) x y); [lia|reflexivity|exact Hj].
Qed.

Lemma saveScore_board_sorted (mode name : string) (score now : Z)
    (ls : Core.Storage) :
  Props.NonIncreasing (Core.loadScores mode ls) ->
  Core.loadScores mode (Core.saveScore mode name score now ls).1
  = take 10 (Props.atLeast score (Core.loadScores mode ls)
             ++ Core.mkEntry name score now
                :: Props.below score (Core.loadScores mode ls)).
Proof.
  intros H. rewrite loadScores_saveScore_same.
  rewrite sort_snoc_sorted by (apply NonIncreasing_sorted, H). reflexivity.
Qed.

(** X8.  On a board in descending order the new entry is placed after every
    entry whose score is at least its own and before every entry of lower
    score, the old entries keep their order, and the first ten are kept. *)
Theorem saveScore_places_after_ties (mode name : string) (score now : Z)
    (ls : Core.Storage) :
  Props.NonIncreasing (Core.loadScores mode ls) ->
  Core.loadScores mode (Core.saveScore mode name score now ls).1
  = take 10 (Props.atLeast score (Core.loadScores mode ls)
             ++ Core.mkEntry name score now
                :: Props.below score (Core.loadScores mode ls)).
Proof. apply saveScore_board_sorted. Qed.

(** X9.  A score that does not beat any entry of a full board in descending
    order leaves the board as it was, and is not reported as a new best. *)
Theorem saveScore_full_board_unchanged (mode name : string) (score now : Z)
    (ls : Core.Storage) :
  Props.NonIncreasing (Core.loadScores mode ls) ->
  length (Core.loadScores mode ls) = 10%nat ->
  (forall e, e ∈ Core.loadScores mode ls -> score <= Core.score e) ->
  Core.loadScores mode (Core.saveScore mode name score now ls).1
  = Core.loadScores mode ls
  /\ (Core.saveScore mode name score now ls).2 = false.
Proof.
  intros Hs Hlen Hlow. split.
  - rewrite saveScore_board_sorted by exact Hs.
    rewrite atLeast_all by (apply Forall_forall; exact Hlow).
    rewrite take_app_le by lia. apply firstn_all2. lia.
  - unfold Core.saveScore. cbn [snd].
    destruct (Core.loadScores mode ls) as [|top r]; [discriminate|].
    apply Z.ltb_ge, Hlow. left.
Qed.

(** X10.  When [saveScore] reports a new best on a board in descending
    order, the new entry is written at rank one, followed by the first nine
    of the old entries, and its score is higher than every old score. *)
Theorem saveScore_new_best_ranks_first (mode name : string) (score now : Z)
    (ls : Core.Storage) :
  Props.NonIncreasing (Core.loadScores mode ls) ->
  (Core.saveScore mode name score now ls).2 = true ->
  Core.loadScores mode (Core.saveScore mode name score now ls).1
  = Core.mkEntry name score now :: take 9 (Core.loadScores mode ls)
  /\ forall e, e ∈ Core.loadScores mode ls -> Core.score e < score.
Proof.
  intros Hs Hbest.
  assert (Hall : Forall (fun y => Core.score y < score)
                   (Core.loadScores mode ls)).
  { unfold Core.saveScore in Hbest. cbn [snd] in Hbest.
    apply NonIncreasing_sorted in Hs.
    destruct (Core.loadScores mode ls) as [|top r]; [constructor|].
    apply Z.ltb_lt in Hbest. apply StronglySorted_inv in Hs as [_ Hr].
    constructor; [exact Hbest|].
    eapply Forall_impl; [exact Hr|]. unfold Props.above. intros y Hy. lia. }
  split.
  - rewrite saveScore_board_sorted by exact Hs.
    rewrite atLeast_none, below_all by exact Hall. reflexivity.
  - apply Forall_forall, Hall.
Qed.

(** X11.  On a slot that is missing or that JSON.parse rejects, [saveScore]
    writes a board holding the new entry alone, and reports a new best
    exactly when the score is positive. *)
Theorem saveScore_recovers_slot (mode name : string) (score now : Z)
    (ls : Core.Storage) :
  ls !! Core.score_key mode = None
  \/ ls !! Core.score_key mode = Some Core.Unparsable ->
  Core.loadScores mode (Core.saveScore mode name score now ls).1
  = [Core.mkEntry name score now]
  /\ (Core.saveScore mode name score now ls).2 = (0 <? score).
Proof.
  intros H.
  assert (Hold : Core.loadScores mode ls = []).
  { unfold Core.loadScores. destruct H as [-> | ->]; reflexivity. }
  split.
  - rewrite loadScores_saveScore_same, Hold. reflexivity.
  - unfold Core.saveScore. cbn [snd]. rewrite Hold. reflexivity.
Qed.

(** ** Laugh mode: bounds of a round *)

(** The laughter probability of a tick lies between 0 and 1. *)
Lemma tickProbability_bounds (r : Laugh.Classification) :
  (0 <= Laugh.tickProbability r /\ Laugh.tickProbability r <= 1)%Q.
Proof.
  unfold Laugh.tickProbability.
  match goal with
  | |- context [Core.clamp ?p 0 1] =>
      pose proof (clamp_bounds p 0 1 ltac:(lra)) as H
  end.
  exact H.
Qed.

Section LaughBounds.
Variable Math_sqrt : Q -> Q.
Variable playerName : string.
Local Open Scope Q_scope.

Lemma tickPenalty_bounds (baseline : Q) (data : list Q) :
  0 <= Laugh.tickPenalty Math_sqrt baseline data
  /\ Laugh.tickPenalty Math_sqrt baseline data <= 0.03.
Proof.
  unfold Laugh.tickPenalty. destruct (Js.gt _ _) eqn:E; [|lra].
  apply Js_gt_true in E.
  match goal with
  | |- context [Js.Math_min ?a ?b] =>
      destruct (Math_min_bounds a b) as (H1 & H2 & [H3|H3])
  end; split; lra.
Qed.

Lemma tickVars_streak (b : Q) (inp : Laugh.TickInput) (v : Laugh.Vars) :
  (0 <= Laugh.streak v)%Z ->
  (0 <= Laugh.streakBonus v)%Z ->
  (4 * Laugh.streakBonus v + Z.rem (Laugh.streak v) 4 <= Laugh.frameCount v)%Z ->
  let v' := Laugh.tickVars Math_sqrt b inp v in
  (0 <= Laugh.streak v')%Z /\ (0 <= Laugh.streakBonus v')%Z
  /\ (4 * Laugh.streakBonus v' + Z.rem (Laugh.streak v') 4
      <= Laugh.frameCount v')%Z.
Proof.
  intros Hs Hb Hinv. unfold Laugh.tickVars.
  rewrite Z.rem_mod_nonneg in Hinv by lia.
  destruct (Js.ge _ _); cbn [Laugh.streak Laugh.streakBonus Laugh.frameCount].
  - rewrite Z.rem_mod_nonneg by lia.
    destruct (Z.ltb_spec 0 (Laugh.streak v + 1)); [|lia]. cbn [andb].
    destruct (Z.eqb_spec ((Laugh.streak v + 1) mod 4) 0) as [E|E];
      split; try lia; split; try lia;
      Z.to_euclidean_division_equations; lia.
  - rewrite Z.rem_0_l by lia. Z.to_euclidean_division_equations. lia.
Qed.

Lemma fresh_Bounded (s : Laugh.State) :
  Laugh.vars s = Laugh.freshVars -> Laugh.emaLaughProb s == 0 ->
  Props.Bounded s.
Proof.
  intros Hv He. split; rewrite ?Hv;
    cbn [Laugh.freshVars Laugh.laughProbSum Laugh.frameCount Laugh.loudPenalty
         Laugh.streak Laugh.streakBonus Laugh.elapsedTime];
    change (inject_Z 0) with 0; try (split; lra); try lia.
  split; [lia|reflexivity].
Qed.

Lemma stopRound_fields (name : string) (score now : Z) (s : Laugh.State) :
  let s' := (Laugh.stopRound name score now s).1 in
  Laugh.vars s' = Laugh.vars s
  /\ Laugh.emaLaughProb s' = Laugh.emaLaughProb s
  /\ Laugh.baselineRMS s' = Laugh.baselineRMS s
  /\ (Laugh.isRoundRunning s' = true -> Laugh.isRoundRunning s = false).
Proof.
  unfold Laugh.stopRound. destruct (Laugh.isRoundRunning s) eqn:Hrun.
  - cbn [negb]. destruct (Core.saveScore _ _ _ _ _) as [st best].
    destruct best; cbn; repeat split; try discriminate.
  - cbn. repeat split; congruence.
Qed.

Lemma tick_Bounded (inp : Laugh.TickInput) (s : Laugh.State) :
  Props.Bounded s ->
  Props.Bounded (Laugh.gameLoopTick Math_sqrt playerName inp s).1.
Proof.
  intros H. destruct (Laugh.isRoundRunning s) eqn:Hrun.
  2:{ unfold Laugh.gameLoopTick. rewrite Hrun. exact H. }
  unfold Laugh.gameLoopTick. rewrite Hrun. cbn [negb].
  set (v := Laugh.tickVars Math_sqrt (Laugh.baselineRMS s) inp (Laugh.vars s)).
  set (p := Laugh.tickProbability (Laugh.outcome inp)).
  match goal with
  | |- context [Ui.andThen (?st, ?o) _] => set (s1 := st); set (log := o)
  end.
  assert (G5 : Laugh.vars s1 = v) by reflexivity.
  assert (Gema : Laugh.emaLaughProb s1
                 = Laugh.EMA_ALPHA * (p * 100)
                   + (1 - Laugh.EMA_ALPHA) * Laugh.emaLaughProb s)
    by reflexivity.
  assert (G1 : Laugh.isRoundRunning s1 = true) by reflexivity.
  clearbody s1 log.
  destruct H as [B1 B2 B3 B4 B5 B6 B7 B8]. specialize (B3 Hrun).
  pose proof (tickProbability_bounds (Laugh.outcome inp)) as Hp.
  fold p in Hp.
  pose proof (tickPenalty_bounds (Laugh.baselineRMS s) (Laugh.rmsData inp))
    as Hpen.
  pose proof (tickVars_streak (Laugh.baselineRMS s) inp (Laugh.vars s)
                B6 (proj1 B7) (proj2 B7)) as (S1 & S2 & S3).
  fold v in S1, S2, S3.
  assert (F1 : 0 <= Laugh.laughProbSum v
               /\ Laugh.laughProbSum v <= inject_Z (Laugh.frameCount v)).
  { unfold v. rewrite tickVars_sum, tickVars_count. fold p.
    rewrite inject_Z_plus. change (inject_Z 1) with 1. lra. }
  assert (F2 : (Laugh.frameCount v = Laugh.frameCount (Laugh.vars s) + 1)%Z)
    by apply tickVars_count.
  assert (F4 : (Laugh.elapsedTime v = 250 * Laugh.frameCount v)%Z).
  { unfold v. rewrite tickVars_elapsed, tickVars_count. lia. }
  assert (F5 : 0 <= Laugh.loudPenalty v
               /\ Laugh.loudPenalty v <= 0.03 * inject_Z (Laugh.frameCount v)).
  { unfold v. rewrite tickVars_penalty, tickVars_count.
    rewrite inject_Z_plus. change (inject_Z 1) with 1. lra. }
  assert (F8 : 0 <= Laugh.emaLaughProb s1 /\ Laugh.emaLaughProb s1 <= 100).
  { rewrite Gema. unfold Laugh.EMA_ALPHA. split; lra. }
  destruct (Z.leb_spec Laugh.ROUND_DURATION (Laugh.elapsedTime v)) as [Hend|Hgo].
  - rewrite andThen_pair. cbn [fst].
    destruct (stopRound_fields playerName (Laugh.joyRank v) (Laugh.tickNow inp)
                s1) as (E1 & E2 & _ & E4).
    cbn zeta in E1, E2, E4.
    split; rewrite ?E1, ?E2, ?G5; try assumption; try lia;
      try (split; assumption);
      try (intros Hr; apply E4 in Hr; congruence).
  - cbn [fst]. unfold Laugh.ROUND_DURATION in Hgo.
    split; rewrite ?G5; try assumption; try lia; try (split; assumption).
Qed.

Lemma step_Bounded (a : Laugh.Action) (s : Laugh.State) :
  Props.Bounded s ->
  Props.Bounded (Laugh.step Math_sqrt playerName a s).1.
Proof.
  intros H. destruct a as [inp|now]; cbn [Laugh.step].
  - destruct (Laugh.gameLoop s); [apply tick_Bounded, H|exact H].
  - unfold Laugh.stopClick.
    destruct (stopRound_fields playerName 0 now s) as (E1 & E2 & _ & E4).
    cbn zeta in E1, E2, E4. destruct H as [B1 B2 B3 B4 B5 B6 B7 B8].
    split; rewrite ?E1, ?E2; try assumption.
    intros Hr. apply B3. destruct (Laugh.isRoundRunning s) eqn:Hrun;
      [reflexivity|].
    rewrite laugh_stopRound_stopped in Hr by assumption. cbn in Hr. congruence.
Qed.

Lemma run_Bounded (s : Laugh.State) (acts : list Laugh.Action) :
  Props.Bounded s ->
  Props.Bounded (Laugh.run Math_sqrt playerName s acts).1.
Proof.
  intros H. induction acts as [|a acts IH] using rev_ind; [exact H|].
  unfold Laugh.run in *. rewrite runAll_snoc.
  destruct (Ui.runAll _ s acts) as [s1 out1]. cbn [fst] in IH.
  rewrite andThen_pair. cbn [fst]. apply step_Bounded, IH.
Qed.

Lemma started_Bounded (start : Laugh.StartInput) (s s0 : Laugh.State)
    (out : list Ui.Call) :
  Laugh.startLaughRound Math_sqrt start s = (s0, out, None) ->
  Props.Bounded s0.
Proof.
  intros H.
  assert (He : Laugh.emaLaughProb s0 = 0).
  { revert H. unfold Laugh.startLaughRound, Laugh.ensureClassifier.
    cbn [Laugh.cleanupAudio Laugh.audioClassifier].
    destruct (Laugh.audioClassifier s);
      destruct (Laugh.classifierFails start);
      destruct (Laugh.microphoneFails start); intros H;
      try discriminate; injection H as <- _; reflexivity. }
  apply startLaughRound_started in H as (_ & _ & Hv & _).
  apply fresh_Bounded; [exact Hv|rewrite He; reflexivity].
Qed.

End LaughBounds.

Lemma joyRank_bounds (v : Laugh.Vars) :
  (0 <= Laugh.laughProbSum v)%Q ->
  (Laugh.laughProbSum v <= inject_Z (Laugh.frameCount v))%Q ->
  1 <= Laugh.frameCount v <= 40 ->
  (0 <= Laugh.loudPenalty v)%Q ->
  0 <= Laugh.streakBonus v -> 4 * Laugh.streakBonus v <= Laugh.frameCount v ->
  0 <= Laugh.joyRank v <= 120.
Proof.
  intros Hs0 Hs1 Hc Hp Hb0 Hb1. unfold Laugh.joyRank.
  set (n := inject_Z (Laugh.frameCount v)).
  assert (Hn : (1 <= n /\ n <= 40)%Q).
  { unfold n. split.
    - change 1%Q with (inject_Z 1). rewrite <- Zle_Qle. lia.
    - change 40%Q with (inject_Z 40). rewrite <- Zle_Qle. lia. }
  assert (Hm : (0 <= Laugh.laughProbSum v / n /\ Laugh.laughProbSum v / n <= 1)%Q).
  { split.
    - apply Qle_shift_div_l; [lra|]. rewrite Qmult_0_l. exact Hs0.
    - apply Qle_shift_div_r; [lra|]. rewrite Qmult_1_l. exact Hs1. }
  assert (Hbq : (0 <= inject_Z (Laugh.streakBonus v)
                 /\ inject_Z (Laugh.streakBonus v) <= 10)%Q).
  { split.
    - change 0%Q with (inject_Z 0). rewrite <- Zle_Qle. lia.
    - change 10%Q with (inject_Z 10). rewrite <- Zle_Qle. lia. }
  match goal with
  | |- context [Js.Math_max 0 ?x] =>
      destruct (Math_max_bounds 0 x) as (M1 & M2 & [M3|M3]);
      set (m := Js.Math_max 0 x) in *
  end.
  - split.
    + change 0 with (Js.Math_round 0). apply Math_round_mono. lra.
    + change 120 with (Js.Math_round 120). apply Math_round_mono. lra.
  - split.
    + change 0 with (Js.Math_round 0). apply Math_round_mono. lra.
    + change 120 with (Js.Math_round 120). apply Math_round_mono. lra.
Qed.

Section LaughRounds.
Variable Math_sqrt : Q -> Q.
Variable playerName : string.

(** One event of a bounded round writes at most one joy score, within
    0..120. *)
Lemma step_joy (a : Laugh.Action) (s : Laugh.State) :
  Props.Bounded s ->
  Forall (fun z => 0 <= z <= 120)
    (Props.integers (Ui.shown "joy" (Laugh.step Math_sqrt playerName a s).2)).
Proof.
  intros H. destruct a as [inp|now]; cbn [Laugh.step].
  - destruct (Laugh.gameLoop s); [|constructor].
    destruct (Laugh.isRoundRunning s) eqn:Hrun.
    2:{ unfold Laugh.gameLoopTick. rewrite Hrun. constructor. }
    pose proof (tick_Bounded Math_sqrt playerName inp s H) as Hb.
    destruct (tick_of_running Math_sqrt playerName s inp Hrun)
      as (s1 & log & G1 & G2 & G3 & G4 & G5 & G6 & G7).
    set (v := Laugh.tickVars Math_sqrt (Laugh.baselineRMS s) inp (Laugh.vars s))
      in *.
    assert (Hv : Laugh.vars (Laugh.gameLoopTick Math_sqrt playerName inp s).1 = v).
    { rewrite G7. destruct (_ <=? _).
      - rewrite andThen_pair. cbn [fst].
        destruct (stopRound_fields playerName (Laugh.joyRank v)
                    (Laugh.tickNow inp) s1) as (E1 & _).
        cbn zeta in E1. congruence.
      - exact G5. }
    assert (Hshown : Props.integers
                       (Ui.shown "joy"
                          (Laugh.gameLoopTick Math_sqrt playerName inp s).2)
                     = [Laugh.joyRank v]).
    { rewrite G7. destruct (_ <=? _).
      - rewrite andThen_pair. cbn [snd]. rewrite shown_app, G6.
        pose proof (laugh_stopRound_running playerName (Laugh.joyRank v)
                      (Laugh.tickNow inp) s1 G1) as (_ & _ & _ & _ & _ & K6).
        cbn zeta in K6. rewrite K6. reflexivity.
      - cbn [snd]. rewrite G6. reflexivity. }
    rewrite Hshown. constructor; [|constructor].
    destruct Hb as [B1 B2 B3 B4 B5 B6 B7 B8]. rewrite Hv in *.
    destruct H as [A1 A2 A3 A4 A5 A6 A7 A8].
    assert (Hc : Laugh.frameCount v = Laugh.frameCount (Laugh.vars s) + 1)
      by apply tickVars_count.
    assert (Hrem : 0 <= Z.rem (Laugh.streak v) 4).
    { apply Z.rem_nonneg; lia. }
    apply joyRank_bounds; try tauto; lia.
  - unfold Laugh.stopClick. destruct (Laugh.isRoundRunning s) eqn:Hrun.
    + pose proof (laugh_stopRound_running playerName 0 now s Hrun)
        as (_ & _ & _ & _ & _ & K6).
      cbn zeta in K6. rewrite K6. constructor.
    + rewrite laugh_stopRound_stopped by assumption. constructor.
Qed.

Lemma run_joy (s : Laugh.State) (acts : list Laugh.Action) :
  Props.Bounded s ->
  Forall (fun z => 0 <= z <= 120)
    (Props.integers (Ui.shown "joy" (Laugh.run Math_sqrt playerName s acts).2)).
Proof.
  intros H. induction acts as [|a acts IH] using rev_ind; [constructor|].
  pose proof (run_Bounded Math_sqrt playerName s acts H) as Hb.
  unfold Laugh.run in *. rewrite runAll_snoc.
  destruct (Ui.runAll _ s acts) as [s1 out1]. cbn [fst snd] in *.
  rewrite andThen_pair. cbn [snd]. rewrite shown_app, integers_app.
  apply Forall_app. split; [exact IH|]. apply step_joy, Hb.
Qed.

(** X12.  Every score a started laugh round writes to the joy meter, over
    any ticks and stop clicks, lies between 0 and 120. *)
Theorem laugh_scores_within_0_120 (start : Laugh.StartInput)
    (s s0 : Laugh.State) (out0 : list Ui.Call) (acts : list Laugh.Action) :
  Laugh.startLaughRound Math_sqrt start s = (s0, out0, None) ->
  forall z : Z,
    z ∈ Props.integers
          (Ui.shown "joy" (Laugh.run Math_sqrt playerName s0 acts).2) ->
    0 <= z <= 120.
Proof.
  intros Hstart z Hz.
  pose proof (run_joy s0 acts (started_Bounded Math_sqrt start s s0 out0 Hstart))
    as H.
  rewrite Forall_forall in H. apply H, Hz.
Qed.

(** X14.  In a started laugh round the streak bonus is never negative and
    at most one for every four ticks, so at most 10. *)
Theorem laugh_streak_bonus_bounded (start : Laugh.StartInput)
    (s s0 : Laugh.State) (out0 : list Ui.Call) (acts : list Laugh.Action) :
  Laugh.startLaughRound Math_sqrt start s = (s0, out0, None) ->
  let v := Laugh.vars (Laugh.run Math_sqrt playerName s0 acts).1 in
  0 <= Laugh.streakBonus v
  /\ 4 * Laugh.streakBonus v <= Laugh.frameCount v
  /\ Laugh.streakBonus v <= 10.
Proof.
  intros Hstart v.
  destruct (run_Bounded Math_sqrt playerName s0 acts
              (started_Bounded Math_sqrt start s s0 out0 Hstart))
    as [_ B2 _ _ _ B6 B7 _].
  fold v in B2, B6, B7.
  assert (Hrem : 0 <= Z.rem (Laugh.streak v) 4) by (apply Z.rem_nonneg; lia).
  lia.
Qed.

(** X15.  In a started laugh round the smoothed laughter probability, which
    the laugh meter shows, stays between 0 and 100. *)
Theorem laugh_meter_within_0_100 (start : Laugh.StartInput)
    (s s0 : Laugh.State) (out0 : list Ui.Call) (acts : list Laugh.Action) :
  Laugh.startLaughRound Math_sqrt start s = (s0, out0, None) ->
  (0 <= Laugh.emaLaughProb (Laugh.run Math_sqrt playerName s0 acts).1
   /\ Laugh.emaLaughProb (Laugh.run Math_sqrt playerName s0 acts).1 <= 100)%Q.
Proof.
  intros Hstart.
  destruct (run_Bounded Math_sqrt playerName s0 acts
              (started_Bounded Math_sqrt start s s0 out0 Hstart))
    as [_ _ _ _ _ _ _ B8].
  exact B8.
Qed.

End LaughRounds.

(** ** Laugh mode: the life of a round *)

Lemma andThen_fst {S : Type} (m : S * list Ui.Call)
    (f : S -> S * list Ui.Call) :
  (Ui.andThen m f).1 = (f m.1).1.
Proof. destruct m as [s out]. rewrite andThen_pair. reflexivity. Qed.

Section LaughLife.
Variable Math_sqrt : Q -> Q.
Variable playerName : string.

(** X16.  While no laugh round is running, ticks of the timer and clicks on
    the stop button change nothing: no counter, no score store entry, and no
    call of ui.js. *)
Theorem laugh_idle_ignores_events (s : Laugh.State)
    (acts : list Laugh.Action) :
  Laugh.isRoundRunning s = false ->
  Laugh.run Math_sqrt playerName s acts = (s, []).
Proof.
  intros H. induction acts as [|a acts IH] using rev_ind; [reflexivity|].
  unfold Laugh.run in *. rewrite runAll_snoc, IH, andThen_pair.
  rewrite laugh_step_stopped by exact H. reflexivity.
Qed.

Lemma laugh_step_keeps_stopped (a : Laugh.Action) (s : Laugh.State) :
  Laugh.isRoundRunning s = false ->
  Laugh.isRoundRunning (Laugh.step Math_sqrt playerName a s).1 = false.
Proof. intros H. rewrite laugh_step_stopped by exact H. exact H. Qed.

(** X17.  A started laugh round that is not stopped by hand is running
    after fewer than 40 ticks and is over from the 40th tick on. *)
Theorem laugh_round_lasts_40_ticks (start : Laugh.StartInput)
    (s s0 : Laugh.State) (out0 : list Ui.Call)
    (inputs : list Laugh.TickInput) :
  Laugh.startLaughRound Math_sqrt start s = (s0, out0, None) ->
  Laugh.isRoundRunning
    (Laugh.run Math_sqrt playerName s0 (Props.ticks inputs)).1
  = (length inputs <? 40)%nat.
Proof.
  intros Hstart.
  apply startLaughRound_started in Hstart as (Hrun & Hloop & Hvars & _).
  induction inputs as [|inp inputs IH] using rev_ind.
  - cbn. exact Hrun.
  - rewrite length_app. cbn [length].
    destruct (Nat.ltb_spec (length inputs + 1) 40) as [Hlt|Hge].
    + destruct (run_ticks_running Math_sqrt playerName s0 (inputs ++ [inp])
                  Hrun Hloop Hvars) as [H1 _ _ _ _ _ _ _].
      * rewrite length_app. cbn [length]. lia.
      * exact H1.
    + unfold Props.ticks, Laugh.run in *. rewrite map_app. cbn [map].
      rewrite runAll_snoc, andThen_fst.
      destruct (Nat.ltb_spec (length inputs) 40) as [H39|H40].
      * destruct (run_ticks_running Math_sqrt playerName s0 inputs
                    Hrun Hloop Hvars H39) as [H1 H2 _ _ _ _ _ H8].
        unfold Props.ticks, Laugh.run in *.
        set (s39 := (Ui.runAll _ s0 (map Laugh.Tick inputs)).1) in *.
        cbn [Laugh.step]. rewrite H2.
        destruct (tick_of_running Math_sqrt playerName s39 inp H1)
          as (s1 & log & G1 & _ & _ & _ & G5 & _ & G7).
        rewrite G7.
        replace (Laugh.ROUND_DURATION <=? _) with true.
        2:{ symmetry. apply Z.leb_le. rewrite tickVars_elapsed, H8.
            unfold Laugh.ROUND_DURATION. lia. }
        rewrite andThen_pair. cbn [fst].
        match goal with
        | |- context [Laugh.stopRound ?n ?f ?t s1] =>
            pose proof (laugh_stopRound_running n f t s1 G1) as (K1 & _)
        end.
        exact K1.
      * apply laugh_step_keeps_stopped. exact IH.
Qed.

(** The two ways [startLaughRound] ends: it throws what the classifier or
    the microphone threw and leaves the round stopped, or it leaves a
    calibrated round running on fresh counters. *)
Lemma startLaughRound_outcomes (start : Laugh.StartInput)
    (s : Laugh.State) :
  let r := Laugh.startLaughRound Math_sqrt start s in
  Laugh.localStorage r.1.1 = Laugh.localStorage s
  /\ match r.2 with
     | Some err =>
         Laugh.isRoundRunning r.1.1 = false
         /\ Laugh.audioOpen r.1.1 = false
         /\ Laugh.vars r.1.1 = Laugh.vars s
         /\ (Laugh.classifierFails start = Some err
             \/ Laugh.microphoneFails start = Some err)
     | None =>
         Laugh.isRoundRunning r.1.1 = true
         /\ Laugh.audioOpen r.1.1 = true
         /\ Laugh.vars r.1.1 = Laugh.freshVars
         /\ Laugh.emaLaughProb r.1.1 = 0%Q
         /\ Laugh.baselineRMS r.1.1
            = Laugh.calibrate Math_sqrt (Laugh.calibStart start)
                (Laugh.calibPolls start)
     end.
Proof.
  unfold Laugh.startLaughRound, Laugh.ensureClassifier.
  cbn [Laugh.cleanupAudio Laugh.audioClassifier].
  destruct (Laugh.audioClassifier s);
    destruct (Laugh.classifierFails start);
    destruct (Laugh.microphoneFails start); cbn; auto 10.
Qed.

End LaughLife.

(** ** The ring buffer *)

Lemma writeSample_slice (ring : Laugh.Ring) (x : Q) :
  (Laugh.ringBufferIndex ring < length (Laugh.ringBuffer ring))%nat ->
  let ring' := Laugh.writeSample ring x in
  Laugh.audioSlice ring' = drop 1 (Laugh.audioSlice ring ++ [x])
  /\ length (Laugh.ringBuffer ring') = length (Laugh.ringBuffer ring)
  /\ (Laugh.ringBufferIndex ring' < length (Laugh.ringBuffer ring'))%nat.
Proof.
  destruct ring as [buf i]. cbn [Laugh.ringBuffer Laugh.ringBufferIndex].
  intros Hi. unfold Laugh.writeSample, Laugh.audioSlice.
  cbn [Laugh.ringBuffer Laugh.ringBufferIndex].
  rewrite length_insert.
  assert (Hdrop : drop 1 ((drop i buf ++ take i buf) ++ [x])
                  = drop (S i) buf ++ take i buf ++ [x]).
  { destruct (drop i buf) as [|y r] eqn:E.
    - apply (f_equal length) in E. rewrite length_drop in E. cbn in E. lia.
    - assert (Hr : r = drop (S i) buf).
      { replace (S i) with (i + 1)%nat by lia.
        rewrite <- drop_drop, E. reflexivity. }
      cbn. rewrite Hr, <- app_assoc. reflexivity. }
  rewrite Hdrop.
  destruct (Nat.leb_spec (length buf) (S i)) as [Hwrap|Hgo].
  - rewrite drop_0, take_0, app_nil_r.
    rewrite (drop_ge buf (S i)) by lia. cbn [app].
    split; [|split; [reflexivity|lia]].
    rewrite insert_take_drop by lia.
    rewrite (drop_ge buf (S i)) by lia. reflexivity.
  - split; [|split; [reflexivity|lia]].
    rewrite drop_insert_lt by lia. f_equal.
    rewrite (take_S_r _ i x).
    + rewrite take_insert_ge by lia. reflexivity.
    + apply list_lookup_insert_eq. lia.
Qed.

Lemma onaudioprocess_slice (inputData : list Q) (ring : Laugh.Ring) :
  (Laugh.ringBufferIndex ring < length (Laugh.ringBuffer ring))%nat ->
  let ring' := Laugh.onaudioprocess inputData ring in
  Laugh.audioSlice ring'
  = drop (length inputData) (Laugh.audioSlice ring ++ inputData)
  /\ length (Laugh.ringBuffer ring') = length (Laugh.ringBuffer ring)
  /\ (Laugh.ringBufferIndex ring' < length (Laugh.ringBuffer ring'))%nat.
Proof.
  revert ring. unfold Laugh.onaudioprocess.
  induction inputData as [|x xs IH]; intros ring Hi.
  - cbn. rewrite app_nil_r. auto.
  - cbn [fold_left length].
    destruct (writeSample_slice ring x Hi) as (W1 & W2 & W3).
    cbn zeta in W1, W2, W3.
    destruct (IH (Laugh.writeSample ring x) W3) as (I1 & I2 & I3).
    cbn zeta in I1, I2, I3.
    split; [|split; [congruence|exact I3]].
    rewrite I1, W1.
    assert (Hlen : (0 < length (Laugh.audioSlice ring))%nat).
    { unfold Laugh.audioSlice. rewrite length_app, length_drop, length_take.
      lia. }
    destruct (Laugh.audioSlice ring) as [|y r]; [cbn in Hlen; lia|].
    cbn [app drop]. rewrite drop_0, <- app_assoc. reflexivity.
Qed.

(** X18.  After any audio callbacks the slice the classifier is given holds
    the last 16000 samples heard, oldest first, and zeros in front while
    fewer have been heard. *)
Theorem ring_holds_last_second (chunks : list (list Q)) :
  let ring :=
    fold_left (fun r inputData => Laugh.onaudioprocess inputData r)
              chunks Laugh.newRing in
  let heard := concat chunks in
  Laugh.audioSlice ring
  = drop (length heard) (replicate Laugh.RING_SIZE 0%Q ++ heard)
  /\ length (Laugh.audioSlice ring) = Laugh.RING_SIZE.
Proof.
  assert (Hgen : forall (cs : list (list Q)) (r : Laugh.Ring),
             (Laugh.ringBufferIndex r < length (Laugh.ringBuffer r))%nat ->
             let r' := fold_left (fun r c => Laugh.onaudioprocess c r) cs r in
             Laugh.audioSlice r'
             = drop (length (concat cs)) (Laugh.audioSlice r ++ concat cs)).
  { induction cs as [|c cs IH]; intros r Hr.
    - cbn. rewrite app_nil_r. reflexivity.
    - cbn [fold_left]. change (concat (c :: cs)) with (c ++ concat cs).
      destruct (onaudioprocess_slice c r Hr) as (O1 & O2 & O3).
      cbn zeta in O1, O2, O3.
      rewrite (IH _ O3), O1, length_app.
      rewrite <- drop_drop.
      f_equal. rewrite app_assoc.
      rewrite (drop_app_le (Laugh.audioSlice r ++ c)); [reflexivity|].
      rewrite length_app. lia. }
  intros ring heard.
  assert (H0 : (Laugh.ringBufferIndex Laugh.newRing
                < length (Laugh.ringBuffer Laugh.newRing))%nat).
  { cbn. rewrite length_replicate. unfold Laugh.RING_SIZE. lia. }
  pose proof (Hgen chunks Laugh.newRing H0) as H. cbn zeta in H.
  fold ring heard in H.
  assert (Hs0 : Laugh.audioSlice Laugh.newRing
                = replicate Laugh.RING_SIZE 0%Q).
  { unfold Laugh.audioSlice, Laugh.newRing. cbn. apply app_nil_r. }
  rewrite Hs0 in H. split; [exact H|].
  rewrite H, length_drop, length_app, length_replicate. lia.
Qed.

(** ** Shake mode: steps and cleanup *)

Section ShakeMore.
Variable Math_hypot : Q -> Q -> Q -> Q.
Variable Math_PI : Q.
Variable playerName : string.
Local Open Scope Q_scope.

(** X19.  A motion event that follows the previous one by more than 0 and at
    most 250 ms adds the squared magnitudes times that gap in seconds to the
    two energies, and becomes the previous event. *)
Theorem plausible_dt_used_as_is (event : Shake.MotionEvent)
    (s : Shake.State) :
  let gap := Shake.eventNow event - Shake.lastTimestamp s in
  ~ Shake.lastTimestamp s == 0 -> 0 < gap -> gap <= 250 ->
  let s' := Shake.onDeviceMotion Math_hypot Math_PI event s in
  let rotRad := Shake.liveRotation s' * (Math_PI / 180) in
  Shake.integratedAccEnergy s'
  = Shake.integratedAccEnergy s
    + (Shake.liveAcceleration s' * Shake.liveAcceleration s') * (gap / 1000)
  /\ Shake.integratedRotEnergy s'
     = Shake.integratedRotEnergy s + (rotRad * rotRad) * (gap / 1000)
  /\ Shake.lastTimestamp s' = Shake.eventNow event.
Proof.
  intros gap Hlast Hpos Hmax s' rotRad.
  destruct (onDeviceMotion_energy Math_hypot Math_PI event s) as (Ha & Hr & _).
  cbn zeta in Ha, Hr.
  assert (Hdt : Shake.elapsedDt (Shake.lastTimestamp s) (Shake.eventNow event)
                = gap / 1000).
  { unfold Shake.elapsedDt, Js.truthy.
    destruct (Qeq_bool (Shake.lastTimestamp s) 0) eqn:E; [|reflexivity].
    apply Qeq_bool_iff in E. contradiction. }
  rewrite Hdt in Ha, Hr.
  assert (Hc : Shake.clampDt (gap / 1000) = gap / 1000).
  { apply clampDt_fresh.
    - apply Qlt_shift_div_l; lra.
    - apply Qle_shift_div_r; lra. }
  rewrite Hc in Ha, Hr.
  split; [exact Ha|]. split; [exact Hr|].
  unfold s', Shake.onDeviceMotion. destruct (Shake.axes event) as [[ax ay] az].
  reflexivity.
Qed.

(** X20.  The first motion event of a round, for which no previous
    timestamp is recorded, is integrated over 0.016 s, and marks motion data
    as available. *)
Theorem first_event_uses_nominal_step (event : Shake.MotionEvent)
    (s : Shake.State) :
  Shake.lastTimestamp s == 0 ->
  let s' := Shake.onDeviceMotion Math_hypot Math_PI event s in
  let rotRad := Shake.liveRotation s' * (Math_PI / 180) in
  Shake.integratedAccEnergy s'
  = Shake.integratedAccEnergy s
    + (Shake.liveAcceleration s' * Shake.liveAcceleration s') * 0.016
  /\ Shake.integratedRotEnergy s'
     = Shake.integratedRotEnergy s + (rotRad * rotRad) * 0.016
  /\ Shake.motionDataAvailable s' = true.
Proof.
  intros Hlast s' rotRad.
  destruct (onDeviceMotion_energy Math_hypot Math_PI event s) as (Ha & Hr & _).
  cbn zeta in Ha, Hr.
  assert (Hdt : Shake.elapsedDt (Shake.lastTimestamp s) (Shake.eventNow event)
                = 0.016).
  { unfold Shake.elapsedDt, Js.truthy.
    apply Qeq_bool_iff in Hlast. rewrite Hlast. reflexivity. }
  rewrite Hdt in Ha, Hr. change (Shake.clampDt 0.016) with 0.016 in Ha, Hr.
  split; [exact Ha|]. split; [exact Hr|].
  unfold s', Shake.onDeviceMotion. destruct (Shake.axes event) as [[ax ay] az].
  reflexivity.
Qed.

(** The two ways [startShakeRound] ends: without the permission it throws
    and leaves the sensors released, with it the round runs from zero. *)
Lemma startShakeRound_outcomes (start : Shake.StartInput)
    (s : Shake.State) :
  let r := Shake.startShakeRound playerName start s in
  let granted :=
    match Shake.permission start with
    | Shake.NotRequired => true
    | Shake.Answers st => String.eqb st "granted"
    | Shake.Rejects => false
    end in
  Shake.localStorage r.1.1 = Shake.localStorage s
  /\ if granted
     then r.2 = None
          /\ Shake.isRoundRunning r.1.1 = true
          /\ Shake.listening r.1.1 = true
          /\ Shake.timerPending r.1.1 = true
          /\ Shake.motionDataAvailable r.1.1 = false
          /\ Shake.lastTimestamp r.1.1 = 0
          /\ Shake.integratedAccEnergy r.1.1 = 0
          /\ Shake.integratedRotEnergy r.1.1 = 0
          /\ Props.integers (Ui.shown "shake" r.1.2) = [0%Z]
     else r.2 = Some "Could not get motion permission."
          /\ r.1.1 = Shake.cleanupMotion s
          /\ Ui.shown "shake" r.1.2 = [].
Proof.
  unfold Shake.startShakeRound.
  destruct (Shake.permission start) as [|st|]; cbn zeta.
  - cbn. repeat split; reflexivity.
  - destruct (String.eqb st "granted"); cbn; repeat split; reflexivity.
  - cbn. repeat split; reflexivity.
Qed.

(** X21.  After [cleanupMotion], motion events, frame timers, the no-data
    timer and clicks on the stop button change nothing and call nothing of
    ui.js. *)
Theorem shake_cleanup_silences_events (s : Shake.State)
    (acts : list Shake.Action) :
  Shake.run Math_hypot Math_PI playerName (Shake.cleanupMotion s) acts
  = (Shake.cleanupMotion s, []).
Proof.
  induction acts as [|a acts IH] using rev_ind; [reflexivity|].
  unfold Shake.run in *. rewrite runAll_snoc, IH, andThen_pair.
  destruct a as [event|now| |now]; try reflexivity.
  cbn [Shake.step]. unfold Shake.noDataCheck.
  cbn [Shake.cleanupMotion Shake.motionDataAvailable Shake.isRoundRunning].
  rewrite andb_false_r. reflexivity.
Qed.

End ShakeMore.

(** ** Shake mode: the scores and the no-data check *)

Section ShakeRounds.
Variable Math_hypot : Q -> Q -> Q -> Q.
Variable Math_PI : Q.
Variable playerName : string.

Lemma startShakeRound_started (start : Shake.StartInput)
    (s s0 : Shake.State) (out0 : list Ui.Call) :
  Shake.startShakeRound playerName start s = (s0, out0, None) ->
  Shake.isRoundRunning s0 = true /\ Shake.listening s0 = true
  /\ Shake.motionDataAvailable s0 = false
  /\ Shake.integratedAccEnergy s0 = 0%Q /\ Shake.integratedRotEnergy s0 = 0%Q
  /\ Props.integers (Ui.shown "shake" out0) = [0].
Proof.
  unfold Shake.startShakeRound.
  destruct (Shake.permission start) as [|st|]; cbn zeta.
  - cbn. intros [= <- <-]. cbn. auto 10.
  - destruct (String.eqb st "granted"); cbn; [|discriminate].
    intros [= <- <-]. cbn. auto 10.
  - cbn. discriminate.
Qed.

Lemma run_scores_lower (s : Shake.State) (acts : list Shake.Action) :
  Forall (fun n => Shake.shakeRank s <= n)
    (Props.integers
       (Ui.shown "shake" (Shake.run Math_hypot Math_PI playerName s acts).2)).
Proof.
  induction acts as [|a acts IH] using rev_ind; [constructor|].
  destruct (run_scores Math_hypot Math_PI playerName s acts)
    as (Ha & Hr & _ & _).
  unfold Shake.run in *. rewrite runAll_snoc.
  destruct (Ui.runAll _ s acts) as [s1 out1]. cbn [fst snd] in *.
  rewrite andThen_pair. cbn [snd]. rewrite shown_app, integers_app.
  apply Forall_app. split; [exact IH|].
  destruct (step_scores Math_hypot Math_PI playerName a s1) as (_ & _ & [-> | ->]).
  - constructor.
  - constructor; [|constructor]. apply shakeRank_mono; assumption.
Qed.

(** X22.  Every score a started shake round writes to the shake meter is at
    least 0, and the two energies are never negative. *)
Theorem shake_scores_non_negative (start : Shake.StartInput)
    (s s0 : Shake.State) (out0 : list Ui.Call) (acts : list Shake.Action) :
  Shake.startShakeRound playerName start s = (s0, out0, None) ->
  let r := Shake.run Math_hypot Math_PI playerName s0 acts in
  (forall z : Z,
      z ∈ Props.integers (Ui.shown "shake" (out0 ++ r.2)) -> 0 <= z)
  /\ (0 <= Shake.integratedAccEnergy r.1)%Q
  /\ (0 <= Shake.integratedRotEnergy r.1)%Q.
Proof.
  intros Hstart r.
  apply startShakeRound_started in Hstart as (_ & _ & _ & Ha & Hr & Hout).
  destruct (run_scores Math_hypot Math_PI playerName s0 acts)
    as (Ha' & Hr' & _ & _).
  fold r in Ha', Hr'. rewrite Ha in Ha'. rewrite Hr in Hr'.
  split; [|split; assumption].
  intros z Hz. rewrite shown_app, integers_app, Hout in Hz.
  apply elem_of_app in Hz as [Hz|Hz].
  - apply list_elem_of_singleton in Hz. lia.
  - pose proof (run_scores_lower s0 acts) as Hl. fold r in Hl.
    rewrite Forall_forall in Hl. specialize (Hl z Hz).
    assert (H0 : Shake.shakeRank s0 = 0).
    { unfold Shake.shakeRank. rewrite Ha, Hr. reflexivity. }
    lia.
Qed.

(** What every event of the page keeps: a running round has its listener
    registered, and motion data once seen stay seen while the round runs. *)
Lemma step_listening (a : Shake.Action) (s : Shake.State) :
  let s' := (Shake.step Math_hypot Math_PI playerName a s).1 in
  (Shake.isRoundRunning s = true -> Shake.listening s = true) ->
  (Shake.isRoundRunning s' = true ->
   Shake.listening s' = true /\ Shake.isRoundRunning s = true
   /\ (Shake.motionDataAvailable s = true ->
       Shake.motionDataAvailable s' = true)
   /\ match a with
      | Shake.Motion _ => Shake.motionDataAvailable s' = true
      | _ => Shake.motionDataAvailable s' = Shake.motionDataAvailable s
      end).
Proof.
  intros s' Hinv Hrun'. subst s'.
  destruct a as [event|now| |now]; cbn [Shake.step] in *.
  - destruct (Shake.listening s) eqn:Hl; cbn [fst] in *.
    + unfold Shake.onDeviceMotion in *.
      destruct (Shake.axes event) as [[ax ay] az]. cbn in *. auto.
    + pose proof (Hinv Hrun'). congruence.
  - destruct (Shake.timerPending s); cbn [fst] in *; [|auto].
    match type of Hrun' with
    | context [Shake.gameLoopFrame _ _ ?st] => set (s1 := st) in *
    end.
    destruct (Shake.isRoundRunning s) eqn:Hrun.
    2:{ unfold Shake.gameLoopFrame in Hrun'. subst s1. cbn in Hrun'.
        discriminate. }
    specialize (Hinv eq_refl).
    revert Hrun'. unfold Shake.gameLoopFrame. subst s1.
    cbn [Shake.isRoundRunning Shake.elapsedTime negb].
    destruct (Js.ge _ _).
    + rewrite andThen_pair. cbn [fst].
      match goal with
      | |- context [Shake.stopRound ?n ?f ?t ?st] =>
          pose proof (shake_stopRound_running n f t st eq_refl) as (K1 & _)
      end.
      cbn zeta in K1. rewrite K1. discriminate.
    + cbn. auto.
  - unfold Shake.noDataCheck in *. destruct (_ && _)%bool; cbn in *; auto.
  - unfold Shake.stopClick in *. destruct (Shake.isRoundRunning s) eqn:Hrun.
    + pose proof (shake_stopRound_running playerName 0 now s Hrun) as (K1 & _).
      cbn zeta in K1. rewrite K1 in Hrun'. discriminate.
    + rewrite shake_stopRound_stopped in Hrun' by assumption.
      cbn in Hrun'. congruence.
Qed.

Lemma run_listening (s : Shake.State) (acts : list Shake.Action) :
  (Shake.isRoundRunning s = true -> Shake.listening s = true) ->
  let s' := (Shake.run Math_hypot Math_PI playerName s acts).1 in
  Shake.isRoundRunning s' = true ->
  Shake.listening s' = true
  /\ Shake.isRoundRunning s = true
  /\ (Shake.motionDataAvailable s = true -> Shake.motionDataAvailable s' = true)
  /\ ((exists event, Shake.Motion event ∈ acts) ->
      Shake.motionDataAvailable s' = true)
  /\ ((forall event, Shake.Motion event ∉ acts) ->
      Shake.motionDataAvailable s' = Shake.motionDataAvailable s).
Proof.
  intros Hinv. induction acts as [|a acts IH] using rev_ind.
  - cbn. intros Hrun. split; [auto|]. split; [auto|]. split; [auto|].
    split; [|auto]. intros [event He]. inversion He.
  - cbn zeta in *. unfold Shake.run in *. rewrite runAll_snoc, andThen_fst.
    set (s1 := (Ui.runAll _ s acts).1) in *.
    intros Hrun'.
    assert (Hinv1 : Shake.isRoundRunning s1 = true -> Shake.listening s1 = true).
    { intros H1. apply IH, H1. }
    destruct (step_listening a s1 Hinv1 Hrun') as (L1 & L2 & L3 & L4).
    destruct (IH L2) as (I1 & I2 & I3 & I4 & I5).
    split; [exact L1|]. split; [exact I2|]. split; [auto|]. split.
    + intros [event He]. apply elem_of_app in He as [He|He].
      * apply L3, I4. eauto.
      * apply list_elem_of_singleton in He. subst a. exact L4.
    + intros Hno.
      assert (Hno1 : forall event, Shake.Motion event ∉ acts).
      { intros event He. apply (Hno event), elem_of_app. left. exact He. }
      rewrite <- (I5 Hno1).
      destruct a as [event| | |]; try exact L4.
      exfalso. apply (Hno event), elem_of_app. right. constructor.
Qed.

(** X23.  The check that runs two seconds into a shake round: after a
    motion event it shows nothing; while the round runs without one it
    shows the no-motion-data warning. *)
Theorem no_data_warning_only_without_data (start : Shake.StartInput)
    (s s0 : Shake.State) (out0 : list Ui.Call) (acts : list Shake.Action) :
  Shake.startShakeRound playerName start s = (s0, out0, None) ->
  let s' := (Shake.run Math_hypot Math_PI playerName s0 acts).1 in
  ((exists event, Shake.Motion event ∈ acts) ->
   (Shake.noDataCheck s').2 = [])
  /\ ((forall event, Shake.Motion event ∉ acts) ->
      Shake.isRoundRunning s' = true ->
      (Shake.noDataCheck s').2
      = [Ui.setStatus "No motion data detected. (Try on a mobile device)."
                      "warn"]).
Proof.
  intros Hstart s'.
  apply startShakeRound_started in Hstart as (Hrun & Hl & Hm & _).
  pose proof (run_listening s0 acts (fun _ => Hl)) as H. cbn zeta in H.
  fold s' in H. split.
  - intros Hev. unfold Shake.noDataCheck.
    destruct (Shake.isRoundRunning s') eqn:Hr.
    + destruct (H eq_refl) as (_ & _ & _ & H4 & _). rewrite (H4 Hev).
      reflexivity.
    + rewrite andb_false_r. reflexivity.
  - intros Hno Hr. destruct (H Hr) as (_ & _ & _ & _ & H5).
    unfold Shake.noDataCheck. rewrite (H5 Hno), Hm, Hr. reflexivity.
Qed.

End ShakeRounds.

(** ** Manual stop *)

(** X24.  A click on the stop button during a round, in either mode, saves
    the score 0 under the player name for that mode and shows the round as
    finished; over a board without negative scores it never announces a new
    best. *)
Theorem manual_stop_persists_zero (playerName : string)
    (now : Z) (ls : Laugh.State) (ss : Shake.State) :
  Laugh.isRoundRunning ls = true ->
  Shake.isRoundRunning ss = true ->
  (forall e, e ∈ Core.loadScores "laugh" (Laugh.localStorage ls) ->
             0 <= Core.score e) ->
  (forall e, e ∈ Core.loadScores "shake" (Shake.localStorage ss) ->
             0 <= Core.score e) ->
  let rl := Laugh.stopClick playerName now ls in
  let rs := Shake.stopClick playerName now ss in
  (Laugh.localStorage rl.1
   = (Core.saveScore "laugh" playerName 0 now (Laugh.localStorage ls)).1
   /\ rl.2 = [Ui.setStatus "Round finished!" "ok";
              Ui.setButtonStates false false true])
  /\ (Shake.localStorage rs.1
      = (Core.saveScore "shake" playerName 0 now (Shake.localStorage ss)).1
      /\ rs.2 = [Ui.setStatus "Round finished!" "ok";
                 Ui.setButtonStates false false true]).
Proof.
  intros Hl Hs Hnl Hns rl rs.
  assert (Hflag : forall mode st,
             (forall e, e ∈ Core.loadScores mode st -> 0 <= Core.score e) ->
             (Core.saveScore mode playerName 0 now st).2 = false).
  { intros mode st Hn. unfold Core.saveScore. cbn [snd].
    destruct (Core.loadScores mode st) as [|top r]; [reflexivity|].
    apply Z.ltb_ge, Hn. left. }
  split.
  - unfold rl, Laugh.stopClick, Laugh.stopRound. rewrite Hl.
    cbn [negb Laugh.cleanupAudio Laugh.localStorage].
    pose proof (Hflag "laugh" _ Hnl) as Hf.
    destruct (Core.saveScore "laugh" playerName 0 now (Laugh.localStorage ls))
      as [st best]. cbn [snd] in Hf. subst best. split; reflexivity.
  - unfold rs, Shake.stopClick, Shake.stopRound. rewrite Hs.
    cbn [negb Shake.cleanupMotion Shake.localStorage].
    pose proof (Hflag "shake" _ Hns) as Hf.
    destruct (Core.saveScore "shake" playerName 0 now (Shake.localStorage ss))
      as [st best]. cbn [snd] in Hf. subst best. split; reflexivity.
Qed.

(** ** The start buttons *)

Lemma sanitizeName_nonempty_valid (nameInput : string) :
  String.eqb (Core.sanitizeName nameInput) EmptyString = false ->
  Props.ValidName (Core.sanitizeName nameInput).
Proof.
  intros H. unfold Core.sanitizeName in *.
  destruct (Core.nameTest (Core.trim nameInput)) eqn:E.
  - apply nameTest_valid, E.
  - discriminate.
Qed.

Lemma messageOr_nonempty (message fallback : string) :
  fallback <> EmptyString -> Page.messageOr message fallback <> EmptyString.
Proof.
  intros Hf. unfold Page.messageOr.
  destruct (String.eqb_spec message EmptyString); assumption.
Qed.

Lemma no_ui_call (c : Page.Call) :
  (forall call, c <> Page.ui call) -> forall call, Page.ui call ∉ [c].
Proof.
  intros H call Hc. apply list_elem_of_singleton in Hc.
  apply (H call). symmetry. exact Hc.
Qed.

(** X25.  The start button of the laugh page.  A click never touches the
    score store.  Outside a secure context, or when the name field does not
    hold a valid name, it changes nothing of the round and calls nothing of
    ui.js.  A round it starts is running on fresh counters and bound to the
    sanitized name, which is valid.  When starting fails, the round is not
    running, the audio is released, and the click ends by showing a
    non-empty message as a bad status and enabling the start button. *)
Theorem laugh_start_button (Math_sqrt : Q -> Q) (isSecureContext : bool)
    (nameInput : string) (start : Laugh.StartInput) (s : Laugh.State) :
  let r := Page.laughStartClick Math_sqrt isSecureContext nameInput start s in
  Laugh.localStorage r.1.1 = Laugh.localStorage s
  /\ (isSecureContext = false \/ Core.sanitizeName nameInput = EmptyString ->
      r.1.1 = s /\ r.2 = None /\ forall call, Page.ui call ∉ r.1.2)
  /\ (forall name, r.2 = Some name ->
        isSecureContext = true /\ name = Core.sanitizeName nameInput
        /\ Props.ValidName name /\ Laugh.isRoundRunning r.1.1 = true
        /\ Laugh.vars r.1.1 = Laugh.freshVars)
  /\ (isSecureContext = true ->
      Core.sanitizeName nameInput <> EmptyString -> r.2 = None ->
      Laugh.isRoundRunning r.1.1 = false /\ Laugh.audioOpen r.1.1 = false
      /\ exists message calls,
          message <> EmptyString
          /\ r.1.2 = map Page.ui
                       (calls ++ [Ui.setStatus message "bad";
                                  Ui.setButtonStates true false false])).
Proof.
  intros r. unfold r, Page.laughStartClick.
  destruct isSecureContext; cbn [negb].
  2:{ cbn [fst snd]. split; [reflexivity|]. split.
      - intros _. split; [reflexivity|]. split; [reflexivity|].
        apply no_ui_call. discriminate.
      - split; [discriminate|]. discriminate. }
  destruct (String.eqb (Core.sanitizeName nameInput) EmptyString) eqn:En.
  { apply String.eqb_eq in En. cbn [fst snd]. split; [reflexivity|]. split.
    - intros _. split; [reflexivity|]. split; [reflexivity|].
      apply no_ui_call. discriminate.
    - split; [discriminate|]. intros _ Hne. contradiction. }
  pose proof (sanitizeName_nonempty_valid nameInput En) as Hvalid.
  apply String.eqb_neq in En.
  pose proof (startLaughRound_outcomes Math_sqrt start s) as [Hst Hout].
  destruct (Laugh.startLaughRound Math_sqrt start s) as [[s' out] [err|]];
    cbn [fst snd] in *.
  - split; [exact Hst|]. split.
    { intros [H|H]; [discriminate|contradiction]. }
    split; [discriminate|]. intros _ _ _.
    split; [reflexivity|]. split; [reflexivity|].
    exists (Page.messageOr (Laugh.message err) "Could not start microphone.").
    exists (Ui.setButtonStates false true false :: out).
    split; [apply messageOr_nonempty; discriminate|reflexivity].
  - split; [exact Hst|]. split.
    { intros [H|H]; [discriminate|contradiction]. }
    split; [|discriminate].
    intros name [= <-]. destruct Hout as (Hr & _ & Hv & _). auto.
Qed.

(** X26.  The start button of the shake page.  A click never touches the
    score store.  When the name field does not hold a valid name it changes
    nothing of the round and calls nothing of ui.js.  A round it starts is
    running from zero energy, with the motion listener registered, and bound
    to the sanitized name, which is valid.  When the permission is not
    granted, the round is not running, no listener is registered, and the
    click ends by showing a non-empty message as a bad status and enabling
    the start button. *)
Theorem shake_start_button (nameInput : string) (start : Shake.StartInput)
    (s : Shake.State) :
  let r := Page.shakeStartClick nameInput start s in
  Shake.localStorage r.1.1 = Shake.localStorage s
  /\ (Core.sanitizeName nameInput = EmptyString ->
      r.1.1 = s /\ r.2 = None /\ forall call, Page.ui call ∉ r.1.2)
  /\ (forall name, r.2 = Some name ->
        name = Core.sanitizeName nameInput
        /\ Props.ValidName name /\ Shake.isRoundRunning r.1.1 = true
        /\ Shake.listening r.1.1 = true
        /\ Shake.integratedAccEnergy r.1.1 = 0%Q
        /\ Shake.integratedRotEnergy r.1.1 = 0%Q)
  /\ (Core.sanitizeName nameInput <> EmptyString -> r.2 = None ->
      Shake.isRoundRunning r.1.1 = false /\ Shake.listening r.1.1 = false
      /\ exists message calls,
          message <> EmptyString
          /\ r.1.2 = map Page.ui
                       (calls ++ [Ui.setStatus message "bad";
                                  Ui.setButtonStates true false false])).
Proof.
  intros r. unfold r, Page.shakeStartClick.
  destruct (String.eqb (Core.sanitizeName nameInput) EmptyString) eqn:En.
  { apply String.eqb_eq in En. cbn [fst snd]. split; [reflexivity|]. split.
    - intros _. split; [reflexivity|]. split; [reflexivity|].
      apply no_ui_call. discriminate.
    - split; [discriminate|]. intros Hne. contradiction. }
  pose proof (sanitizeName_nonempty_valid nameInput En) as Hvalid.
  apply String.eqb_neq in En.
  pose proof (startShakeRound_outcomes (Core.sanitizeName nameInput) start s)
    as [Hst _]. cbn zeta in Hst.
  destruct (Shake.startShakeRound (Core.sanitizeName nameInput) start s)
    as [[s' out] [message|]] eqn:Es; cbn [fst snd] in *.
  - split; [exact Hst|]. split; [intros H; contradiction|].
    split; [discriminate|]. intros _ _.
    split; [reflexivity|]. split; [reflexivity|].
    exists (Page.messageOr message "Could not start motion sensors.").
    exists (Ui.setButtonStates false true false :: out).
    split; [apply messageOr_nonempty; discriminate|reflexivity].
  - split; [exact Hst|]. split; [intros H; contradiction|].
    split; [|discriminate].
    intros name [= <-].
    apply startShakeRound_started in Es as (Hr & Hl & _ & Ha & Hro & _).
    auto 10.
Qed.

(** ** The properties on the sample rounds *)

Lemma clamp_within_bounds_witness :
  (Core.clamp 130 0 100 == 100)%Q.
Proof.
  destruct (clamp_within_bounds 130 0 100) as (_ & _ & _ & H); [lra|].
  apply H. lra.
Defined.

Lemma escapeHtml_injective_witness :
  "Tom & Jerry" = "Tom & Jerry".
Proof. apply (escapeHtml_injective "Tom & Jerry" "Tom & Jerry"). reflexivity. Defined.

Lemma two_scores_NonIncreasing :
  Props.NonIncreasing (Core.loadScores "laugh" Samples.two_scores).
Proof.
  apply sorted_NonIncreasing. repeat constructor. unfold Props.above. cbn. lia.
Qed.

Lemma full_board_NonIncreasing :
  Props.NonIncreasing (Core.loadScores "shake" Samples.full_board).
Proof.
  apply sorted_NonIncreasing.
  repeat (constructor; [|repeat constructor; unfold Props.above; cbn; lia]).
  constructor.
Qed.

Lemma saveScore_places_after_ties_witness :
  Core.loadScores "laugh"
    (Core.saveScore "laugh" "Cy" 56 1762041800000 Samples.two_scores).1
  = [Core.mkEntry "Ann" 56 1762041600000;
     Core.mkEntry "Cy" 56 1762041800000;
     Core.mkEntry "Bob" 40 1762041700000].
Proof.
  rewrite (saveScore_places_after_ties "laugh" "Cy" 56 1762041800000
             Samples.two_scores two_scores_NonIncreasing).
  reflexivity.
Defined.

Lemma saveScore_full_board_unchanged_witness :
  Core.loadScores "shake"
    (Core.saveScore "shake" "Cy" 10 1762041800000 Samples.full_board).1
  = Core.loadScores "shake" Samples.full_board.
Proof.
  apply (saveScore_full_board_unchanged "shake" "Cy" 10 1762041800000
           Samples.full_board).
  - exact full_board_NonIncreasing.
  - reflexivity.
  - apply Forall_forall. repeat constructor; cbn; lia.
Defined.

Lemma saveScore_new_best_ranks_first_witness :
  Core.loadScores "laugh"
    (Core.saveScore "laugh" "Cy" 70 1762041800000 Samples.two_scores).1
  = Core.mkEntry "Cy" 70 1762041800000
    :: take 9 (Core.loadScores "laugh" Samples.two_scores).
Proof.
  apply (saveScore_new_best_ranks_first "laugh" "Cy" 70 1762041800000
           Samples.two_scores).
  - exact two_scores_NonIncreasing.
  - reflexivity.
Defined.

Lemma saveScore_recovers_slot_witness :
  Core.loadScores "laugh"
    (Core.saveScore "laugh" "Ann" 56 1762041600000 Samples.corrupt_board).1
  = [Core.mkEntry "Ann" 56 1762041600000].
Proof.
  apply (saveScore_recovers_slot "laugh" "Ann" 56 1762041600000
           Samples.corrupt_board).
  right. reflexivity.
Defined.

Lemma laugh_scores_within_0_120_witness :
  0 <= 50 <= 120.
Proof.
  apply (laugh_scores_within_0_120 Props.sample_sqrt "Ann"
           Samples.laugh_start Samples.laugh_idle Samples.laugh_started
           (Laugh.startLaughRound Props.sample_sqrt Samples.laugh_start
              Samples.laugh_idle).1.2
           [Laugh.Tick Samples.laughing; Laugh.Tick Samples.silent]).
  - reflexivity.
  - vm_compute. right. left.
Defined.

Lemma laugh_streak_bonus_bounded_witness :
  Laugh.streakBonus
    (Laugh.vars
       (Laugh.run Props.sample_sqrt "Ann" Samples.laugh_started
          (Props.ticks Samples.round39)).1) <= 10.
Proof.
  apply (laugh_streak_bonus_bounded Props.sample_sqrt "Ann"
           Samples.laugh_start Samples.laugh_idle Samples.laugh_started
           (Laugh.startLaughRound Props.sample_sqrt Samples.laugh_start
              Samples.laugh_idle).1.2
           (Props.ticks Samples.round39)).
  reflexivity.
Defined.

Lemma laugh_meter_within_0_100_witness :
  (Laugh.emaLaughProb
     (Laugh.run Props.sample_sqrt "Ann" Samples.laugh_started
        (Props.ticks Samples.round39)).1 <= 100)%Q.
Proof.
  apply (laugh_meter_within_0_100 Props.sample_sqrt "Ann"
           Samples.laugh_start Samples.laugh_idle Samples.laugh_started
           (Laugh.startLaughRound Props.sample_sqrt Samples.laugh_start
              Samples.laugh_idle).1.2
           (Props.ticks Samples.round39)).
  reflexivity.
Defined.

Lemma laugh_round_lasts_40_ticks_witness :
  Laugh.isRoundRunning
    (Laugh.run Props.sample_sqrt "Ann" Samples.laugh_started
       (Props.ticks (Samples.round39 ++ [Samples.silent]))).1
  = false.
Proof.
  rewrite (laugh_round_lasts_40_ticks Props.sample_sqrt "Ann"
             Samples.laugh_start Samples.laugh_idle Samples.laugh_started
             (Laugh.startLaughRound Props.sample_sqrt Samples.laugh_start
                Samples.laugh_idle).1.2
             (Samples.round39 ++ [Samples.silent]) eq_refl).
  reflexivity.
Defined.

Lemma laugh_idle_ignores_events_witness :
  Laugh.run Props.sample_sqrt "Ann" Samples.laugh_idle
    [Laugh.Tick Samples.laughing; Laugh.StopClick 1762041600000]
  = (Samples.laugh_idle, []).
Proof.
  apply (laugh_idle_ignores_events Props.sample_sqrt "Ann" Samples.laugh_idle).
  reflexivity.
Defined.

Lemma plausible_dt_used_as_is_witness :
  Shake.integratedAccEnergy
    (Shake.onDeviceMotion Props.sample_hypot Props.sample_PI
       (Samples.jolt 1100) Samples.shaking)
  = (Shake.integratedAccEnergy Samples.shaking
     + (Shake.liveAcceleration
          (Shake.onDeviceMotion Props.sample_hypot Props.sample_PI
             (Samples.jolt 1100) Samples.shaking)
        * Shake.liveAcceleration
            (Shake.onDeviceMotion Props.sample_hypot Props.sample_PI
               (Samples.jolt 1100) Samples.shaking))
       * ((Shake.eventNow (Samples.jolt 1100)
           - Shake.lastTimestamp Samples.shaking) / 1000))%Q.
Proof.
  apply (plausible_dt_used_as_is Props.sample_hypot Props.sample_PI
           (Samples.jolt 1100) Samples.shaking).
  - vm_compute. discriminate.
  - vm_compute. reflexivity.
  - vm_compute. discriminate.
Defined.

Lemma first_event_uses_nominal_step_witness :
  Shake.motionDataAvailable
    (Shake.onDeviceMotion Props.sample_hypot Props.sample_PI
       (Samples.jolt 1000) Samples.shake_started)
  = true.
Proof.
  apply (first_event_uses_nominal_step Props.sample_hypot Props.sample_PI
           (Samples.jolt 1000) Samples.shake_started).
  reflexivity.
Defined.

Lemma shake_scores_non_negative_witness :
  0 <= 2.
Proof.
  destruct (shake_scores_non_negative Props.sample_hypot Props.sample_PI "Ann"
              Samples.shake_start Samples.shake_idle Samples.shake_started
              (Shake.startShakeRound "Ann" Samples.shake_start
                 Samples.shake_idle).1.2
              [Shake.Motion (Samples.jolt 1000); Shake.FrameTimer 1100]
              eq_refl) as (H & _).
  apply H. vm_compute. right. left.
Defined.

Lemma no_data_warning_only_without_data_witness :
  (Shake.noDataCheck
     (Shake.run Props.sample_hypot Props.sample_PI "Ann"
        Samples.shake_started [Shake.FrameTimer 1100]).1).2
  = [Ui.setStatus "No motion data detected. (Try on a mobile device)."
                  "warn"].
Proof.
  destruct (no_data_warning_only_without_data
              Props.sample_hypot Props.sample_PI "Ann"
              Samples.shake_start Samples.shake_idle Samples.shake_started
              (Shake.startShakeRound "Ann" Samples.shake_start
                 Samples.shake_idle).1.2
              [Shake.FrameTimer 1100] eq_refl) as (_ & H).
  apply H.
  - intros event He. apply list_elem_of_singleton in He. discriminate.
  - reflexivity.
Defined.

Lemma manual_stop_persists_zero_witness :
  Laugh.localStorage
    (Laugh.stopClick "Ann" 1762041600000 Samples.laugh_started).1
  = (Core.saveScore "laugh" "Ann" 0 1762041600000
       (Laugh.localStorage Samples.laugh_started)).1.
Proof.
  apply (manual_stop_persists_zero "Ann" 1762041600000
           Samples.laugh_started Samples.shake_started).
  - reflexivity.
  - reflexivity.
  - intros e He. vm_compute in He. inversion He.
  - intros e He. vm_compute in He. inversion He.
Defined.

Lemma laugh_start_button_witness :
  Laugh.isRoundRunning
    (Page.laughStartClick Props.sample_sqrt true "  Ann "
       Samples.laugh_start Samples.laugh_idle).1.1
  = true
  /\ (Page.laughStartClick Props.sample_sqrt true "Ann <b>"
        Samples.laugh_start Samples.laugh_idle).1.1
     = Samples.laugh_idle.
Proof.
  split.
  - destruct (laugh_start_button Props.sample_sqrt true "  Ann "
                Samples.laugh_start Samples.laugh_idle) as (_ & _ & H & _).
    apply (H "Ann"). reflexivity.
  - destruct (laugh_start_button Props.sample_sqrt true "Ann <b>"
                Samples.laugh_start Samples.laugh_idle) as (_ & H & _).
    apply H. right. reflexivity.
Defined.

Lemma shake_start_button_witness :
  Shake.isRoundRunning
    (Page.shakeStartClick "  Ann " Samples.shake_start Samples.shake_idle).1.1
  = true
  /\ Shake.isRoundRunning
       (Page.shakeStartClick "Ann"
          (Shake.mkStart (Shake.Answers "denied") true 1762041600000)
          Samples.shake_idle).1.1
     = false.
Proof.
  split.
  - destruct (shake_start_button "  Ann " Samples.shake_start
                Samples.shake_idle) as (_ & _ & H & _).
    apply (H "Ann"). reflexivity.
  - destruct (shake_start_button "Ann"
                (Shake.mkStart (Shake.Answers "denied") true 1762041600000)
                Samples.shake_idle) as (_ & _ & _ & H).
    apply H; [discriminate|reflexivity].
Defined.

(** ** Binary64 arithmetic: rounding *)

Section Rounding.
Local Open Scope Q_scope.
Lemma pow2_pos (e : Z) : 0 < Double.pow2 e.
Proof. apply Qpower_0_lt. reflexivity. Qed.

Lemma pow2_le (e1 e2 : Z) : (e1 <= e2)%Z -> Double.pow2 e1 <= Double.pow2 e2.
Proof. intros H. apply Qpower_le_compat_l; [exact H|]. discriminate. Qed.

Lemma pow2_lt_inv (e1 e2 : Z) :
  Double.pow2 e1 < Double.pow2 e2 -> (e1 < e2)%Z.
Proof. intros H. apply (Qpower_lt_compat_l_inv 2); [exact H|reflexivity]. Qed.

Lemma pow2_plus (e1 e2 : Z) :
  Double.pow2 (e1 + e2) == Double.pow2 e1 * Double.pow2 e2.
Proof. apply Qpower_plus. discriminate. Qed.

Lemma pow2_Z (e : Z) : (0 <= e)%Z -> Double.pow2 e == inject_Z (2 ^ e).
Proof. intros H. unfold Double.pow2. rewrite Zpower_Qpower by exact H. reflexivity. Qed.

Lemma Q_as_quotient (q : Q) : q == inject_Z (Qnum q) / inject_Z (Zpos (Qden q)).
Proof. destruct q as [n d]. cbn [Qnum Qden]. rewrite Qmake_Qdiv. reflexivity. Qed.

Lemma ilog2_spec (q : Q) :
  0 < q ->
  Double.pow2 (Double.ilog2 q) <= q /\ q < Double.pow2 (Double.ilog2 q + 1).
Proof.
  intros Hq.
  assert (Hn : (0 < Qnum q)%Z).
  { destruct q as [n d]. unfold Qlt in Hq. cbn in *. lia. }
  pose proof (Z.log2_spec (Qnum q) Hn) as [Ha1 Ha2].
  pose proof (Z.log2_spec (Zpos (Qden q)) eq_refl) as [Hb1 Hb2].
  pose proof (Z.log2_nonneg (Qnum q)) as Ha0.
  pose proof (Z.log2_nonneg (Zpos (Qden q))) as Hb0.
  set (a := Z.log2 (Qnum q)) in *. set (b := Z.log2 (Zpos (Qden q))) in *.
  assert (Hd : 0 < inject_Z (Zpos (Qden q))) by reflexivity.
  assert (Hqd : q * inject_Z (Zpos (Qden q)) == inject_Z (Qnum q)).
  { rewrite (Q_as_quotient q) at 1. field. discriminate. }
  (* bounds of numerator and denominator as rationals *)
  assert (A1 : Double.pow2 a <= inject_Z (Qnum q)).
  { rewrite pow2_Z by exact Ha0. rewrite <- Zle_Qle. exact Ha1. }
  assert (A2 : inject_Z (Qnum q) < Double.pow2 (a + 1)).
  { rewrite pow2_Z by lia. rewrite <- Zlt_Qlt.
    replace (a + 1)%Z with (Z.succ a) by lia. exact Ha2. }
  assert (B1 : Double.pow2 b <= inject_Z (Zpos (Qden q))).
  { rewrite pow2_Z by exact Hb0. rewrite <- Zle_Qle. exact Hb1. }
  assert (B2 : inject_Z (Zpos (Qden q)) < Double.pow2 (b + 1)).
  { rewrite pow2_Z by lia. rewrite <- Zlt_Qlt.
    replace (b + 1)%Z with (Z.succ b) by lia. exact Hb2. }
  pose proof (pow2_pos b) as Pb. pose proof (pow2_pos (b + 1)) as Pb1.
  unfold Double.ilog2. fold a b.
  destruct (Qle_bool (Double.pow2 (a - b)) q) eqn:E.
  - apply Qle_bool_iff in E. split; [exact E|].
    (* q * d = n < 2^(a+1) = 2^(a-b+1) * 2^b <= 2^(a-b+1) * d *)
    assert (H : Double.pow2 (a + 1) == Double.pow2 (a - b + 1) * Double.pow2 b).
    { rewrite <- pow2_plus. replace (a - b + 1 + b)%Z with (a + 1)%Z by lia.
      reflexivity. }
    pose proof (pow2_pos (a - b + 1)) as P.
    apply Qnot_le_lt. intros Hc.
    assert (Double.pow2 (a - b + 1) * inject_Z (Zpos (Qden q))
            <= q * inject_Z (Zpos (Qden q))).
    { apply Qmult_le_compat_r; [exact Hc|]. apply Qlt_le_weak, Hd. }
    assert (Double.pow2 (a - b + 1) * Double.pow2 b
            <= Double.pow2 (a - b + 1) * inject_Z (Zpos (Qden q))).
    { rewrite (Qmult_comm _ (Double.pow2 b)), (Qmult_comm _ (inject_Z _)).
      apply Qmult_le_compat_r; [exact B1|]. apply Qlt_le_weak, P. }
    rewrite Hqd in *. rewrite <- H in *.
    apply (Qlt_irrefl (inject_Z (Qnum q))).
    eapply Qlt_le_trans; [exact A2|]. eapply Qle_trans; eassumption.
  - assert (E' : q < Double.pow2 (a - b)).
    { apply Qnot_le_lt. intros Hc. apply Qle_bool_iff in Hc. congruence. }
    split.
    + (* 2^(a-b-1) * d < 2^(a-b-1) * 2^(b+1) = 2^a <= n = q * d *)
      assert (H : Double.pow2 a == Double.pow2 (a - b - 1) * Double.pow2 (b + 1)).
      { rewrite <- pow2_plus. replace (a - b - 1 + (b + 1))%Z with a by lia.
        reflexivity. }
      pose proof (pow2_pos (a - b - 1)) as P.
      apply Qnot_lt_le. intros Hc.
      assert (q * inject_Z (Zpos (Qden q))
              < Double.pow2 (a - b - 1) * inject_Z (Zpos (Qden q))).
      { apply Qmult_lt_compat_r; [exact Hd|exact Hc]. }
      assert (Double.pow2 (a - b - 1) * inject_Z (Zpos (Qden q))
              <= Double.pow2 (a - b - 1) * Double.pow2 (b + 1)).
      { rewrite (Qmult_comm _ (Double.pow2 (b + 1))), (Qmult_comm _ (inject_Z _)).
        apply Qmult_le_compat_r; [apply Qlt_le_weak, B2|].
        apply Qlt_le_weak, P. }
      rewrite Hqd in *. rewrite <- H in *.
      apply (Qlt_irrefl (inject_Z (Qnum q))).
      eapply Qlt_le_trans; [eassumption|]. eapply Qle_trans; eassumption.
    + replace (a - b - 1 + 1)%Z with (a - b)%Z by lia. exact E'.
Qed.

Lemma ilog2_unique (q : Q) (e : Z) :
  Double.pow2 e <= q -> q < Double.pow2 (e + 1) -> Double.ilog2 q = e.
Proof.
  intros H1 H2.
  assert (Hq : 0 < q) by (eapply Qlt_le_trans; [apply (pow2_pos e)|exact H1]).
  destruct (ilog2_spec q Hq) as [S1 S2].
  assert (Double.ilog2 q < e + 1)%Z.
  { apply pow2_lt_inv. eapply Qle_lt_trans; eassumption. }
  assert (e < Double.ilog2 q + 1)%Z.
  { apply pow2_lt_inv. eapply Qle_lt_trans; eassumption. }
  lia.
Qed.

Lemma ilog2_comp (x y : Q) : x == y -> 0 < x -> Double.ilog2 x = Double.ilog2 y.
Proof.
  intros E Hx. destruct (ilog2_spec x Hx) as [S1 S2].
  symmetry. apply ilog2_unique; rewrite <- E; assumption.
Qed.

Lemma ilog2_mono (x y : Q) :
  0 < x -> x <= y -> (Double.ilog2 x <= Double.ilog2 y)%Z.
Proof.
  intros Hx Hxy.
  assert (Hy : 0 < y) by (eapply Qlt_le_trans; eassumption).
  destruct (ilog2_spec x Hx) as [X1 _]. destruct (ilog2_spec y Hy) as [_ Y2].
  assert (Double.ilog2 x < Double.ilog2 y + 1)%Z; [|lia].
  apply pow2_lt_inv. eapply Qle_lt_trans; [exact X1|].
  eapply Qle_lt_trans; eassumption.
Qed.

Lemma nearestEven_comp (x y : Q) :
  x == y -> Double.nearestEven x = Double.nearestEven y.
Proof.
  intros E. unfold Double.nearestEven.
  rewrite (Qfloor_comp x y E).
  assert (H : Qcompare (x - inject_Z (Qfloor y)) (1 # 2)
              = Qcompare (y - inject_Z (Qfloor y)) (1 # 2)).
  { apply Qcompare_comp; [rewrite E; reflexivity|reflexivity]. }
  rewrite H. reflexivity.
Qed.

Lemma nearestEven_cases (x : Q) :
  Double.nearestEven x = Qfloor x \/ Double.nearestEven x = (Qfloor x + 1)%Z.
Proof.
  unfold Double.nearestEven.
  destruct (Qcompare _ _); [destruct (Z.even _)|..]; auto.
Qed.

Lemma Qfloor_bounds (x : Q) :
  inject_Z (Qfloor x) <= x /\ x < inject_Z (Qfloor x + 1).
Proof. split; [apply Qfloor_le|apply Qlt_floor]. Qed.

(** An integer below [x] is below the rounded [x], and likewise above. *)
Lemma nearestEven_ge (x : Q) (n : Z) :
  inject_Z n <= x -> (n <= Double.nearestEven x)%Z.
Proof.
  intros H.
  assert (n <= Qfloor x)%Z.
  { rewrite <- (Qfloor_Z n). apply Qfloor_resp_le, H. }
  destruct (nearestEven_cases x) as [-> | ->]; lia.
Qed.

Lemma nearestEven_le (x : Q) (n : Z) :
  x <= inject_Z n -> (Double.nearestEven x <= n)%Z.
Proof.
  intros H. destruct (Qfloor_bounds x) as [F1 F2].
  assert (Hf : (Qfloor x <= n)%Z).
  { rewrite <- (Qfloor_Z n). apply Qfloor_resp_le, H. }
  destruct (Z.eq_dec (Qfloor x) n) as [En|Hne].
  - (* x is the integer n *)
    assert (Hx : x == inject_Z n).
    { apply Qle_antisym; [exact H|]. rewrite <- En. exact F1. }
    rewrite (nearestEven_comp _ _ Hx). unfold Double.nearestEven.
    rewrite Qfloor_Z.
    replace (Qcompare (inject_Z n - inject_Z n) (1 # 2)) with Lt; [lia|].
    symmetry. apply Qlt_alt.
    assert (Hz : inject_Z n - inject_Z n == 0) by ring.
    rewrite Hz. reflexivity.
  - destruct (nearestEven_cases x) as [-> | ->]; lia.
Qed.

Lemma nearestEven_mono (x y : Q) :
  x <= y -> (Double.nearestEven x <= Double.nearestEven y)%Z.
Proof.
  intros H.
  assert (Hf : (Qfloor x <= Qfloor y)%Z) by (apply Qfloor_resp_le, H).
  destruct (Z.eq_dec (Qfloor x) (Qfloor y)) as [E|Hne].
  - unfold Double.nearestEven. rewrite E.
    set (f := Qfloor y).
    destruct (Qcompare (x - inject_Z f) (1 # 2)) eqn:Cx;
      destruct (Qcompare (y - inject_Z f) (1 # 2)) eqn:Cy;
      try (destruct (Z.even f)); try lia; exfalso;
      repeat match goal with
        | H : Qcompare _ _ = Eq |- _ => apply Qeq_alt in H
        | H : Qcompare _ _ = Lt |- _ => apply Qlt_alt in H
        | H : Qcompare _ _ = Gt |- _ => apply Qgt_alt in H
        end; lra.
  - assert (Qfloor x + 1 <= Qfloor y)%Z by lia.
    destruct (nearestEven_cases x) as [-> | ->];
      destruct (nearestEven_cases y) as [-> | ->]; lia.
Qed.

Lemma ulp_pos (a : Q) : 0 < Double.ulp a.
Proof. apply pow2_pos. Qed.

Lemma ulp_comp (x y : Q) : x == y -> 0 < x -> Double.ulp x = Double.ulp y.
Proof. intros E H. unfold Double.ulp. rewrite (ilog2_comp x y E H). reflexivity. Qed.

Lemma Qnum_pos (q : Q) : 0 < q <-> exists p, Qnum q = Zpos p.
Proof.
  destruct q as [n d]. unfold Qlt. cbn. split.
  - intros H. destruct n; try lia. eauto.
  - intros [p ->]. lia.
Qed.

Lemma Qnum_neg (q : Q) : q < 0 <-> exists p, Qnum q = Zneg p.
Proof.
  destruct q as [n d]. unfold Qlt. cbn. split.
  - intros H. destruct n; try lia. eauto.
  - intros [p ->]. lia.
Qed.

Lemma Qnum_zero (q : Q) : q == 0 <-> Qnum q = 0%Z.
Proof. destruct q as [n d]. unfold Qeq. cbn. lia. Qed.

Lemma round_pos (q : Q) :
  0 < q ->
  Double.round q
  = Qred (inject_Z (Double.nearestEven (q / Double.ulp q)) * Double.ulp q).
Proof.
  intros H. apply Qnum_pos in H as [p Hp]. unfold Double.round. rewrite Hp.
  reflexivity.
Qed.

Lemma round_neg (q : Q) :
  q < 0 -> Double.round q = Qred (- Double.round (- q)).
Proof.
  intros H. pose proof H as H'. apply Qnum_neg in H as [p Hp].
  unfold Double.round at 1. rewrite Hp.
  assert (Hq : 0 < - q) by lra.
  rewrite (round_pos _ Hq). apply Qred_complete.
  rewrite Qred_correct. reflexivity.
Qed.

Lemma round_zero (q : Q) : q == 0 -> Double.round q = 0.
Proof. intros H. apply Qnum_zero in H. unfold Double.round. rewrite H. reflexivity. Qed.

Lemma round_comp (x y : Q) : x == y -> Double.round x = Double.round y.
Proof.
  intros E.
  assert (Hpos : forall a b, a == b -> 0 < a -> Double.round a = Double.round b).
  { intros a b Eab Ha. assert (Hb : 0 < b) by (rewrite <- Eab; exact Ha).
    rewrite (round_pos a Ha), (round_pos b Hb).
    rewrite (ulp_comp a b Eab Ha).
    rewrite (nearestEven_comp (a / Double.ulp b) (b / Double.ulp b));
      [reflexivity|]. rewrite Eab. reflexivity. }
  destruct (Q_dec x 0) as [[Hx|Hx]|Hx].
  - assert (Hy : y < 0) by (rewrite <- E; exact Hx).
    rewrite (round_neg x Hx), (round_neg y Hy).
    rewrite (Hpos (- x) (- y)); [reflexivity|rewrite E; reflexivity|lra].
  - apply Hpos; assumption.
  - rewrite (round_zero x Hx). symmetry. apply round_zero. rewrite <- E. exact Hx.
Qed.

Lemma round_pos_bounds (q : Q) :
  0 < q ->
  let e := Z.max (Double.ilog2 q) (-1022) in
  0 <= Double.round q
  /\ Double.round q <= Double.pow2 (e + 1)
  /\ ((-1022 <= Double.ilog2 q)%Z -> Double.pow2 e <= Double.round q).
Proof.
  intros Hq e. rewrite (round_pos q Hq), Qred_correct.
  unfold Double.ulp. fold e.
  pose proof (pow2_pos (e - 52)) as Pu.
  destruct (ilog2_spec q Hq) as [S1 S2].
  set (u := Double.pow2 (e - 52)) in *.
  assert (H53 : Double.pow2 (e + 1) == inject_Z (2 ^ 53) * u).
  { unfold u. rewrite <- (pow2_Z 53) by lia. rewrite <- pow2_plus.
    replace (53 + (e - 52))%Z with (e + 1)%Z by lia. reflexivity. }
  assert (H52 : Double.pow2 e == inject_Z (2 ^ 52) * u).
  { unfold u. rewrite <- (pow2_Z 52) by lia. rewrite <- pow2_plus.
    replace (52 + (e - 52))%Z with e by lia. reflexivity. }
  assert (Hup : q < Double.pow2 (e + 1)).
  { eapply Qlt_le_trans; [exact S2|]. apply pow2_le. lia. }
  split; [|split].
  - apply Qmult_le_0_compat; [|apply Qlt_le_weak, Pu].
    change 0 with (inject_Z 0). rewrite <- Zle_Qle.
    apply nearestEven_ge. change (inject_Z 0) with 0.
    apply Qle_shift_div_l; [exact Pu|]. rewrite Qmult_0_l.
    apply Qlt_le_weak, Hq.
  - rewrite H53. apply Qmult_le_compat_r; [|apply Qlt_le_weak, Pu].
    rewrite <- Zle_Qle. apply nearestEven_le.
    apply Qle_shift_div_r; [exact Pu|]. rewrite <- H53.
    apply Qlt_le_weak, Hup.
  - intros Hn. assert (He : e = Double.ilog2 q) by lia.
    rewrite H52. apply Qmult_le_compat_r; [|apply Qlt_le_weak, Pu].
    rewrite <- Zle_Qle. apply nearestEven_ge.
    apply Qle_shift_div_l; [exact Pu|]. rewrite <- H52, He. exact S1.
Qed.

Lemma round_pos_mono (x y : Q) :
  0 < x -> x <= y -> Double.round x <= Double.round y.
Proof.
  intros Hx Hxy.
  assert (Hy : 0 < y) by (eapply Qlt_le_trans; eassumption).
  pose proof (ilog2_mono x y Hx Hxy) as Hlog.
  destruct (Z.eq_dec (Z.max (Double.ilog2 x) (-1022))
                     (Z.max (Double.ilog2 y) (-1022))) as [E|Hne].
  - rewrite (round_pos x Hx), (round_pos y Hy), !Qred_correct.
    unfold Double.ulp. rewrite E.
    set (u := Double.pow2 _). pose proof (pow2_pos (Z.max (Double.ilog2 y) (-1022) - 52)) as Pu.
    fold u in Pu.
    apply Qmult_le_compat_r; [|apply Qlt_le_weak, Pu].
    rewrite <- Zle_Qle. apply nearestEven_mono.
    apply Qmult_le_compat_r; [exact Hxy|].
    apply Qlt_le_weak, Qinv_lt_0_compat, Pu.
  - destruct (round_pos_bounds x Hx) as (_ & X2 & _).
    destruct (round_pos_bounds y Hy) as (_ & _ & Y3).
    cbn zeta in X2, Y3.
    assert (Hey : (-1022 <= Double.ilog2 y)%Z) by lia.
    eapply Qle_trans; [exact X2|]. eapply Qle_trans; [|exact (Y3 Hey)].
    apply pow2_le. lia.
Qed.

Lemma round_nonneg (x : Q) : 0 <= x -> 0 <= Double.round x.
Proof.
  intros H. destruct (Qle_lt_or_eq _ _ H) as [Hp|Hz].
  - apply round_pos_bounds, Hp.
  - rewrite (round_zero x); [apply Qle_refl|]. symmetry. exact Hz.
Qed.

Lemma round_mono (x y : Q) : x <= y -> Double.round x <= Double.round y.
Proof.
  intros H.
  destruct (Q_dec x 0) as [[Hx|Hx]|Hx].
  - destruct (Q_dec y 0) as [[Hy|Hy]|Hy].
    + rewrite (round_neg x Hx), (round_neg y Hy), !Qred_correct.
      apply Qopp_le_compat. apply round_pos_mono; lra.
    + rewrite (round_neg x Hx), Qred_correct.
      apply Qle_trans with 0; [|apply round_nonneg; lra].
      assert (0 <= Double.round (- x)) by (apply round_nonneg; lra). lra.
    + rewrite (round_neg x Hx), Qred_correct, (round_zero y Hy).
      assert (0 <= Double.round (- x)) by (apply round_nonneg; lra). lra.
  - apply round_pos_mono; assumption.
  - rewrite (round_zero x Hx). apply round_nonneg. lra.
Qed.

Lemma add_mono (x x' y y' : Q) : x <= x' -> y <= y' -> x ⊕ y <= x' ⊕ y'.
Proof. intros Hx Hy. apply round_mono. lra. Qed.

Lemma sum_snoc (l : list Q) (x : Q) : Double.sum (l ++ [x]) = Double.sum l ⊕ x.
Proof. unfold Double.sum. rewrite fold_left_app. reflexivity. Qed.

End Rounding.

(** ** Laugh mode in binary64 arithmetic: the scoring tick *)

(** Category names that count as laughter; in the third one the k is the
    Kelvin sign. *)
Example isLaughterCategory_names :
  Laugh.isLaughterCategory "Laughter" = true
  /\ Laugh.isLaughterCategory "Belly laugh" = true
  /\ Laugh.isLaughterCategory "CHUCKLE" = true
  /\ Laugh.isLaughterCategory "Speech" = false.
Proof. repeat split. Qed.

Section Laugh64Score.
Variable Math_sqrt : Q -> Q.
Variable playerName : string.
Local Open Scope Q_scope.

Lemma mul_comp (x x' y y' : Q) : x == x' -> y == y' -> x ⊗ y = x' ⊗ y'.
Proof. intros Hx Hy. apply round_comp. rewrite Hx, Hy. reflexivity. Qed.

Lemma startLaughRound64_started (inp : Laugh.StartInput) (s s0 : Laugh.State)
    (out : list Ui.Call) :
  Laugh64.startLaughRound Math_sqrt inp s = (s0, out, None) ->
  Laugh.isRoundRunning s0 = true /\ Laugh.gameLoop s0 = true
  /\ Laugh.vars s0 = Laugh.freshVars
  /\ Laugh.localStorage s0 = Laugh.localStorage s.
Proof.
  unfold Laugh64.startLaughRound, Laugh.ensureClassifier.
  cbn [Laugh.cleanupAudio Laugh.audioClassifier].
  destruct (Laugh.audioClassifier s);
    destruct (Laugh.classifierFails inp);
    destruct (Laugh.microphoneFails inp); intros H;
    try discriminate; injection H as <- _; cbn; auto.
Qed.

Lemma tickVars64_sum b inp v :
  Laugh.laughProbSum (Laugh64.tickVars Math_sqrt b inp v)
  = Laugh.laughProbSum v ⊕ Laugh64.tickProbability (Laugh.outcome inp).
Proof. unfold Laugh64.tickVars. destruct (Js.ge _ _); reflexivity. Qed.

Lemma tickVars64_count b inp v :
  Laugh.frameCount (Laugh64.tickVars Math_sqrt b inp v)
  = (Laugh.frameCount v + 1)%Z.
Proof. unfold Laugh64.tickVars. destruct (Js.ge _ _); reflexivity. Qed.

Lemma tickVars64_elapsed b inp v :
  Laugh.elapsedTime (Laugh64.tickVars Math_sqrt b inp v)
  = (Laugh.elapsedTime v + 250)%Z.
Proof. unfold Laugh64.tickVars. destruct (Js.ge _ _); reflexivity. Qed.

Lemma tickVars64_penalty b inp v :
  Laugh.loudPenalty (Laugh64.tickVars Math_sqrt b inp v)
  = Laugh64.tickPenalty Math_sqrt b (Laugh.rmsData inp) (Laugh.loudPenalty v).
Proof. unfold Laugh64.tickVars. destruct (Js.ge _ _); reflexivity. Qed.

Lemma tick64_of_running (s : Laugh.State) (inp : Laugh.TickInput) :
  Laugh.isRoundRunning s = true ->
  let v := Laugh64.tickVars Math_sqrt (Laugh.baselineRMS s) inp (Laugh.vars s) in
  exists s1 log,
    Laugh.isRoundRunning s1 = true /\ Laugh.gameLoop s1 = Laugh.gameLoop s
    /\ Laugh.baselineRMS s1 = Laugh.baselineRMS s
    /\ Laugh.localStorage s1 = Laugh.localStorage s
    /\ Laugh.vars s1 = v
    /\ Ui.shown "joy" log = [Ui.toString (Laugh64.joyRank v)]
    /\ Laugh64.gameLoopTick Math_sqrt playerName inp s
       = if (Laugh.ROUND_DURATION <=? Laugh.elapsedTime v)%Z
         then Ui.andThen (s1, log)
                (Laugh.stopRound playerName (Laugh64.joyRank v)
                   (Laugh.tickNow inp))
         else (s1, log).
Proof.
  intros Hrun v. unfold Laugh64.gameLoopTick. rewrite Hrun. cbn [negb].
  fold v.
  match goal with
  | |- context [if _ then Ui.andThen (?st, ?out) _ else _] =>
      exists st, out
  end.
  cbn [Laugh.isRoundRunning Laugh.gameLoop Laugh.baselineRMS
       Laugh.localStorage Laugh.vars].
  repeat split; try assumption.
  rewrite shown_app. destruct (Laugh.outcome inp); reflexivity.
Qed.

Lemma loudPenalties_snoc (b : Q) (inputs : list Laugh.TickInput)
    (inp : Laugh.TickInput) :
  Props.loudPenalties Math_sqrt b (inputs ++ [inp])
  = Laugh64.tickPenalty Math_sqrt b (Laugh.rmsData inp)
      (Props.loudPenalties Math_sqrt b inputs).
Proof. unfold Props.loudPenalties. rewrite fold_left_app. reflexivity. Qed.

Lemma run64_ticks_running (s0 : Laugh.State) (inputs : list Laugh.TickInput) :
  Laugh.isRoundRunning s0 = true -> Laugh.gameLoop s0 = true ->
  Laugh.vars s0 = Laugh.freshVars ->
  (length inputs < 40)%nat ->
  Props.Running64 Math_sqrt s0
    (Laugh64.run Math_sqrt playerName s0 (Props.ticks inputs)).1 inputs.
Proof.
  intros Hrun Hloop Hvars.
  induction inputs as [|inp inputs IH] using rev_ind; intros Hlen.
  - cbn. split; try assumption; try reflexivity; rewrite Hvars; reflexivity.
  - rewrite length_app in Hlen. cbn [length] in Hlen.
    specialize (IH ltac:(lia)).
    unfold Laugh64.run, Props.ticks in *. rewrite map_app. cbn [map].
    rewrite runAll_snoc.
    destruct (Ui.runAll _ s0 (map Laugh.Tick inputs)) as [s out].
    cbn [fst] in IH. destruct IH as [H1 H2 H3 H4 H5 H6 H7 H8].
    cbn [Ui.andThen Laugh64.step]. rewrite H2.
    destruct (tick64_of_running s inp H1)
      as (s1 & log & G1 & G2 & G3 & G4 & G5 & G6 & G7).
    rewrite G7.
    replace (Laugh.ROUND_DURATION <=? _)%Z with false.
    2:{ symmetry. apply Z.leb_gt. rewrite tickVars64_elapsed, H8.
        unfold Laugh.ROUND_DURATION. lia. }
    cbn [fst]. split.
    + assumption.
    + congruence.
    + congruence.
    + congruence.
    + rewrite G5, tickVars64_sum, map_app. cbn [map].
      rewrite sum_snoc, H5. reflexivity.
    + rewrite G5, tickVars64_count, H6, length_app. cbn [length]. lia.
    + rewrite G5, tickVars64_penalty, loudPenalties_snoc, H7, H3. reflexivity.
    + rewrite G5, tickVars64_elapsed, H8, length_app. cbn [length]. lia.
Qed.

(** C4.  At every tick of a started round the joy meter shows
    [round(max(0, 100 * mean(p) - 15 * cumulativeLoudPenalty
    + 2 * streakBonus))], evaluated in the order written in binary64
    arithmetic, where [mean(p)] is the sum of the laughter probabilities of
    all the ticks so far divided by their number and the penalty what the
    ticks so far have added up; the score persisted by the 40th tick is
    the same number; and with a mean of 0.5, no penalty and a streak bonus
    of 3 the score is 56. *)
Theorem laugh_score_formula (start : Laugh.StartInput)
    (s_prev s0 : Laugh.State) (out0 : list Ui.Call)
    (inputs : list Laugh.TickInput) (inp : Laugh.TickInput) :
  Laugh64.startLaughRound Math_sqrt start s_prev = (s0, out0, None) ->
  (length inputs < 40)%nat ->
  let all := inputs ++ [inp] in
  let meanP :=
    Props.mean64
      (map (fun i => Laugh64.tickProbability (Laugh.outcome i)) all) in
  let cumulativeLoudPenalty :=
    Props.loudPenalties Math_sqrt (Laugh.baselineRMS s0) all in
  let s := (Laugh64.run Math_sqrt playerName s0 (Props.ticks inputs)).1 in
  let r := Laugh64.gameLoopTick Math_sqrt playerName inp s in
  let score :=
    Js.Math_round
      (Js.Math_max 0
         (100 ⊗ meanP ⊖ 15 ⊗ cumulativeLoudPenalty
          ⊕ 2 ⊗ inject_Z (Laugh.streakBonus (Laugh.vars r.1)))) in
  Ui.shown "joy" r.2 = [Ui.toString score]
  /\ (length all = 40%nat ->
      Laugh.localStorage r.1
      = (Core.saveScore "laugh" playerName score (Laugh.tickNow inp)
           (Laugh.localStorage s0)).1)
  /\ (meanP == 0.5 -> cumulativeLoudPenalty == 0 ->
      Laugh.streakBonus (Laugh.vars r.1) = 3%Z -> score = 56%Z).
Proof.
  intros Hstart Hlen all meanP pen s r score.
  apply startLaughRound64_started in Hstart as (Hrun & Hloop & Hvars & _).
  pose proof (run64_ticks_running s0 inputs Hrun Hloop Hvars Hlen)
    as [H1 H2 H3 H4 H5 H6 H7 H8].
  fold s in H1, H2, H3, H4, H5, H6, H7, H8.
  destruct (tick64_of_running s inp H1)
    as (s1 & log & G1 & G2 & G3 & G4 & G5 & G6 & G7).
  fold r in G7.
  set (v := Laugh64.tickVars Math_sqrt (Laugh.baselineRMS s) inp (Laugh.vars s))
    in *.
  assert (Hjoy : forall st, Laugh.vars st = v ->
            Laugh64.joyRank v
            = Js.Math_round
                (Js.Math_max 0
                   (100 ⊗ meanP ⊖ 15 ⊗ pen
                    ⊕ 2 ⊗ inject_Z (Laugh.streakBonus (Laugh.vars st))))).
  { intros st ->. unfold Laugh64.joyRank, meanP, pen, all, Props.mean64.
    assert (Es : Laugh.laughProbSum v
                 = Double.sum
                     (map (fun i => Laugh64.tickProbability (Laugh.outcome i))
                          (inputs ++ [inp]))).
    { unfold v. rewrite tickVars64_sum, map_app. cbn [map].
      rewrite sum_snoc, H5. reflexivity. }
    assert (Ec : Laugh.frameCount v
                 = Z.of_nat
                     (length
                        (map (fun i => Laugh64.tickProbability (Laugh.outcome i))
                             (inputs ++ [inp])))).
    { unfold v. rewrite tickVars64_count, H6, length_map, length_app.
      cbn [length]. lia. }
    assert (Ep : Laugh.loudPenalty v
                 = Props.loudPenalties Math_sqrt (Laugh.baselineRMS s0)
                     (inputs ++ [inp])).
    { unfold v. rewrite tickVars64_penalty, loudPenalties_snoc, H7, H3.
      reflexivity. }
    rewrite Es, Ec, Ep. reflexivity. }
  assert (Hel : Laugh.elapsedTime v = (250 * Z.of_nat (length all))%Z).
  { unfold v, all. rewrite tickVars64_elapsed, H8, length_app.
    cbn [length]. lia. }
  assert (Hex : meanP == 0.5 -> pen == 0 ->
                forall b, b = 3%Z ->
                Js.Math_round
                  (Js.Math_max 0 (100 ⊗ meanP ⊖ 15 ⊗ pen ⊕ 2 ⊗ inject_Z b))
                = 56%Z).
  { intros Hm Hp b ->.
    rewrite (mul_comp 100 100 meanP 0.5 (Qeq_refl _) Hm).
    rewrite (mul_comp 15 15 pen 0 (Qeq_refl _) Hp).
    vm_compute. reflexivity. }
  revert G7.
  destruct (Z.leb_spec Laugh.ROUND_DURATION (Laugh.elapsedTime v))
    as [Hend|Hgo]; intros G7.
  - pose proof (laugh_stopRound_running playerName (Laugh64.joyRank v)
                  (Laugh.tickNow inp) s1 G1) as (K1 & K2 & K3 & K4 & K5 & K6).
    cbn zeta in K1, K2, K3, K4, K5, K6. rewrite andThen_pair in G7.
    assert (Hsc : Laugh64.joyRank v = score).
    { unfold score. rewrite G7. cbn [fst]. apply Hjoy. congruence. }
    split; [|split].
    + rewrite G7. cbn [fst snd].
      rewrite shown_app, G6, K6, app_nil_r, Hsc. reflexivity.
    + intros _. rewrite G7. cbn [fst]. rewrite K5, G4, H4, Hsc. reflexivity.
    + intros Hm Hp Hb. unfold score. apply Hex; assumption.
  - assert (Hsc : Laugh64.joyRank v = score).
    { unfold score. rewrite G7. cbn [fst]. apply Hjoy. assumption. }
    split; [|split].
    + rewrite G7. cbn [fst snd]. rewrite G6, Hsc. reflexivity.
    + intros H40. unfold Laugh.ROUND_DURATION in Hgo. lia.
    + intros Hm Hp Hb. unfold score. apply Hex; assumption.
Qed.

End Laugh64Score.

Lemma laugh_score_formula_witness :
  Ui.shown "joy"
    (Laugh64.gameLoopTick Props.sample_sqrt "Ann" Samples.silent
       (Laugh64.run Props.sample_sqrt "Ann" Samples.laugh_started64
          (Props.ticks Samples.round39)).1).2
  = [Ui.toString 56]
  /\ Core.loadScores "laugh"
       (Laugh.localStorage
          (Laugh64.gameLoopTick Props.sample_sqrt "Ann" Samples.silent
             (Laugh64.run Props.sample_sqrt "Ann" Samples.laugh_started64
                (Props.ticks Samples.round39)).1).1)
     = [Core.mkEntry "Ann" 56 1762041600000].
Proof.
  pose proof (laugh_score_formula Props.sample_sqrt "Ann"
                Samples.laugh_start Samples.laugh_idle Samples.laugh_started64
                (Laugh64.startLaughRound Props.sample_sqrt Samples.laugh_start
                   Samples.laugh_idle).1.2
                Samples.round39 Samples.silent) as H.
  cbn zeta in H.
  destruct H as (H1 & H2 & H3); [reflexivity | vm_compute; lia |].
  match type of H3 with
  | _ -> _ -> _ -> ?sc = _ =>
      assert (Hs : sc = 56)
        by (apply H3; vm_compute; reflexivity)
  end.
  rewrite Hs in H1, H2. split; [exact H1|].
  rewrite H2 by reflexivity. reflexivity.
Defined.

(** A round in which 23 of the 40 ticks hear laughter, never four in a
    row and never loud: the mean is the double nearest to 0.575, one
    hundred times it is the double just below 57.5, and the round shows
    and persists 57. *)
Example laugh_round_23_of_40 :
  Props.mean64
    (map (fun i => Laugh64.tickProbability (Laugh.outcome i))
         Samples.round_23_of_40)
  = Double.lit 0.575
  /\ (100 ⊗ Double.lit 0.575 < 57.5)%Q
  /\ last (Props.integers
             (Ui.shown "joy"
                (Laugh64.run Props.sample_sqrt "Ann" Samples.laugh_started64
                   (Props.ticks Samples.round_23_of_40)).2))
     = Some 57
  /\ Core.loadScores "laugh"
       (Laugh.localStorage
          (Laugh64.run Props.sample_sqrt "Ann" Samples.laugh_started64
             (Props.ticks Samples.round_23_of_40)).1)
     = [Core.mkEntry "Ann" 57 1762041600000].
Proof. vm_compute. repeat split. Qed.

(** ** Shake mode in binary64 arithmetic: the frame *)

Section Shake64Frame.
Local Open Scope Q_scope.

Lemma frame64_of_running (playerName : string) (now : Z) (s : Shake.State) :
  Shake.isRoundRunning s = true ->
  let r := Shake64.gameLoopFrame playerName now s in
  Ui.shown "shake" r.2 = [Ui.toString (Shake64.shakeRank s)]
  /\ Shake.integratedAccEnergy r.1 = Shake.integratedAccEnergy s
  /\ Shake.integratedRotEnergy r.1 = Shake.integratedRotEnergy s
  /\ (if Js.ge (Shake.elapsedTime s ⊕ Shake64.FRAME_INTERVAL)
               Shake64.ROUND_DURATION
      then Shake.isRoundRunning r.1 = false
           /\ Shake.localStorage r.1
              = (Core.saveScore "shake" playerName (Shake64.shakeRank s) now
                   (Shake.localStorage s)).1
      else Shake.isRoundRunning r.1 = true
           /\ Shake.localStorage r.1 = Shake.localStorage s).
Proof.
  intros Hrun. unfold Shake64.gameLoopFrame. rewrite Hrun.
  cbn [negb Shake.elapsedTime Shake.isRoundRunning Shake.localStorage].
  destruct (Js.ge _ _).
  - rewrite andThen_pair.
    match goal with
    | |- context [Shake.stopRound ?n ?f ?t ?st] =>
        pose proof (shake_stopRound_running n f t st eq_refl)
          as (K1 & K2 & K3 & K4 & K5 & K6 & K7)
    end.
    cbn zeta in *. cbn [fst snd]. rewrite shown_app, K7.
    repeat split; try assumption.
  - cbn. repeat split; reflexivity.
Qed.

(** C5.  At every frame of a running round the shake meter shows
    [round(6 * integratedAccEnergy + 2 * integratedRotEnergy)], the sum
    evaluated in binary64 arithmetic and [round] giving the integer nearest
    to it; the frame that ends the round persists the same number; and
    with energies 10 and 5 the score is 70. *)
Theorem shake_score_formula (playerName : string) (now : Z)
    (s : Shake.State) :
  Shake.isRoundRunning s = true ->
  let r := Shake64.gameLoopFrame playerName now s in
  let energy :=
    6 ⊗ Shake.integratedAccEnergy s ⊕ 2 ⊗ Shake.integratedRotEnergy s in
  let score := Js.Math_round energy in
  Ui.shown "shake" r.2 = [Ui.toString score]
  /\ (inject_Z score - (1 # 2) <= energy /\ energy < inject_Z score + (1 # 2))
  /\ (Js.ge (Shake.elapsedTime s ⊕ Shake64.FRAME_INTERVAL)
            Shake64.ROUND_DURATION = true ->
      Shake.localStorage r.1
      = (Core.saveScore "shake" playerName score now
           (Shake.localStorage s)).1)
  /\ (Shake.integratedAccEnergy s == 10 ->
      Shake.integratedRotEnergy s == 5 -> score = 70%Z).
Proof.
  intros Hrun r energy score.
  destruct (frame64_of_running playerName now s Hrun) as (F1 & _ & _ & F4).
  cbn zeta in F1, F4. fold r in F1, F4.
  split; [exact F1|]. split; [apply Math_round_spec|]. split.
  - intros Hend. rewrite Hend in F4. apply F4.
  - intros Ha Hr. unfold score, energy.
    rewrite (mul_comp 6 6 _ 10 (Qeq_refl _) Ha).
    rewrite (mul_comp 2 2 _ 5 (Qeq_refl _) Hr).
    vm_compute. reflexivity.
Qed.

End Shake64Frame.

Lemma shake_score_formula_witness :
  Ui.shown "shake" (Shake64.gameLoopFrame "Ann" 1762041600000 Samples.shaken).2
  = [Ui.toString 70].
Proof.
  destruct (shake_score_formula "Ann" 1762041600000 Samples.shaken eq_refl)
    as (H1 & _ & _ & H4).
  rewrite H1. rewrite H4 by reflexivity. reflexivity.
Defined.

(** At the acceleration energy 0.08333333333333333 six times the energy is
    below one half, the product the frame computes is one half, and the
    meter shows 1. *)
Example shake_frame_at_one_twelfth :
  (6 * Shake.integratedAccEnergy Samples.twelfth < 1 # 2)%Q
  /\ 6 ⊗ Shake.integratedAccEnergy Samples.twelfth = Qred (1 # 2)
  /\ Ui.shown "shake"
       (Shake64.gameLoopFrame "Ann" 1762041600000 Samples.twelfth).2
     = [Ui.toString 1].
Proof. vm_compute. repeat split. Qed.

(** The frame interval is the double nearest to 1000/60; six hundred of
    them add up to less than 10000, so a round that is not stopped by
    hand runs 601 frames. *)
Example shake_round_runs_601_frames :
  let frames n := repeat (Shake.FrameTimer 1762041600000) n in
  let after n :=
    (Shake64.run Props.sample_hypot Props.sample_PI "Ann"
       Samples.shake_started64 (frames n)).1 in
  Shake.isRoundRunning (after 599%nat) = true
  /\ (Shake.elapsedTime (after 599%nat) < 10000)%Q
  /\ Shake.isRoundRunning (after 600%nat) = false.
Proof. vm_compute. repeat split. Qed.

(** ** Laugh mode in binary64 arithmetic: the loudness penalty *)

Lemma capped_S (n : nat) :
  Props.capped (S n) = Props.capped n ⊕ Double.lit 0.03.
Proof.
  unfold Props.capped.
  replace (repeat (Double.lit 0.03) (S n))
    with (repeat (Double.lit 0.03) n ++ [Double.lit 0.03]).
  - apply sum_snoc.
  - symmetry. apply repeat_cons.
Qed.

Lemma capped_step (n : nat) :
  (n < 40)%nat -> (Props.capped n <= Props.capped (S n))%Q.
Proof.
  intros H.
  assert (Hall : forallb (fun k => Qle_bool (Props.capped k) (Props.capped (S k)))
                         (seq 0 40) = true) by (vm_compute; reflexivity).
  rewrite forallb_forall in Hall. apply Qle_bool_iff, Hall, in_seq. lia.
Qed.

Lemma capped_40 (n : nat) :
  (n <= 40)%nat -> (Props.capped n <= Props.capped 40)%Q.
Proof.
  intros H.
  assert (Hall : forallb (fun k => Qle_bool (Props.capped k) (Props.capped 40))
                         (seq 0 41) = true) by (vm_compute; reflexivity).
  rewrite forallb_forall in Hall. apply Qle_bool_iff, Hall, in_seq. lia.
Qed.

Section Laugh64Bounds.
Variable Math_sqrt : Q -> Q.
Variable playerName : string.
Local Open Scope Q_scope.

Lemma tickPenalty64_bounds (baseline : Q) (data : list Q) (pen : Q) (n : nat) :
  (n < 40)%nat -> 0 <= pen -> pen <= Props.capped n ->
  0 <= Laugh64.tickPenalty Math_sqrt baseline data pen
  /\ Laugh64.tickPenalty Math_sqrt baseline data pen <= Props.capped (S n).
Proof.
  intros Hn H0 Hc. unfold Laugh64.tickPenalty.
  destruct (Js.gt _ _) eqn:E.
  - apply Js_gt_true in E.
    set (thr := baseline ⊕ Double.lit 0.10) in *.
    set (cur := Laugh64.rms Math_sqrt data) in *.
    assert (Hd : 0 <= cur ⊖ thr) by (apply round_nonneg; lra).
    assert (Hlit : 0 <= Double.lit 0.03) by (vm_compute; discriminate).
    destruct (Math_min_bounds (Double.lit 0.03) (cur ⊖ thr))
      as (M1 & M2 & [M3|M3]).
    + split.
      * apply round_nonneg. lra.
      * rewrite capped_S. apply add_mono; [exact Hc|exact M1].
    + split.
      * apply round_nonneg. lra.
      * rewrite capped_S. apply add_mono; [exact Hc|exact M1].
  - split; [exact H0|]. eapply Qle_trans; [exact Hc|apply capped_step, Hn].
Qed.

Lemma fresh_Bounded64 (s : Laugh.State) :
  Laugh.vars s = Laugh.freshVars -> Props.Bounded64 s.
Proof.
  intros Hv. split; rewrite ?Hv;
    cbn [Laugh.freshVars Laugh.frameCount Laugh.loudPenalty Laugh.elapsedTime];
    try lia.
  split; [apply Qle_refl|vm_compute; discriminate].
Qed.

Lemma tick_Bounded64 (inp : Laugh.TickInput) (s : Laugh.State) :
  Props.Bounded64 s ->
  Props.Bounded64 (Laugh64.gameLoopTick Math_sqrt playerName inp s).1.
Proof.
  intros H. destruct (Laugh.isRoundRunning s) eqn:Hrun.
  2:{ unfold Laugh64.gameLoopTick. rewrite Hrun. exact H. }
  destruct (tick64_of_running Math_sqrt playerName s inp Hrun)
    as (s1 & log & G1 & _ & _ & _ & G5 & _ & G7).
  rewrite G7. clear G7.
  set (v := Laugh64.tickVars Math_sqrt (Laugh.baselineRMS s) inp (Laugh.vars s))
    in *.
  destruct H as [B2 B3 B4 B5]. specialize (B3 Hrun).
  assert (F2 : (Laugh.frameCount v = Laugh.frameCount (Laugh.vars s) + 1)%Z)
    by apply tickVars64_count.
  assert (F4 : (Laugh.elapsedTime v = 250 * Laugh.frameCount v)%Z).
  { unfold v. rewrite tickVars64_elapsed, tickVars64_count. lia. }
  assert (F5 : 0 <= Laugh.loudPenalty v
               /\ Laugh.loudPenalty v
                  <= Props.capped (Z.to_nat (Laugh.frameCount v))).
  { rewrite F2. replace (Z.to_nat (Laugh.frameCount (Laugh.vars s) + 1))
      with (S (Z.to_nat (Laugh.frameCount (Laugh.vars s)))) by lia.
    unfold v. rewrite tickVars64_penalty.
    apply tickPenalty64_bounds; [lia|apply B5..]. }
  destruct (Z.leb_spec Laugh.ROUND_DURATION (Laugh.elapsedTime v)) as [Hend|Hgo].
  - rewrite andThen_pair. cbn [fst].
    destruct (stopRound_fields playerName (Laugh64.joyRank v)
                (Laugh.tickNow inp) s1) as (E1 & _ & _ & E4).
    cbn zeta in E1, E4.
    split; rewrite ?E1, ?G5; try assumption; try lia.
    intros Hr. apply E4 in Hr. congruence.
  - cbn [fst]. unfold Laugh.ROUND_DURATION in Hgo.
    split; rewrite ?G5; try assumption; try lia.
Qed.

Lemma step_Bounded64 (a : Laugh.Action) (s : Laugh.State) :
  Props.Bounded64 s ->
  Props.Bounded64 (Laugh64.step Math_sqrt playerName a s).1.
Proof.
  intros H. destruct a as [inp|now]; cbn [Laugh64.step].
  - destruct (Laugh.gameLoop s); [apply tick_Bounded64, H|exact H].
  - unfold Laugh.stopClick.
    destruct (stopRound_fields playerName 0 now s) as (E1 & _ & _ & E4).
    cbn zeta in E1, E4. destruct H as [B2 B3 B4 B5].
    split; rewrite ?E1; try assumption.
    intros Hr. apply B3. destruct (Laugh.isRoundRunning s) eqn:Hrun;
      [reflexivity|].
    rewrite laugh_stopRound_stopped in Hr by assumption. cbn in Hr. congruence.
Qed.

Lemma run_Bounded64 (s : Laugh.State) (acts : list Laugh.Action) :
  Props.Bounded64 s ->
  Props.Bounded64 (Laugh64.run Math_sqrt playerName s acts).1.
Proof.
  intros H. induction acts as [|a acts IH] using rev_ind; [exact H|].
  unfold Laugh64.run in *. rewrite runAll_snoc.
  destruct (Ui.runAll _ s acts) as [s1 out1]. cbn [fst] in IH.
  rewrite andThen_pair. cbn [fst]. apply step_Bounded64, IH.
Qed.

(** X13.  In a started laugh round, computed in binary64 arithmetic,
    [loudPenalty] is never negative and never above what as many ticks as
    were counted give when each adds the cap of 0.03; that is at most
    1.2000000000000008, the sum of forty of them, so the penalty
    [15 * loudPenalty] never exceeds 18.000000000000014. *)
Theorem laugh_penalty_bounded (start : Laugh.StartInput)
    (s s0 : Laugh.State) (out0 : list Ui.Call) (acts : list Laugh.Action) :
  Laugh64.startLaughRound Math_sqrt start s = (s0, out0, None) ->
  let v := Laugh.vars (Laugh64.run Math_sqrt playerName s0 acts).1 in
  0 <= Laugh.loudPenalty v
  /\ Laugh.loudPenalty v <= Props.capped (Z.to_nat (Laugh.frameCount v))
  /\ Laugh.loudPenalty v <= Double.lit 1.2000000000000008
  /\ 15 ⊗ Laugh.loudPenalty v <= Double.lit 18.000000000000014.
Proof.
  intros Hstart v.
  apply startLaughRound64_started in Hstart as (_ & _ & Hv & _).
  destruct (run_Bounded64 s0 acts (fresh_Bounded64 s0 Hv)) as [B2 _ _ B5].
  fold v in B2, B5. destruct B5 as [P1 P2].
  assert (P3 : Laugh.loudPenalty v <= Props.capped 40).
  { eapply Qle_trans; [exact P2|]. apply capped_40. lia. }
  assert (E40 : Props.capped 40 = Double.lit 1.2000000000000008)
    by (vm_compute; reflexivity).
  assert (E18 : 15 ⊗ Props.capped 40 = Double.lit 18.000000000000014)
    by (vm_compute; reflexivity).
  split; [exact P1|]. split; [exact P2|]. split.
  - rewrite <- E40. exact P3.
  - rewrite <- E18. apply round_mono.
    apply Qmult_le_l; [reflexivity|exact P3].
Qed.

End Laugh64Bounds.

Lemma laugh_penalty_bounded_witness :
  (15 ⊗ Laugh.loudPenalty
          (Laugh.vars
             (Laugh64.run Props.sample_sqrt "Ann" Samples.laugh_started64
                (Props.ticks (repeat Samples.loud 40))).1)
   <= Double.lit 18.000000000000014)%Q.
Proof.
  apply (laugh_penalty_bounded Props.sample_sqrt "Ann"
           Samples.laugh_start Samples.laugh_idle Samples.laugh_started64
           (Laugh64.startLaughRound Props.sample_sqrt Samples.laugh_start
              Samples.laugh_idle).1.2
           (Props.ticks (repeat Samples.loud 40))).
  reflexivity.
Defined.

(** Forty ticks that each add the cap: the penalty is above 1.2 and takes
    more than 18 points, the bounds of exact arithmetic. *)
Example laugh_round_of_loud_ticks :
  let v := Laugh.vars
             (Laugh64.run Props.sample_sqrt "Ann" Samples.laugh_started64
                (Props.ticks (repeat Samples.loud 40))).1 in
  Laugh.loudPenalty v = Double.lit 1.2000000000000008
  /\ (1.2 < Laugh.loudPenalty v)%Q
  /\ 15 ⊗ Laugh.loudPenalty v = Double.lit 18.000000000000014
  /\ (18 < 15 ⊗ Laugh.loudPenalty v)%Q.
Proof. vm_compute. repeat split. Qed.
